(** * fmutex: a mutual-exclusion lock on a shared file system

    A shallow embedding of [mutex/mutex.go] and of the commands of
    [main.go], and the properties of the lock engine: construction,
    lock path, acquire loop, dead-lock reclamation, release and the
    status query.

    Layout of the development:
    - [Int64]: Go's [int64] arithmetic on [Z] with explicit wrap-around;
    - [GoStr]: the string functions of the Go library the engine calls
      ([strings.ToLower], [strings.TrimSpace], [strconv.ParseInt],
      [fmt.Sprintf] with [%d], [path.Join]);
    - [Sys]: the world the engine runs in (clock, directory entries,
      inodes, an oracle for I/O faults) and the system calls as state
      transformers;
    - [Mutex]: the engine itself, function by function;
    - [Spec] and [Samples]: the notions the properties are stated with,
      and the engines and worlds of the examples;
    - [Cli] and [CliSpec]: the commands [doLock], [doUnlock] and
      [doTest] of the command line with their helpers, and the notions
      their properties are stated with;
    - the facts about each layer, module by module;
    - the properties of the engine: construction, timestamps and the
      status query, reclamation, acquire and release; then what an
      acquire leaves behind and returns, take-over and exclusion,
      construction, and the command line. *)

From Stdlib Require Import ZArith Ascii String List Bool Lia.
From stdpp Require Import base option gmap strings list.

Local Open Scope string_scope.
Local Open Scope Z_scope.

(* ===================================================================== *)
(** ** int64 arithmetic *)
(* ===================================================================== *)

Module Int64.

Definition modulus : Z := 2 ^ 64.
Definition half : Z := 2 ^ 63.
Definition max_int : Z := half - 1.
Definition min_int : Z := - half.

(** The value of an integer expression after Go stores it in an [int64]. *)
Definition wrap (x : Z) : Z := (x + half) mod modulus - half.

Definition in_range (x : Z) : Prop := min_int <= x <= max_int.

Definition add (x y : Z) : Z := wrap (x + y).
Definition sub (x y : Z) : Z := wrap (x - y).
Definition mul (x y : Z) : Z := wrap (x * y).
(** Go's [/] truncates toward zero; the divisors used here are
    positive constants, so no overflow case arises. *)
Definition div (x y : Z) : Z := Z.quot x y.

End Int64.

(* ===================================================================== *)
(** ** Go strings and the library functions the engine calls *)
(* ===================================================================== *)

(** A Go string is a sequence of bytes; [string] is a sequence of
    [ascii], one per byte. *)
Module GoStr.

Definition byte (c : ascii) : N := N_of_ascii c.

Definition nonEmpty (s : string) : bool :=
  match s with EmptyString => false | String _ _ => true end.

Fixpoint lastByte (s : string) : option ascii :=
  match s with
  | EmptyString => None
  | String c t => match lastByte t with Some d => Some d | None => Some c end
  end.

Fixpoint hasByte (b : ascii) (s : string) : bool :=
  match s with
  | EmptyString => false
  | String c t => Ascii.eqb c b || hasByte b t
  end.

Fixpoint rev (s : string) : string :=
  match s with
  | EmptyString => EmptyString
  | String c t => rev t +:+ String c EmptyString
  end.

(** *** strings.ToLower

    Go lowers ASCII strings byte by byte and maps other runes through
    the Unicode tables. The model lowers the ASCII letters and keeps
    every other byte, which is Go's result on every ASCII string. *)
Definition lowerByte (c : ascii) : ascii :=
  let n := byte c in
  if (65 <=? n)%N && (n <=? 90)%N then ascii_of_N (n + 32) else c.

Fixpoint ToLower (s : string) : string :=
  match s with
  | EmptyString => EmptyString
  | String c t => String (lowerByte c) (ToLower t)
  end.

(** *** fmt.Sprintf with a single [%s] verb: the text before and after
    the verb. *)
Definition Sprintf_s (template : string * string) (arg : string) : string :=
  fst template +:+ arg +:+ snd template.

(** *** strconv: decimal formatting of [%d] *)
Definition digit (d : N) : ascii := ascii_of_N (48 + d).

Fixpoint formatBits (fuel : nat) (u : N) (acc : string) : string :=
  match fuel with
  | O => acc
  | S fuel' =>
      if (u <? 10)%N then String (digit u) acc
      else formatBits fuel' (u / 10)%N (String (digit (u mod 10)%N) acc)
  end.

Definition FormatUint (u : N) : string :=
  formatBits (S (N.to_nat (N.log2 u))) u EmptyString.

Definition FormatInt (i : Z) : string :=
  if i <? 0 then String "-" (FormatUint (Z.to_N (- i)))
  else FormatUint (Z.to_N i).

(** [fmt.Sprintf("%d\n", i)] *)
Definition Sprintf_d_nl (i : Z) : string :=
  FormatInt i +:+ String "010" EmptyString.

(** *** strconv.ParseInt(s, 10, 64); [None] stands for any error
    (syntax or range). *)
Definition isDigit (c : ascii) : bool :=
  (48 <=? byte c)%N && (byte c <=? 57)%N.

Fixpoint parseDigits (s : string) (acc : N) : option N :=
  match s with
  | EmptyString => Some acc
  | String c t =>
      if isDigit c then parseDigits t (acc * 10 + (byte c - 48))%N
      else None
  end.

Definition ParseUint (s : string) : option N :=
  match s with
  | EmptyString => None
  | String _ _ => parseDigits s 0%N
  end.

Definition ParseInt (s : string) : option Z :=
  match s with
  | EmptyString => None
  | String c t =>
      let neg := Ascii.eqb c "-" in
      let rest := if Ascii.eqb c "+" || neg then t else s in
      match ParseUint rest with
      | None => None
      | Some un =>
          if neg then
            if (un <=? 2 ^ 63)%N then Some (- Z.of_N un) else None
          else
            if (un <? 2 ^ 63)%N then Some (Z.of_N un) else None
      end
  end.

(** *** strings.TrimSpace: leading and trailing white space as
    [unicode.IsSpace] defines it, on the UTF-8 encoding. *)
Definition isSpace1 (a : ascii) : bool :=
  let x := byte a in
  ((9 <=? x)%N && (x <=? 13)%N) || (x =? 32)%N.

(** U+0085 and U+00A0 *)
Definition isSpace2 (a b : ascii) : bool :=
  (byte a =? 194)%N && ((byte b =? 133)%N || (byte b =? 160)%N).

(** U+1680, U+2000..U+200A, U+2028, U+2029, U+202F, U+205F, U+3000 *)
Definition isSpace3 (a b c : ascii) : bool :=
  let '(x, y, z) := (byte a, byte b, byte c) in
  ((x =? 225) && (y =? 154) && (z =? 128))%N
  || ((x =? 226)%N && (y =? 128)%N
      && (((128 <=? z)%N && (z <=? 138)%N)
          || (z =? 168)%N || (z =? 169)%N || (z =? 175)%N))
  || ((x =? 226) && (y =? 129) && (z =? 159))%N
  || ((x =? 227) && (y =? 128) && (z =? 128))%N.

Fixpoint trimLeft (s : string) : string :=
  match s with
  | String a t =>
      if isSpace1 a then trimLeft t
      else match t with
           | String b t2 =>
               if isSpace2 a b then trimLeft t2
               else match t2 with
                    | String c t3 =>
                        if isSpace3 a b c then trimLeft t3 else s
                    | EmptyString => s
                    end
           | EmptyString => s
           end
  | EmptyString => s
  end.

(** The same scan from the end, on the reversed bytes. *)
Fixpoint trimRightRev (r : string) : string :=
  match r with
  | String c t =>
      if isSpace1 c then trimRightRev t
      else match t with
           | String b t2 =>
               if isSpace2 b c then trimRightRev t2
               else match t2 with
                    | String a t3 =>
                        if isSpace3 a b c then trimRightRev t3 else r
                    | EmptyString => r
                    end
           | EmptyString => r
           end
  | EmptyString => r
  end.

Definition TrimSpace (s : string) : string :=
  rev (trimRightRev (rev (trimLeft s))).

(** *** path.Join and path.Clean, on the list of path elements *)
Definition slash : ascii := "/".

Fixpoint split (s : string) : list string :=
  match s with
  | EmptyString => [EmptyString]
  | String c t =>
      if Ascii.eqb c slash then EmptyString :: split t
      else match split t with
           | h :: r => String c h :: r
           | [] => [String c EmptyString]
           end
  end.

Definition isRooted (s : string) : bool :=
  match s with
  | String c _ => Ascii.eqb c slash
  | EmptyString => false
  end.

(** One element of the path read by [Clean]; the elements kept so far
    are held newest first. *)
Definition cleanStep (rooted : bool) (kept : list string) (e : string)
  : list string :=
  if String.eqb e "" || String.eqb e "." then kept
  else if String.eqb e ".." then
    match kept with
    | top :: below =>
        if String.eqb top ".." then e :: kept else below
    | [] => if rooted then [] else [e]
    end
  else e :: kept.

Fixpoint joinSlash (l : list string) : string :=
  match l with
  | [] => EmptyString
  | [e] => e
  | e :: r => e +:+ String slash (joinSlash r)
  end.

Definition Clean (p : string) : string :=
  match p with
  | EmptyString => "."
  | String _ _ =>
      let rooted := isRooted p in
      let kept := fold_left (cleanStep rooted) (split p) [] in
      let body := joinSlash (List.rev kept) in
      if rooted then String slash body
      else if nonEmpty body then body else "."
  end.

Fixpoint joinBuf (buf : string) (elem : list string) : string :=
  match elem with
  | [] => buf
  | e :: r =>
      if nonEmpty buf || nonEmpty e then
        joinBuf ((if nonEmpty buf then buf +:+ String slash EmptyString
                  else buf) +:+ e) r
      else joinBuf buf r
  end.

Definition Join (elem : list string) : string :=
  if forallb (fun e => negb (nonEmpty e)) elem then EmptyString
  else Clean (joinBuf EmptyString elem).

(** filepath.IsAbs on a Unix system *)
Definition IsAbs (p : string) : bool := isRooted p.


(** *** Notions used to state facts about these functions *)

(** Bytes that no white-space rune begins or ends with. *)
Definition plain (c : ascii) : bool :=
  negb (isSpace1 c) && (byte c <? 128)%N.

Definition firstByte (s : string) : option ascii :=
  match s with String c _ => Some c | EmptyString => None end.

(** Strings of ASCII bytes: on these [strings.ToLower] works byte by
    byte, and [ToLower] above is its result. *)
Fixpoint isASCII (s : string) : bool :=
  match s with
  | EmptyString => true
  | String c t => (byte c <? 128)%N && isASCII t
  end.

(** The upper-case ASCII letters. *)
Definition isUpper (c : ascii) : bool :=
  (65 <=? byte c)%N && (byte c <=? 90)%N.

Fixpoint hasUpper (s : string) : bool :=
  match s with
  | EmptyString => false
  | String c t => isUpper c || hasUpper t
  end.

Fixpoint allDigits (s : string) : bool :=
  match s with
  | EmptyString => true
  | String c t => isDigit c && allDigits t
  end.

End GoStr.


(* ===================================================================== *)
(** ** The world of the engine: clock, file system, faults *)
(* ===================================================================== *)

Module Sys.

(** Go [error] values the engine meets or builds. *)
Inductive error : Type :=
| ErrNotExist                         (* ENOENT *)
| ErrExist                            (* EEXIST *)
| ErrNotDir                           (* ENOTDIR *)
| ErrPattern                          (* pattern contains path separator *)
| ErrIO                               (* any other failure of the system *)
| ErrNew (msg : string)               (* errors.New(msg) *)
| ErrWrap (msg : string) (e : error). (* fmt.Errorf(msg + ": %w", e) *)

(** A returned [error]: [None] is Go's [nil]. *)
Abbreviation goerror := (option error).

Inductive result (A : Type) : Type :=
| Ok (a : A)
| Err (e : error).
Arguments Ok {A} a.
Arguments Err {A} e.

(** The calls the engine makes, as they appear in the log. *)
Inductive event : Type :=
| EvGetwd
| EvMkdirAll (path : string)
| EvCreateTemp (name : string)
| EvCreate (path : string)
| EvWrite (inode : nat) (data : string)
| EvReadFile (path : string)
| EvLink (oldname newname : string)
| EvRemove (path : string)
| EvSleep (d : Z)
| EvSelect (delay : Z) (done : bool).

(** - [clock]: nanoseconds since the Unix epoch;
    - [files]: the names of the regular files, each bound to an inode,
      so that hard links share their contents;
    - [oracle]: the outcomes the state does not decide, consumed one
      per call: [true] makes a system call fail with [ErrIO]
      (permissions, a full disk, a vanished parent directory) or lets
      the cancellation win a [select] whose timer fires at the same
      instant. An empty oracle answers [false];
    - [log]: the calls made so far, newest first.
    System calls take no time on [clock]; only sleeping advances it. *)
Record World : Type := mkWorld {
  clock : Z;
  cwd : option string;
  dirs : gset string;
  files : gmap string nat;
  inodes : gmap nat string;
  seed : N;
  oracle : list bool;
  log : list event
}.

Definition M (A : Type) : Type := World -> A * World.

Definition ret {A} (a : A) : M A := fun w => (a, w).

Definition bind {A B} (c : M A) (k : A -> M B) : M B :=
  fun w => let (a, w') := c w in k a w'.

Declare Scope sys_scope.
Delimit Scope sys_scope with sys.
Notation "'do' x <- c ; k" := (bind c (fun x => k))
  (at level 10, x name, c at level 100, k at level 200) : sys_scope.
Notation "'do' ' p <- c ; k" := (bind c (fun x => match x with p => k end))
  (at level 10, p pattern, c at level 100, k at level 200) : sys_scope.
Notation "c ;; k" := (bind c (fun _ => k))
  (at level 100, k at level 200, right associativity) : sys_scope.
Local Open Scope sys_scope.

Definition get : M World := fun w => (w, w).

Definition emit (e : event) : M unit :=
  fun w => (tt, mkWorld (clock w) (cwd w) (dirs w) (files w) (inodes w)
                        (seed w) (oracle w) (e :: log w)).

(** The next answer of the oracle. *)
Definition fault : M bool :=
  fun w => match oracle w with
           | [] => (false, w)
           | b :: rest =>
               (b, mkWorld (clock w) (cwd w) (dirs w) (files w) (inodes w)
                           (seed w) rest (log w))
           end.

Definition setClock (t : Z) : M unit :=
  fun w => (tt, mkWorld t (cwd w) (dirs w) (files w) (inodes w)
                        (seed w) (oracle w) (log w)).

Definition setDirs (d : gset string) : M unit :=
  fun w => (tt, mkWorld (clock w) (cwd w) d (files w) (inodes w)
                        (seed w) (oracle w) (log w)).

Definition setFiles (f : gmap string nat) : M unit :=
  fun w => (tt, mkWorld (clock w) (cwd w) (dirs w) f (inodes w)
                        (seed w) (oracle w) (log w)).

Definition setInodes (i : gmap nat string) : M unit :=
  fun w => (tt, mkWorld (clock w) (cwd w) (dirs w) (files w) i
                        (seed w) (oracle w) (log w)).

Definition setSeed (s : N) : M unit :=
  fun w => (tt, mkWorld (clock w) (cwd w) (dirs w) (files w) (inodes w)
                        s (oracle w) (log w)).

(** An inode number in use neither by a name nor by an open file. *)
Definition freshInode (w : World) : nat :=
  fresh (dom (inodes w) ∪ map_img (files w) : gset nat).

(** The contents a name leads to. *)
Definition contents (w : World) (path : string) : option string :=
  match files w !! path with
  | Some i => Some (default EmptyString (inodes w !! i))
  | None => None
  end.

(** *** time *)

(** [time.Now().UnixNano()] *)
Definition UnixNano : M Z := fun w => (Int64.wrap (clock w), w).

(** [time.Sleep(d)]: returns at once when [d <= 0]. *)
Definition Sleep (d : Z) : M unit :=
  emit (EvSleep d) ;;
  do w <- get;
  setClock (clock w + Z.max d 0).

(** A [context.Context], as far as [Done] shows it: the instant at
    which it is cancelled or its deadline passes, if any. *)
Definition Context : Type := option Z.

(** [context.Background()] *)
Definition Background : Context := None.

(** [context.WithTimeout(context.Background(), timeout)] *)
Definition WithTimeout (timeout : Z) : M Context :=
  do w <- get; ret (Some (clock w + timeout)).

(** *** os *)

Definition Getwd : M (result string) :=
  emit EvGetwd ;;
  do bad <- fault;
  do w <- get;
  if bad then ret (Err ErrIO)
  else match cwd w with
       | Some d => ret (Ok d)
       | None => ret (Err ErrNotExist)
       end.

(** [filepath.Abs] *)
Definition Abs (p : string) : M (result string) :=
  if GoStr.IsAbs p then ret (Ok (GoStr.Clean p))
  else
    do r <- Getwd;
    match r with
    | Err e => ret (Err e)
    | Ok wd => ret (Ok (GoStr.Join [wd; p]))
    end.

(** The directory [p] and the directories above it: the prefixes of
    its elements. *)
Fixpoint prefixes (acc : list string) (elems : list string) : list string :=
  match elems with
  | [] => []
  | e :: r =>
      let here := (acc ++ [e])%list in
      let name := GoStr.joinSlash here in
      (if GoStr.nonEmpty name then name else String GoStr.slash EmptyString)
        :: prefixes here r
  end.

Definition lineage (p : string) : list string :=
  prefixes [] (GoStr.split p).

(** [os.MkdirAll(path, perm)] makes the directories of the path one by
    one, the parents first, each with a [Mkdir] of its own, which can
    fail; a directory in place is kept as it is, and a regular file in
    the way fails the call. The directories made before a failure
    remain. The permission bits are not modelled. *)
Fixpoint mkdirs (ds : list string) : M goerror :=
  match ds with
  | [] => ret None
  | d :: rest =>
      do w <- get;
      if bool_decide (is_Some (files w !! d)) then ret (Some ErrNotDir)
      else if bool_decide (d ∈ dirs w) then mkdirs rest
      else
        do bad <- fault;
        if bad then ret (Some ErrIO)
        else setDirs ({[d]} ∪ dirs w) ;; mkdirs rest
  end.

Definition MkdirAll (path : string) : M goerror :=
  emit (EvMkdirAll path) ;;
  mkdirs (lineage path).

(** [os.Create(name)]: opens with O_CREATE|O_TRUNC and returns the
    open file, here its inode. *)
Definition Create (name : string) : M (result nat) :=
  emit (EvCreate name) ;;
  do bad <- fault;
  do w <- get;
  if bad then ret (Err ErrIO)
  else match files w !! name with
       | Some i => setInodes (<[i := EmptyString]> (inodes w)) ;; ret (Ok i)
       | None =>
           let i := freshInode w in
           setFiles (<[name := i]> (files w)) ;;
           setInodes (<[i := EmptyString]> (inodes w)) ;;
           ret (Ok i)
       end.

(** [f.Write(data)] on an open file: appends at the file offset, which
    is the end of the file for the files the engine opens. A failed
    write leaves the file as it was. *)
Definition Write (f : nat) (data : string) : M goerror :=
  emit (EvWrite f data) ;;
  do bad <- fault;
  do w <- get;
  if bad then ret (Some ErrIO)
  else
    setInodes (<[f := default EmptyString (inodes w !! f) +:+ data]> (inodes w)) ;;
    ret None.

(** [ioutil.ReadFile(name)] *)
Definition ReadFile (name : string) : M (result string) :=
  emit (EvReadFile name) ;;
  do bad <- fault;
  do w <- get;
  if bad then ret (Err ErrIO)
  else match contents w name with
       | Some data => ret (Ok data)
       | None => ret (Err ErrNotExist)
       end.

(** [os.Link(oldname, newname)]: a new name for the inode of
    [oldname]; fails if [newname] exists. *)
Definition Link (oldname newname : string) : M goerror :=
  emit (EvLink oldname newname) ;;
  do bad <- fault;
  do w <- get;
  if bad then ret (Some ErrIO)
  else match files w !! oldname with
       | None => ret (Some ErrNotExist)
       | Some i =>
           match files w !! newname with
           | Some _ => ret (Some ErrExist)
           | None => setFiles (<[newname := i]> (files w)) ;; ret None
           end
       end.

(** [os.Remove(name)] of a regular file *)
Definition Remove (name : string) : M goerror :=
  emit (EvRemove name) ;;
  do bad <- fault;
  do w <- get;
  if bad then ret (Some ErrIO)
  else match files w !! name with
       | None => ret (Some ErrNotExist)
       | Some _ => setFiles (delete name (files w)) ;; ret None
       end.

(** *** ioutil.TempFile *)

(** The text before and after the last [*] of the pattern; without a
    [*] the whole pattern is the prefix. *)
Fixpoint cutLastStar (s : string) : option (string * string) :=
  match s with
  | EmptyString => None
  | String c t =>
      match cutLastStar t with
      | Some (p, q) => Some (String c p, q)
      | None => if Ascii.eqb c "*" then Some (EmptyString, t) else None
      end
  end.

Definition prefixAndSuffix (pattern : string) : result (string * string) :=
  if GoStr.hasByte GoStr.slash pattern then Err ErrPattern
  else match cutLastStar pattern with
       | Some ps => Ok ps
       | None => Ok (pattern, EmptyString)
       end.

Definition TempDir : string := "/tmp".

Definition joinPath (dir name : string) : string :=
  match GoStr.lastByte dir with
  | Some c =>
      if Ascii.eqb c GoStr.slash then dir +:+ name
      else dir +:+ String GoStr.slash name
  | None => dir +:+ String GoStr.slash name
  end.

(** The source of random file names: a counter printed in decimal. *)
Definition nextRandom : M string :=
  do w <- get;
  setSeed (seed w + 1) ;;
  ret (GoStr.FormatUint (seed w)).

(** The attempts of [TempFile] to open a new name with O_EXCL; a name
    that exists is retried, [more] times at most. *)
Fixpoint tempAttempts (more : nat) (dir pre suf : string) : M (result string) :=
  do r <- nextRandom;
  let name := joinPath dir (pre +:+ r +:+ suf) in
  emit (EvCreateTemp name) ;;
  do bad <- fault;
  do w <- get;
  if bad then ret (Err ErrIO)
  else if negb (bool_decide (dir ∈ dirs w)) then ret (Err ErrNotExist)
  else match files w !! name with
       | Some _ =>
           match more with
           | O => ret (Err ErrExist)
           | S more' => tempAttempts more' dir pre suf
           end
       | None =>
           let i := freshInode w in
           setFiles (<[name := i]> (files w)) ;;
           setInodes (<[i := EmptyString]> (inodes w)) ;;
           ret (Ok name)
       end.

(** [ioutil.TempFile(dir, pattern)], returning the name of the file it
    created; the engine closes the file at once. *)
Definition TempFile (dir pattern : string) : M (result string) :=
  let dir := if GoStr.nonEmpty dir then dir else TempDir in
  match prefixAndSuffix pattern with
  | Err e => ret (Err e)
  | Ok (pre, suf) => tempAttempts (N.to_nat 9999) dir pre suf
  end.

End Sys.

(* ===================================================================== *)
(** ** The lock engine ([mutex/mutex.go]) *)
(* ===================================================================== *)

Module Mutex.
Import Sys.
Local Open Scope sys_scope.

(** *** package time *)

(** A [time.Duration] is an [int64] count of nanoseconds. *)
Definition Nanosecond : Z := 1.
Definition Millisecond : Z := 1000000 * Nanosecond.
Definition Second : Z := 1000 * Millisecond.
Definition Minute : Z := 60 * Second.

(** A [time.Time] is an instant, counted in nanoseconds from the Unix
    epoch; the zero [Time] is January 1 of year 1, 00:00 UTC. *)
Definition Time : Type := Z.
Definition zeroTime : Time := -62135596800 * Second.
Definition IsZero (t : Time) : bool := t =? zeroTime.
(** [time.Unix(sec, nsec)] *)
Definition Unix (sec nsec : Z) : Time := sec * Second + nsec.
(** [t.UnixNano()], an [int64] *)
Definition Time_UnixNano (t : Time) : Z := Int64.wrap t.

(** *** the engine *)

Record Mutex : Type := mkMutex {
  id : string;
  directory : string;
  deadAgeRecovery : Z;
  pulse : Z;
  refresh : Z
}.

Definition DefaultPulse : Z := 500 * Millisecond.
Definition DefaultRefresh : Z := 10 * Second.
Definition DefaultDeadTimeout : Z := 60 * Minute.

(** ["%s-candidate-*.tmp"] and ["%s-mutex.lck"]: the text around [%s]. *)
Definition lockCandidateTemplate : string * string := ("", "-candidate-*.tmp").
Definition lockTemplate : string * string := ("", "-mutex.lck").

Definition Id (m : Mutex) : string := id m.

Definition LockPath (m : Mutex) : string :=
  GoStr.Join [directory m; GoStr.Sprintf_s lockTemplate (id m)].

Definition nano2Millis (v : Z) : Z := Int64.div v 1000000.

Definition millis (d : Z) : Z := nano2Millis d.

Definition now : M Z :=
  do ns <- UnixNano; ret (nano2Millis ns).

Definition readTimestamp (fileName : string) : M Z :=
  do r <- ReadFile fileName;
  match r with
  | Ok b =>
      match GoStr.ParseInt (GoStr.TrimSpace b) with
      | Some value => ret value
      | None => ret 0
      end
  | Err _ => ret 0
  end.

(** [f] is closed on return; closing changes nothing in the model. *)
Definition writeCurrentTimestamp (f : nat) : M (Z * goerror) :=
  do timestamp <- now;
  do err <- Write f (GoStr.Sprintf_d_nl timestamp);
  match err with
  | Some e => ret (timestamp, Some e)
  | None => ret (timestamp, None)
  end.

(** The [select] of [sleepOrDone]: [true] when [ctx.Done()] is taken,
    [false] when the timer of [time.After(delay)] is. The branch that
    is ready first is taken; when both are ready at the same instant
    the oracle chooses. *)
Definition selectDoneOrAfter (ctx : Context) (delay : Z) : M bool :=
  do w <- get;
  let timer := clock w + Z.max delay 0 in
  match ctx with
  | None => setClock timer ;; emit (EvSelect delay false) ;; ret false
  | Some deadline =>
      if deadline <? timer then
        setClock (Z.max (clock w) deadline) ;;
        emit (EvSelect delay true) ;; ret true
      else if timer <? deadline then
        setClock timer ;; emit (EvSelect delay false) ;; ret false
      else
        do doneFirst <- fault;
        setClock timer ;; emit (EvSelect delay doneFirst) ;; ret doneFirst
  end.

Definition sleepOrDone (ctx : Context) (delay : Z) : M bool :=
  do done <- selectDoneOrAfter ctx delay;
  if done then ret true else ret false.

(** Lines 98-105: the removal of a dead lock. *)
Definition reclaimDead (m : Mutex) (target : string) : M unit :=
  if deadAgeRecovery m >=? 0 then
    do otherTimestamp <- readTimestamp target;
    if otherTimestamp >? 0 then
      do t <- now;
      if Int64.sub t otherTimestamp >? millis (deadAgeRecovery m) then
        Remove target ;;
        Sleep (Int64.mul (pulse m) 2)
      else ret tt
    else ret tt
  else ret tt.

(** Lines 93-105, run when the refresh interval has elapsed: [Err] is
    the error [LockWithContext] returns from here, [Ok] the value of
    [lastTimestamp] it goes on with. *)
Definition refreshWindow (m : Mutex) (candidate target : string)
           (lastTimestamp : Z) : M (result Z) :=
  do f <- Create candidate;
  do r <- match f with
          | Ok fd =>
              do '(ts, err) <- writeCurrentTimestamp fd;
              match err with
              | Some e =>
                  ret (Err (ErrWrap
                    ("cannot write current timestamp for candidate lock "
                       +:+ id m) e))
              | None => ret (Ok ts)
              end
          | Err _ => ret (Ok lastTimestamp)
          end;
  match r with
  | Err e => ret (Err e)
  | Ok lastTimestamp' =>
      reclaimDead m target ;; ret (Ok lastTimestamp')
  end.

(** Lines 107-117: [None] when the link failed and the loop goes on,
    [Some r] when [LockWithContext] returns [r]. The [err] tested at
    line 112 is the one declared at line 107, the result of [os.Link]:
    the [err] assigned at line 110 is the one declared by the [if] at
    line 109, whose scope ends at line 111. *)
Definition publish (m : Mutex) (candidate target : string)
           (lastTimestamp : Z) : M (option goerror) :=
  do err <- Link candidate target;
  match err with
  | None =>
      do t <- now;
      (if Int64.sub t lastTimestamp >? millis (refresh m) then
         do f <- Create target;
         (match f with
          | Ok fd => do _ <- writeCurrentTimestamp fd; ret tt
          | Err _ => ret tt
          end) ;;
         match err with
         | Some e =>
             ret (Some (Some (ErrWrap
               ("cannot write current timestamp for target lock "
                  +:+ id m) e)))
         | None => ret (Some None)
         end
       else ret (Some None))
  | Some _ => ret None
  end.

Definition expired : error := ErrNew "expired".

(** The [if] statement of lines 92-106: the refresh window opens on the
    first turn and whenever the refresh interval has elapsed. *)
Definition refreshIfDue (m : Mutex) (candidate target : string)
           (lastTimestamp : Z) : M (result Z) :=
  do t <- now;
  if (lastTimestamp =? 0)
     || (Int64.sub t lastTimestamp >? millis (refresh m))
  then refreshWindow m candidate target lastTimestamp
  else ret (Ok lastTimestamp).

(** The [for] loop of lines 91-121. [fuel] bounds the number of
    iterations; [None] means the loop is still running when the fuel
    is spent. *)
Fixpoint lockLoop (fuel : nat) (m : Mutex) (ctx : Context)
         (candidate target : string) (lastTimestamp : Z)
  : M (option goerror) :=
  match fuel with
  | O => ret None
  | S fuel' =>
      do r <- refreshIfDue m candidate target lastTimestamp;
      match r with
      | Err e => ret (Some (Some e))
      | Ok lastTimestamp' =>
          do p <- publish m candidate target lastTimestamp';
          match p with
          | Some res => ret (Some res)
          | None =>
              do stop <- sleepOrDone ctx (pulse m);
              if stop then ret (Some (Some expired))
              else lockLoop fuel' m ctx candidate target lastTimestamp'
          end
      end
  end.

(** [LockWithContext]; the deferred [os.Remove(candidate)] runs when
    the function returns. *)
Definition LockWithContext (fuel : nat) (m : Mutex) (ctx : Context)
  : M (option goerror) :=
  do c <- TempFile (directory m) (GoStr.Sprintf_s lockCandidateTemplate (id m));
  match c with
  | Err err =>
      ret (Some (Some (ErrWrap ("cannot create candidate lock " +:+ id m) err)))
  | Ok candidate =>
      let target := LockPath m in
      do res <- lockLoop fuel m ctx candidate target 0;
      match res with
      | Some r => Remove candidate ;; ret (Some r)
      | None => ret None
      end
  end.

Definition TryLock (fuel : nat) (m : Mutex) (timeout : Z) : M (option goerror) :=
  do ctx <- (if timeout >? 0 then WithTimeout timeout else ret Background);
  LockWithContext fuel m ctx.


(** The outcome of the variants that panic. *)
Inductive outcome : Type :=
| Returned
| Panicked (e : error).

Definition Lock (fuel : nat) (m : Mutex) : M (option outcome) :=
  do r <- TryLock fuel m 0;
  match r with
  | Some (Some err) => ret (Some (Panicked err))
  | Some None => ret (Some Returned)
  | None => ret None
  end.


Definition NewMutexExt (root lockId : string) (pulse refresh deadTimeout : Z)
  : M (result Mutex) :=
  do r <- (if negb (GoStr.IsAbs root) then Abs root else ret (Ok root));
  match r with
  | Err err => ret (Err err)
  | Ok root =>
      let dir := GoStr.Join [root; lockId] in
      do e <- MkdirAll dir;
      match e with
      | Some err =>
          ret (Err (ErrWrap ("cannot create directory (" +:+ root +:+ ")") err))
      | None =>
          let pulse := if pulse <=? 0 then DefaultPulse else pulse in
          let refresh := if refresh <=? 0 then DefaultRefresh else refresh in
          ret (Ok {| id := GoStr.ToLower lockId;
                     directory := dir;
                     deadAgeRecovery := deadTimeout;
                     pulse := pulse;
                     refresh := refresh |})
      end
  end.

Definition NewMutex (root lockId : string) : M (result Mutex) :=
  NewMutexExt root lockId DefaultPulse DefaultRefresh DefaultDeadTimeout.

Definition When (m : Mutex) : M Time :=
  do tm <- readTimestamp (LockPath m);
  if negb (tm =? 0) then ret (Unix 0 (Int64.mul tm Millisecond))
  else ret zeroTime.

End Mutex.

(* ===================================================================== *)
(** ** Notions used to state the properties *)
(* ===================================================================== *)

Module Spec.
Import Sys Mutex.

(** What the lock file [target] stores: the integer [readTimestamp]
    finds in it, if the file exists and holds one. *)
Definition storedTimestamp (w : World) (target : string) : option Z :=
  match contents w target with
  | Some b => GoStr.ParseInt (GoStr.TrimSpace b)
  | None => None
  end.

(** The millisecond [now()] returns in the world [w]. *)
Definition nowOf (w : World) : Z := nano2Millis (Int64.wrap (clock w)).

(** The test of line 100 on the timestamp [ts]. *)
Definition isDead (m : Mutex) (w : World) (ts : Z) : Prop :=
  millis (deadAgeRecovery m) < Int64.sub (nowOf w) ts.

(** The tests of lines 98-100 at the instant [t], for a lock file that
    stores [stored]: is the lock reclaimed? *)
Definition deadAt (m : Mutex) (stored : option Z) (t : Z) : bool :=
  (deadAgeRecovery m >=? 0)
  && match stored with
     | Some ts =>
         (ts >? 0)
         && (Int64.sub (nano2Millis (Int64.wrap t)) ts
               >? millis (deadAgeRecovery m))
     | None => false
     end.

(** The calls that have nothing to do with reclaiming the lock
    [target]: no file is read, nothing sleeps without watching the
    context, and [target] is not removed. *)
Definition quiet (target : string) (e : event) : Prop :=
  match e with
  | EvReadFile _ | EvSleep _ => False
  | EvRemove p => p <> target
  | _ => True
  end.

(** [w'] is reached from [w] by calls that all satisfy [P]. *)
Definition logExtends (P : event -> Prop) (w w' : World) : Prop :=
  exists evs, log w' = (evs ++ log w)%list /\ List.Forall P evs.

(** Every run of [c] makes only calls that satisfy [P]. *)
Definition logs {A} (P : event -> Prop) (c : M A) : Prop :=
  forall w, logExtends P w (snd (c w)).

(** The first name [TempFile] tries for the candidate file of [m]. *)
Definition candidateName (m : Mutex) (w : World) : string :=
  joinPath (directory m)
           ((id m +:+ "-candidate-") +:+ GoStr.FormatUint (seed w) +:+ ".tmp").

(** A world in which the lock of [m] is held by someone else and
    nothing fails: the target lock file exists, the lock directory
    exists, the candidate name is free, the oracle reports no fault. *)
Record held (m : Mutex) (w : World) : Prop := mkHeld {
  held_target : is_Some (files w !! LockPath m);
  held_oracle : oracle w = [];
  held_dir : directory m ∈ dirs w;
  held_dir_ne : GoStr.nonEmpty (directory m) = true;
  held_id : GoStr.hasByte GoStr.slash (id m) = false;
  held_free : files w !! candidateName m w = None;
  held_pulse : 0 < pulse m
}.

(** [w1] differs from [w] in the log and in the contents of inode [j]
    at most. *)
Definition steady (j : nat) (w w1 : World) : Prop :=
  files w1 = files w /\ oracle w1 = oracle w /\ clock w1 = clock w
  /\ forall k, k <> j -> inodes w1 !! k = inodes w !! k.

(** The world of a contender inside the loop: no faults ahead, the
    candidate file [c] on inode [j], the target [t] on inode [i], the
    target storing [stored]. *)
Definition polling (c t : string) (i j : nat) (stored : option Z)
           (w : World) : Prop :=
  oracle w = [] /\ files w !! c = Some j /\ files w !! t = Some i
  /\ storedTimestamp w t = stored.

(** [w1] has the names of [w], and the contents of every inode but [j]. *)
Definition keeps (j : nat) (w w1 : World) : Prop :=
  files w1 = files w /\ forall k, k <> j -> inodes w1 !! k = inodes w !! k.

(** A lock file that stores no positive timestamp. *)
Definition unstamped (stored : option Z) : Prop :=
  match stored with Some ts => ts <= 0 | None => True end.

(** The world of a contender that cannot win: the candidate file [c]
    on inode [j], the target [t] on inode [i], the target storing
    [stored]. *)
Definition blocked (c t : string) (i j : nat) (stored : option Z)
           (w : World) : Prop :=
  files w !! c = Some j /\ files w !! t = Some i
  /\ storedTimestamp w t = stored.

(** *** Relations between the world before and after a run *)

(** Every run of [c] takes a world to one that [R] relates to it. *)
Definition respects {A} (R : World -> World -> Prop) (c : M A) : Prop :=
  forall w, R w (snd (c w)).

(** No fault in store before, none after. *)
Definition noFaults (w w1 : World) : Prop :=
  oracle w = [] -> oracle w1 = [].

(** The names other than [t] lead where they led. *)
Definition onlyAt (t : string) (w w1 : World) : Prop :=
  forall p, p <> t -> files w1 !! p = files w !! p.

(** As long as the candidate file [c] is there, only the name [t]
    changes. *)
Definition framed (c t : string) (w w1 : World) : Prop :=
  is_Some (files w !! c) -> onlyAt t w w1.

(** The directories are the same. *)
Definition sameDirs (w w1 : World) : Prop := dirs w1 = dirs w.

(** The log of [w1] is that of [w] with calls added. *)
Definition logGrows (w w1 : World) : Prop :=
  exists evs, log w1 = (evs ++ log w)%list.

(** Since the world [w0], [os.Remove] has been called on [t]. *)
Definition removedSince (t : string) (w0 w : World) : Prop :=
  exists evs, log w = (evs ++ log w0)%list /\ In (EvRemove t) evs.

(** Since the world [w0] the lock file [t] has been in place, unless
    [os.Remove] has been called on it. *)
Definition tracked (t : string) (w0 w : World) : Prop :=
  exists evs, log w = (evs ++ log w0)%list
              /\ (is_Some (files w !! t) \/ In (EvRemove t) evs).

(** [tracked] and [removedSince], once they hold, go on holding. *)
Definition tracks (t : string) (w0 w w1 : World) : Prop :=
  tracked t w0 w -> tracked t w0 w1.

Definition staysRemoved (t : string) (w0 w w1 : World) : Prop :=
  removedSince t w0 w -> removedSince t w0 w1.

(** What a relation needs for the loop of [LockWithContext], run on the
    candidate [c] and the target [t], to respect it: the system calls
    the loop makes do. *)
Record loopStable (c t : string) (R : World -> World -> Prop) : Prop := {
  ls_refl : forall w, R w w;
  ls_trans : forall w1 w2 w3, R w1 w2 -> R w2 w3 -> R w1 w3;
  ls_emit : forall e, respects R (emit e);
  ls_fault : respects R fault;
  ls_setClock : forall x, respects R (setClock x);
  ls_setInodes : forall i, respects R (setInodes i);
  ls_CreateC : respects R (Create c);
  ls_CreateT : respects R (Create t);
  ls_Link : respects R (Link c t);
  ls_RemoveT : respects R (Remove t)
}.

(** A world in which the lock of [m] is free and nothing fails: no
    lock file, the oracle reports no fault, the lock directory exists
    and its name is not empty, the identifier has no slash, the
    candidate name is free. *)
Record free (m : Mutex) (w : World) : Prop := mkFree {
  free_target : files w !! LockPath m = None;
  free_oracle : oracle w = [];
  free_dir : directory m ∈ dirs w;
  free_dir_ne : GoStr.nonEmpty (directory m) = true;
  free_id : GoStr.hasByte GoStr.slash (id m) = false;
  free_candidate : files w !! candidateName m w = None
}.

(** A world in which [ioutil.TempFile] gives [m] its candidate file:
    no fault ahead, the lock directory exists and its name is not
    empty, the identifier has no slash, the candidate name is unused.
    Nothing is said of the lock file. *)
Record ready (m : Mutex) (w : World) : Prop := mkReady {
  ready_oracle : oracle w = [];
  ready_dir : directory m ∈ dirs w;
  ready_dir_ne : GoStr.nonEmpty (directory m) = true;
  ready_id : GoStr.hasByte GoStr.slash (id m) = false;
  ready_candidate : files w !! candidateName m w = None
}.

(** *** Paths and construction *)

(** A path element that [Clean] keeps: no slash, and none of the empty
    string, [.] and [..]. *)
Definition isSegment (e : string) : bool :=
  negb (GoStr.hasByte GoStr.slash e)
  && negb (String.eqb e "" || String.eqb e "." || String.eqb e "..").

(** The root passed to [NewMutexExt] is absolute, or else the working
    directory is. *)
Definition anchored (root : string) (w : World) : Prop :=
  GoStr.IsAbs root = true \/ exists d, cwd w = Some d /\ GoStr.IsAbs d = true.

(** The root [NewMutexExt] goes on with after line 134. *)
Definition absoluteRoot (root : string) (w : World) : option string :=
  if GoStr.IsAbs root then Some root
  else match cwd w with
       | Some wd => Some (GoStr.Join [wd; root])
       | None => None
       end.

End Spec.

(* ===================================================================== *)
(** ** Sample engines and worlds *)
(* ===================================================================== *)

Module Samples.
Import Sys Mutex.

(** The engine [NewMutex("/tmp", "lock")] builds. *)
Definition sampleMutex : Mutex :=
  mkMutex "lock" "/tmp/lock" DefaultDeadTimeout DefaultPulse DefaultRefresh.

(** An engine that never reclaims. *)
Definition patientMutex : Mutex :=
  mkMutex "lock" "/tmp/lock" (-1) DefaultPulse DefaultRefresh.

(** An engine whose threshold is 0. *)
Definition eagerMutex : Mutex :=
  mkMutex "lock" "/tmp/lock" 0 DefaultPulse DefaultRefresh.

(** An engine whose pulse (10 s) is longer than its refresh (1 s). *)
Definition slowMutex : Mutex :=
  mkMutex "lock" "/tmp/lock" DefaultDeadTimeout (10 * Second) (1 * Second).

(** The lock path of these engines. *)
Definition targetPath : string := "/tmp/lock/lock-mutex.lck".

(** The clock at 2023-11-14 22:13:20 UTC, the lock directory in place,
    no file, no fault. *)
Definition sampleWorld : World :=
  mkWorld (1700000000 * Second) (Some "/home/user")
          {["/"; "/tmp"; "/tmp/lock"]} ∅ ∅ 7 [] [].

(** The same with the clock at the Unix epoch. *)
Definition epochWorld : World :=
  mkWorld 0 (Some "/home/user") {["/"; "/tmp"; "/tmp/lock"]} ∅ ∅ 7 [] [].

(** The sample world with the lock file in place, holding the text
    [b], and the oracle [o]. *)
Definition heldWorld (b : string) (o : list bool) : World :=
  mkWorld (clock sampleWorld) (cwd sampleWorld) (dirs sampleWorld)
          {[targetPath := 1%nat]} {[1%nat := b]} 7 o [].

(** A lock file stamped one second after the epoch: long dead. *)
Definition staleWorld (o : list bool) : World := heldWorld "1000" o.

(** A world with the root directory only, and the oracle [o]. *)
Definition bareWorld (o : list bool) : World :=
  mkWorld (clock sampleWorld) (cwd sampleWorld) {["/"]} ∅ ∅ 7 o [].

(** The sample world with a regular file where the lock directory
    should be. *)
Definition obstructedWorld : World :=
  mkWorld (clock sampleWorld) (cwd sampleWorld) {["/"; "/tmp"]}
          {["/tmp/lock" := 1%nat]} {[1%nat := ""]} 7 [] [].

End Samples.

(* ===================================================================== *)
(** ** The command line ([main.go]) *)
(* ===================================================================== *)

Module Cli.
Import Sys Mutex.
Local Open Scope sys_scope.

(** *** path.Base and strings.LastIndex *)

(** The bytes of [r] after its leading slashes. *)
Fixpoint dropSlashes (r : string) : string :=
  match r with
  | String c t => if Ascii.eqb c GoStr.slash then dropSlashes t else r
  | EmptyString => r
  end.

(** [path.Base(path)]: the last element of the path, after the
    trailing slashes are removed; [.] for the empty path and [/] for a
    path of slashes only. *)
Definition Base (path : string) : string :=
  match path with
  | EmptyString => "."
  | String _ _ =>
      let path := GoStr.rev (dropSlashes (GoStr.rev path)) in
      let path := List.last (GoStr.split path) EmptyString in
      if GoStr.nonEmpty path then path else "/"
  end.

(** The text before and after the last byte [b] of [s], if there is
    one: [s[0:i]] and [s[i+1:]] for [i = strings.LastIndex(s, b)]. *)
Fixpoint cutLast (b : ascii) (s : string) : option (string * string) :=
  match s with
  | EmptyString => None
  | String c t =>
      match cutLast b t with
      | Some (p, q) => Some (String c p, q)
      | None => if Ascii.eqb c b then Some (EmptyString, t) else None
      end
  end.

(** *** The flags *)

(** The variables [cmn] and [lck], as the flags leave them. *)
Record Flags : Type := mkFlags {
  cmn_Root : string;
  cmn_Id : string;
  cmn_Silent : bool;
  lck_Pulse : Z;
  lck_Refresh : Z;
  lck_Limit : Z;
  lck_Timeout : Z
}.

(** What is handed to the logger: the format and its arguments. *)
Inductive message : Type :=
| MsgUnlocked (id lockPath : string)
| MsgLocked (id lockPath : string) (tm : Time)
| MsgCannotCreate (id : string) (err : error)
| MsgCannotLock (id : string) (err : error)
| MsgCannotUnlock (id : string) (err : error).

(** A call returns, or ends the process through [log.Fatalf], which
    logs the message and exits with status 1. *)
Inductive proc (A : Type) : Type :=
| Done (a : A)
| Fatal (msg : message).
Arguments Done {A} a.
Arguments Fatal {A} msg.

(** *** The functions *)

Definition isEmptyStr (str : string) : bool :=
  String.eqb (GoStr.TrimSpace str) "".

Definition ifEmptyStr (str defaultStr : string) : string :=
  if isEmptyStr str then defaultStr else str.

(** [None] is the panic of [args[0]] on an empty slice. *)
Definition getProg (args : list string) : option string :=
  match args with
  | [] => None
  | arg0 :: _ =>
      let base := Base arg0 in
      match cutLast "." base with
      | None => Some base
      | Some (prog, _) => Some prog
      end
  end.

Definition newMutex (flags : Flags) : M (proc Mutex) :=
  do r <- NewMutexExt (cmn_Root flags) (cmn_Id flags) (lck_Pulse flags)
                      (lck_Refresh flags) (lck_Limit flags);
  match r with
  | Err err => ret (Fatal (MsgCannotCreate (cmn_Id flags) err))
  | Ok result => ret (Done result)
  end.

(** [doTest], with the line it logs and the exit status it returns. *)
Definition doTest (flags : Flags) : M (proc (message * Z)) :=
  do pm <- newMutex flags;
  match pm with
  | Fatal msg => ret (Fatal msg)
  | Done m =>
      let lockPath := LockPath m in
      do tm <- When m;
      if IsZero tm then ret (Done (MsgUnlocked (Id m) lockPath, 1))
      else ret (Done (MsgLocked (Id m) lockPath tm, 0))
  end.

(** [doLock]; [None] while [TryLock] is still polling. *)
Definition doLock (fuel : nat) (flags : Flags) : M (option (proc unit)) :=
  do pm <- newMutex flags;
  match pm with
  | Fatal msg => ret (Some (Fatal msg))
  | Done m =>
      do r <- TryLock fuel m (lck_Timeout flags);
      match r with
      | None => ret None
      | Some (Some err) => ret (Some (Fatal (MsgCannotLock (Id m) err)))
      | Some None => ret (Some (Done tt))
      end
  end.


End Cli.

(* ===================================================================== *)
(** ** Notions used to state the properties of the command line *)
(* ===================================================================== *)

Module CliSpec.
Import Sys Mutex Spec GoStr Cli.




(** The flags of [fmutex -root /tmp -id lock]. *)
Definition sampleFlags : Flags :=
  mkFlags "/tmp" "lock" false DefaultPulse DefaultRefresh DefaultDeadTimeout 0.

End CliSpec.
(* ===================================================================== *)
(** ** Facts about int64 arithmetic *)
(* ===================================================================== *)

Module Int64Facts.
Import Int64.

Lemma wrap_in_range x : in_range (wrap x).
Proof.
  unfold in_range, wrap, min_int, max_int, half, modulus.
  pose proof (Z.mod_pos_bound (x + 2 ^ 63) (2 ^ 64) ltac:(lia)). lia.
Qed.

Lemma wrap_small x : in_range x -> wrap x = x.
Proof.
  unfold in_range, wrap, min_int, max_int, half, modulus. intros H.
  rewrite Z.mod_small; lia.
Qed.

End Int64Facts.

(* ===================================================================== *)
(** ** Facts about the string functions *)
(* ===================================================================== *)

Module GoStrFacts.
Import GoStr.

Lemma app_cons c s t : String c s +:+ t = String c (s +:+ t).
Proof. reflexivity. Qed.

Lemma app_nil_l t : "" +:+ t = t.
Proof. reflexivity. Qed.

Lemma app_nil_r s : s +:+ "" = s.
Proof. induction s as [|c s IH]; [reflexivity|]. now rewrite app_cons, IH. Qed.

Lemma app_assoc s t u : (s +:+ t) +:+ u = s +:+ (t +:+ u).
Proof. induction s as [|c s IH]; [reflexivity|]. now rewrite !app_cons, IH. Qed.

Lemma rev_append s t : rev (s +:+ t) = rev t +:+ rev s.
Proof.
  induction s as [|c s IH].
  - now rewrite app_nil_l, app_nil_r.
  - rewrite app_cons. simpl. now rewrite IH, app_assoc.
Qed.

Lemma rev_involutive s : rev (rev s) = s.
Proof.
  induction s as [|c s IH]; simpl; [reflexivity|].
  now rewrite rev_append, IH.
Qed.

Lemma lastByte_append s t : nonEmpty t = true -> lastByte (s +:+ t) = lastByte t.
Proof.
  intros Ht. induction s as [|c s IH]; [reflexivity|].
  rewrite app_cons. simpl. rewrite IH. destruct t; [discriminate|]. simpl.
  destruct (lastByte t); reflexivity.
Qed.

Lemma plain_isSpace2_l a b : plain a = true -> isSpace2 a b = false.
Proof.
  unfold plain, isSpace2. intros [_ H]%andb_prop. apply N.ltb_lt in H.
  destruct (N.eqb_spec (byte a) 194); [lia | reflexivity].
Qed.

Lemma plain_isSpace2_r a b : plain b = true -> isSpace2 a b = false.
Proof.
  unfold plain, isSpace2. intros [_ H]%andb_prop. apply N.ltb_lt in H.
  destruct (N.eqb_spec (byte b) 133); [lia|].
  destruct (N.eqb_spec (byte b) 160); [lia|]. apply andb_false_r.
Qed.

Lemma plain_isSpace3_l a b c : plain a = true -> isSpace3 a b c = false.
Proof.
  unfold plain, isSpace3. intros [_ H]%andb_prop. apply N.ltb_lt in H.
  destruct (N.eqb_spec (byte a) 225); [lia|].
  destruct (N.eqb_spec (byte a) 226); [lia|].
  destruct (N.eqb_spec (byte a) 227); [lia|]. reflexivity.
Qed.

Lemma plain_isSpace3_r a b c : plain c = true -> isSpace3 a b c = false.
Proof.
  unfold plain, isSpace3. intros [_ H]%andb_prop. apply N.ltb_lt in H.
  destruct (N.eqb_spec (byte c) 128); [lia|].
  destruct (N.eqb_spec (byte c) 159); [lia|].
  destruct (N.eqb_spec (byte c) 168); [lia|].
  destruct (N.eqb_spec (byte c) 169); [lia|].
  destruct (N.eqb_spec (byte c) 175); [lia|].
  destruct (N.leb_spec 128 (byte c)); [lia|].
  rewrite !andb_false_r. reflexivity.
Qed.

Lemma trimLeft_plain a t : plain a = true -> trimLeft (String a t) = String a t.
Proof.
  intros H. simpl.
  assert (isSpace1 a = false) as ->
      by (unfold plain in H; apply andb_prop in H as [H _]; now apply negb_true_iff).
  destruct t as [|b t]; [reflexivity|].
  rewrite plain_isSpace2_l by assumption.
  destruct t as [|c t]; [reflexivity|].
  now rewrite plain_isSpace3_l.
Qed.

Lemma trimRightRev_plain c t : plain c = true -> trimRightRev (String c t) = String c t.
Proof.
  intros H. simpl.
  assert (isSpace1 c = false) as ->
      by (unfold plain in H; apply andb_prop in H as [H _]; now apply negb_true_iff).
  destruct t as [|b t]; [reflexivity|].
  rewrite plain_isSpace2_r by assumption.
  destruct t as [|a t]; [reflexivity|].
  now rewrite plain_isSpace3_r.
Qed.

Lemma firstByte_rev s : firstByte (rev s) = lastByte s.
Proof.
  induction s as [|c s IH]; simpl; [reflexivity|].
  rewrite <- IH. destruct (rev s); reflexivity.
Qed.

(** A text that begins and ends with a plain byte is not trimmed; a
    newline after it is. *)
Lemma TrimSpace_plain_nl s a z :
  firstByte s = Some a -> plain a = true ->
  lastByte s = Some z -> plain z = true ->
  TrimSpace (s +:+ String "010" EmptyString) = s.
Proof.
  intros Ha Pa Hz Pz. unfold TrimSpace.
  destruct s as [|a' t]; [discriminate|]. injection Ha as ->.
  rewrite app_cons, trimLeft_plain by assumption.
  rewrite <- app_cons, rev_append.
  change (rev (String "010" "")) with (String "010" "").
  rewrite app_cons, app_nil_l.
  change (trimRightRev (String "010" (rev (String a t))))
    with (trimRightRev (rev (String a t))).
  pose proof (firstByte_rev (String a t)) as F. rewrite Hz in F.
  destruct (rev (String a t)) as [|c r] eqn:E; [discriminate|].
  injection F as ->. rewrite trimRightRev_plain by assumption.
  rewrite <- E. apply rev_involutive.
Qed.

Lemma TrimSpace_plain s a z :
  firstByte s = Some a -> plain a = true ->
  lastByte s = Some z -> plain z = true ->
  TrimSpace s = s.
Proof.
  intros Ha Pa Hz Pz. unfold TrimSpace.
  destruct s as [|a' t]; [discriminate|]. injection Ha as ->.
  rewrite trimLeft_plain by assumption.
  pose proof (firstByte_rev (String a t)) as F. rewrite Hz in F.
  destruct (rev (String a t)) as [|c r] eqn:E; [discriminate|].
  injection F as ->. rewrite trimRightRev_plain by assumption.
  rewrite <- E. apply rev_involutive.
Qed.


(** *** Decimal digits *)

Lemma byte_digit d : (d < 10)%N -> byte (digit d) = (48 + d)%N.
Proof.
  intros H. unfold byte, digit. apply N_ascii_embedding. lia.
Qed.

Lemma isDigit_digit d : (d < 10)%N -> isDigit (digit d) = true.
Proof.
  intros H. unfold isDigit. rewrite byte_digit by assumption.
  apply andb_true_intro; split; [apply N.leb_le | apply N.leb_le]; lia.
Qed.

Lemma isDigit_plain c : isDigit c = true -> plain c = true.
Proof.
  unfold isDigit, plain, isSpace1. intros [H1 H2]%andb_prop.
  apply N.leb_le in H1. apply N.leb_le in H2.
  destruct (N.leb_spec 9 (byte c)), (N.leb_spec (byte c) 13),
    (N.eqb_spec (byte c) 32), (N.ltb_spec (byte c) 128); simpl; try reflexivity; lia.
Qed.

Lemma isDigit_not_sign c :
  isDigit c = true -> Ascii.eqb c "+" = false /\ Ascii.eqb c "-" = false.
Proof.
  unfold isDigit. intros [H1 H2]%andb_prop.
  apply N.leb_le in H1. apply N.leb_le in H2.
  split; apply Ascii.eqb_neq; intros ->; vm_compute in H1; congruence.
Qed.

Lemma allDigits_append s t :
  allDigits (s +:+ t) = allDigits s && allDigits t.
Proof.
  induction s as [|c s IH]; [reflexivity|].
  rewrite app_cons. simpl. now rewrite IH, andb_assoc.
Qed.

Lemma allDigits_firstByte s :
  allDigits s = true -> nonEmpty s = true ->
  exists a, firstByte s = Some a /\ isDigit a = true.
Proof.
  destruct s as [|c t]; [discriminate|]. simpl.
  intros [H _]%andb_prop _. eauto.
Qed.

Lemma allDigits_lastByte s :
  allDigits s = true -> nonEmpty s = true ->
  exists z, lastByte s = Some z /\ isDigit z = true.
Proof.
  induction s as [|c t IH]; [discriminate|]. simpl.
  intros [Hc Ht]%andb_prop _. destruct t as [|d t'].
  - simpl. eauto.
  - destruct (IH Ht eq_refl) as (z & -> & Hz). eauto.
Qed.

(** What [formatBits] writes in front of [acc] is the decimal numeral
    of [u]: [parseDigits] reads it back. *)
Lemma formatBits_spec fuel : forall u acc,
  (u < 2 ^ N.of_nat (S fuel))%N ->
  exists s k,
    formatBits (S fuel) u acc = s +:+ acc
    /\ nonEmpty s = true /\ allDigits s = true
    /\ forall a rest,
        parseDigits (s +:+ rest) a = parseDigits rest (a * k + u)%N.
Proof.
  induction fuel as [|fuel IH]; intros u acc Hu.
  - assert (u < 10)%N as Hlt by (change (2 ^ N.of_nat 1)%N with 2%N in Hu; lia).
    exists (String (digit u) ""), 10%N. simpl.
    apply N.ltb_lt in Hlt as Hb. rewrite Hb.
    repeat split.
    + now rewrite isDigit_digit.
    + intros a rest. rewrite ?app_cons, ?app_nil_l. simpl. rewrite ?app_nil_l.
      rewrite isDigit_digit, byte_digit by assumption. f_equal. lia.
  - change (formatBits (S (S fuel)) u acc)
      with (if (u <? 10)%N then String (digit u) acc
            else formatBits (S fuel) (u / 10)%N (String (digit (u mod 10)%N) acc)).
    destruct (N.ltb_spec u 10) as [Hlt|Hge].
    + exists (String (digit u) ""), 10%N. repeat split.
      * simpl. now rewrite isDigit_digit.
      * intros a rest. rewrite ?app_cons, ?app_nil_l. simpl. rewrite ?app_nil_l.
        rewrite isDigit_digit, byte_digit by assumption. f_equal. lia.
    + assert (u / 10 < 2 ^ N.of_nat (S fuel))%N as Hq.
      { apply N.Div0.div_lt_upper_bound.
        replace (N.of_nat (S (S fuel))) with (N.succ (N.of_nat (S fuel))) in Hu by lia.
        rewrite N.pow_succ_r' in Hu. lia. }
      destruct (IH (u / 10)%N (String (digit (u mod 10)%N) acc) Hq)
        as (s & k & E & Hne & Hd & Hp).
      assert (u mod 10 < 10)%N as Hm by (apply N.mod_lt; lia).
      exists (s +:+ String (digit (u mod 10)%N) ""), (k * 10)%N. repeat split.
      * rewrite E. now rewrite app_assoc, app_cons, app_nil_l.
      * destruct s; [discriminate | reflexivity].
      * rewrite allDigits_append, Hd. simpl. now rewrite isDigit_digit.
      * intros a rest. rewrite app_assoc, app_cons, app_nil_l, Hp. simpl. rewrite ?app_nil_l.
        rewrite isDigit_digit, byte_digit by assumption. f_equal.
        pose proof (N.div_mod u 10 ltac:(lia)) as H.
        rewrite (N.add_comm 48), N.add_sub.
        rewrite H at 3. ring.
Qed.

Lemma FormatUint_spec u :
  exists s,
    FormatUint u = s /\ nonEmpty s = true /\ allDigits s = true
    /\ parseDigits s 0%N = Some u.
Proof.
  unfold FormatUint.
  assert (u < 2 ^ N.of_nat (S (N.to_nat (N.log2 u))))%N as Hu.
  { replace (N.of_nat (S (N.to_nat (N.log2 u)))) with (N.succ (N.log2 u)) by lia.
    destruct (N.eq_dec u 0%N) as [->|Hne]; [reflexivity|].
    apply N.log2_spec. lia. }
  destruct (formatBits_spec _ u "" Hu) as (s & k & E & Hne & Hd & Hp).
  exists s. rewrite E, app_nil_r. repeat split; try assumption.
  specialize (Hp 0%N ""). rewrite app_nil_r in Hp. rewrite Hp. simpl. f_equal.
Qed.

Lemma ParseUint_FormatUint u : ParseUint (FormatUint u) = Some u.
Proof.
  destruct (FormatUint_spec u) as (s & -> & Hne & _ & Hp).
  destruct s; [discriminate | exact Hp].
Qed.

(** Every [int64] printed by [%d] is read back by [ParseInt]. *)
Lemma ParseInt_FormatInt z :
  Int64.in_range z -> ParseInt (FormatInt z) = Some z.
Proof.
  unfold Int64.in_range, Int64.min_int, Int64.max_int, Int64.half. intros Hz.
  unfold FormatInt. destruct (Z.ltb_spec z 0) as [Hneg|Hpos].
  - unfold ParseInt.
    change (Ascii.eqb "-" "-") with true. change (Ascii.eqb "-" "+") with false.
    cbv beta iota zeta. simpl orb. cbv iota.
    rewrite ParseUint_FormatUint.
    destruct (N.leb_spec (Z.to_N (- z)) (2 ^ 63)) as [_|H]; [f_equal; lia|].
    exfalso. change (2 ^ 63)%N with (Z.to_N (2 ^ 63)) in H. lia.
  - pose proof (ParseUint_FormatUint (Z.to_N z)) as P.
    destruct (FormatUint_spec (Z.to_N z)) as (s & E & Hne & Hd & _).
    rewrite E in *. clear E.
    destruct (allDigits_firstByte s Hd Hne) as (a & Ha & Da).
    destruct s as [|c t]; [discriminate|]. injection Ha as ->.
    destruct (isDigit_not_sign _ Da) as [E1 E2].
    unfold ParseInt. rewrite E1, E2. cbv beta iota zeta. simpl orb. cbv iota.
    rewrite P.
    destruct (N.ltb_spec (Z.to_N z) (2 ^ 63)) as [_|H]; [f_equal; lia|].
    exfalso. change (2 ^ 63)%N with (Z.to_N (2 ^ 63)) in H. lia.
Qed.

Lemma FormatInt_ends z :
  exists a b,
    firstByte (FormatInt z) = Some a /\ plain a = true
    /\ lastByte (FormatInt z) = Some b /\ plain b = true.
Proof.
  unfold FormatInt. destruct (z <? 0).
  - destruct (FormatUint_spec (Z.to_N (- z))) as (s & -> & Hne & Hd & _).
    destruct (allDigits_lastByte s Hd Hne) as (b & Hb & Db).
    exists "-"%char, b. simpl. rewrite Hb.
    split; [reflexivity|]. split; [reflexivity|].
    split; [reflexivity | now apply isDigit_plain].
  - destruct (FormatUint_spec (Z.to_N z)) as (s & -> & Hne & Hd & _).
    destruct (allDigits_firstByte s Hd Hne) as (a & Ha & Da).
    destruct (allDigits_lastByte s Hd Hne) as (b & Hb & Db).
    exists a, b. split; [assumption|]. split; [now apply isDigit_plain|].
    split; [assumption | now apply isDigit_plain].
Qed.

(** The line [writeCurrentTimestamp] writes is read back by
    [readTimestamp] as the number written. *)
Lemma ParseInt_TrimSpace_Sprintf z :
  Int64.in_range z -> ParseInt (TrimSpace (Sprintf_d_nl z)) = Some z.
Proof.
  intros Hz. unfold Sprintf_d_nl.
  destruct (FormatInt_ends z) as (a & b & Ha & Pa & Hb & Pb).
  rewrite (TrimSpace_plain_nl _ a b) by assumption.
  now apply ParseInt_FormatInt.
Qed.


(** *** The last byte of a cleaned path *)

Lemma lastByte_nonEmpty s c : lastByte s = Some c -> nonEmpty s = true.
Proof. destruct s; [discriminate | reflexivity]. Qed.

Lemma split_noslash t : hasByte slash t = false -> split t = [t].
Proof.
  induction t as [|c t IH]; [reflexivity|]. simpl.
  intros [Hc Ht]%orb_false_elim. rewrite Hc, (IH Ht). reflexivity.
Qed.

(** Text without a slash appended to a path extends its last element. *)
Lemma split_append y t :
  hasByte slash t = false ->
  exists init l, split y = (init ++ [l])%list
                 /\ split (y +:+ t) = (init ++ [l +:+ t])%list.
Proof.
  intros Ht. induction y as [|c y (init & l & E1 & E2)].
  - exists [], "". rewrite app_nil_l. split; [reflexivity|]. now apply split_noslash.
  - rewrite app_cons. simpl. rewrite E1, E2.
    destruct (Ascii.eqb c slash).
    + exists ("" :: init), l. split; reflexivity.
    + destruct init as [|h r]; simpl.
      * exists [], (String c l). split; reflexivity.
      * exists (String c h :: r), l. split; reflexivity.
Qed.

Lemma joinSlash_lastByte l e :
  nonEmpty e = true -> lastByte (joinSlash (l ++ [e])%list) = lastByte e.
Proof.
  intros He. induction l as [|h r IH]; [reflexivity|].
  change (joinSlash ((h :: r) ++ [e])%list)
    with (joinSlash (h :: (r ++ [e])%list)).
  destruct (r ++ [e])%list as [|x xs] eqn:E.
  - destruct r; discriminate.
  - change (joinSlash (h :: x :: xs)) with (h +:+ String slash (joinSlash (x :: xs))).
    rewrite lastByte_append by reflexivity.
    cbn [lastByte]. rewrite IH. destruct e as [|a e]; [discriminate|].
    cbn [lastByte]. destruct (lastByte e); reflexivity.
Qed.

(** An element that does not end in a dot is kept by [Clean]. *)
Lemma cleanStep_keeps rooted kept e c :
  lastByte e = Some c -> c <> "."%char ->
  cleanStep rooted kept e = e :: kept.
Proof.
  intros He Hc. unfold cleanStep.
  destruct (String.eqb_spec e "") as [->|_]; [discriminate|].
  destruct (String.eqb_spec e ".") as [->|_]; [simpl in He; congruence|].
  destruct (String.eqb_spec e "..") as [->|_]; [simpl in He; congruence|].
  reflexivity.
Qed.

Lemma Clean_lastByte y t c :
  hasByte slash t = false -> lastByte t = Some c -> c <> "."%char ->
  lastByte (Clean (y +:+ t)) = Some c.
Proof.
  intros Ht Hl Hc.
  destruct (split_append y t Ht) as (init & l & _ & E).
  assert (lastByte (l +:+ t) = Some c) as He
      by (rewrite lastByte_append; eauto using lastByte_nonEmpty).
  assert (nonEmpty (y +:+ t) = true) as Hne.
  { apply (lastByte_nonEmpty _ c). rewrite lastByte_append; eauto using lastByte_nonEmpty. }
  unfold Clean. destruct (y +:+ t) as [|a p] eqn:Ep; [discriminate|].
  generalize (isRooted (String a p)). intros rooted.
  rewrite E, fold_left_app. cbn [fold_left].
  rewrite (cleanStep_keeps _ _ _ c) by assumption.
  cbn [List.rev].
  assert (lastByte (joinSlash (List.rev (fold_left (cleanStep rooted) init []) ++ [l +:+ t])%list) = Some c) as Hb.
  { rewrite joinSlash_lastByte; eauto using lastByte_nonEmpty. }
  destruct rooted.
  - cbn [lastByte]. now rewrite Hb.
  - rewrite (lastByte_nonEmpty _ _ Hb). exact Hb.
Qed.

Lemma joinBuf_two a b :
  nonEmpty b = true ->
  exists y, joinBuf "" [a; b] = y +:+ b.
Proof.
  intros Hb. simpl. destruct a as [|c a].
  - simpl. rewrite Hb. exists "". reflexivity.
  - simpl. exists (String c a +:+ String slash ""). rewrite !app_nil_l.
    now rewrite app_assoc.
Qed.

Lemma Join_two_lastByte a x t c :
  hasByte slash t = false -> lastByte t = Some c -> c <> "."%char ->
  lastByte (Join [a; x +:+ t]) = Some c.
Proof.
  intros Ht Hl Hc.
  assert (nonEmpty (x +:+ t) = true) as Hne.
  { apply (lastByte_nonEmpty _ c). rewrite lastByte_append; eauto using lastByte_nonEmpty. }
  unfold Join. simpl forallb. rewrite Hne. simpl. rewrite andb_false_r.
  destruct (joinBuf_two a _ Hne) as (y & E).
  simpl in E. rewrite E, <- app_assoc. now apply Clean_lastByte.
Qed.

End GoStrFacts.

(* ===================================================================== *)
(** ** The library model on sample inputs *)
(* ===================================================================== *)

Module GoStrTests.
Import GoStr.
Example clean1 : Clean "/tmp//a/./b/../c/" = "/tmp/a/c". Proof. reflexivity. Qed.
Example clean2 : Clean "../../a/../../b" = "../../../b". Proof. reflexivity. Qed.
Example clean3 : Clean "/../a" = "/a". Proof. reflexivity. Qed.
Example clean4 : Clean "a/.." = ".". Proof. reflexivity. Qed.
Example join1 : Join ["/tmp"; "Lock"] = "/tmp/Lock". Proof. reflexivity. Qed.
Example join2 : Join [""; ""] = "". Proof. reflexivity. Qed.
Example join3 : Join [""; "a"] = "a". Proof. reflexivity. Qed.
Example fmt1 : Sprintf_d_nl 1700000000123 = String.append "1700000000123" (String "010" ""). Proof. reflexivity. Qed.
Example fmt2 : FormatInt (-9223372036854775808) = "-9223372036854775808". Proof. reflexivity. Qed.
Example fmt3 : FormatInt 0 = "0". Proof. reflexivity. Qed.
Example prs1 : ParseInt "-9223372036854775808" = Some (-9223372036854775808). Proof. reflexivity. Qed.
Example prs2 : ParseInt "9223372036854775808" = None. Proof. reflexivity. Qed.
Example prs3 : ParseInt "+12" = Some 12. Proof. reflexivity. Qed.
Example prs4 : ParseInt "-" = None. Proof. reflexivity. Qed.
Example prs5 : ParseInt "1_0" = None. Proof. reflexivity. Qed.
Example trm1 : TrimSpace (String "009" (String.append " 12 " (String "010" ""))) = "12". Proof. reflexivity. Qed.
Example low1 : ToLower "Lock-A[Z@" = "lock-a[z@". Proof. reflexivity. Qed.
End GoStrTests.

(* ===================================================================== *)
(** ** Facts about the system calls *)
(* ===================================================================== *)

Module SysFacts.
Import Sys Mutex Spec GoStr GoStrFacts.
Local Open Scope sys_scope.

(** Unfolding of the monad and of the accessors of the world. *)
Ltac unfold_m :=
  unfold bind, ret, get, emit, fault, setClock, setDirs, setFiles, setInodes,
    setSeed in *.

(** [Create] binds the name to the inode it returns and empties it. *)
Lemma Create_ok name w f w1 :
  Create name w = (Ok f, w1) ->
  files w1 !! name = Some f /\ inodes w1 !! f = Some ""
  /\ clock w1 = clock w /\ oracle w1 = tl (oracle w).
Proof.
  unfold Create. unfold_m. simpl.
  destruct (oracle w) as [|[] o]; simpl;
    destruct (files w !! name) as [i|] eqn:E; simpl;
    intros [= <- <-]; simpl;
    rewrite ?lookup_insert_eq; auto.
Qed.

Lemma now_eq w : now w = (nano2Millis (Int64.wrap (clock w)), w).
Proof. reflexivity. Qed.

(** A successful [writeCurrentTimestamp] appends the line of the
    current millisecond to the open file. *)
Lemma writeCurrentTimestamp_ok f w ts w1 :
  writeCurrentTimestamp f w = ((ts, None), w1) ->
  ts = nano2Millis (Int64.wrap (clock w))
  /\ inodes w1 !! f = Some (default "" (inodes w !! f) +:+ Sprintf_d_nl ts)
  /\ files w1 = files w /\ clock w1 = clock w /\ oracle w1 = tl (oracle w).
Proof.
  unfold writeCurrentTimestamp, Write, now, UnixNano. unfold_m. simpl.
  destruct (oracle w) as [|[] o]; simpl; intros [= <- <-]; simpl;
    rewrite ?lookup_insert_eq; auto.
Qed.

(** [readTimestamp] in a world whose next oracle answer is no fault. *)
Lemma readTimestamp_eq name w :
  hd false (oracle w) = false ->
  fst (readTimestamp name w) =
    match contents w name with
    | Some b => default 0 (ParseInt (TrimSpace b))
    | None => 0
    end.
Proof.
  unfold readTimestamp, ReadFile. unfold_m. simpl.
  destruct (oracle w) as [|b o]; simpl; [intros _ | intros ->]; simpl;
    unfold contents; simpl;
    (destruct (files w !! name); simpl; [|reflexivity]);
    destruct (ParseInt _); reflexivity.
Qed.

Lemma readTimestamp_fault name w o :
  oracle w = true :: o -> fst (readTimestamp name w) = 0.
Proof.
  unfold readTimestamp, ReadFile. unfold_m. simpl. intros ->. reflexivity.
Qed.

Lemma nano2Millis_range x :
  Int64.in_range x -> Int64.in_range (nano2Millis x * Millisecond).
Proof.
  unfold Int64.in_range, Int64.min_int, Int64.max_int, Int64.half,
    nano2Millis, Int64.div, Millisecond, Nanosecond.
  intros H. pose proof (Z.quot_rem' x 1000000) as E.
  destruct (Z.le_gt_cases 0 x) as [Hx|Hx].
  - pose proof (Z.rem_bound_pos x 1000000 Hx ltac:(lia)). lia.
  - pose proof (Z.rem_bound_pos_neg x 1000000 ltac:(lia) ltac:(lia)). lia.
Qed.

Lemma nano2Millis_in_range x :
  Int64.in_range x -> Int64.in_range (nano2Millis x).
Proof.
  intros H. pose proof (nano2Millis_range x H) as R. revert R.
  unfold Int64.in_range, Int64.min_int, Int64.max_int, Int64.half,
    Millisecond, Nanosecond. lia.
Qed.

Lemma Link_ok a b w w' :
  Link a b w = (None, w') ->
  files w' = <[b := default 0%nat (files w !! a)]> (files w)
  /\ is_Some (files w !! a) /\ files w !! b = None.
Proof.
  unfold Link. unfold_m. cbn.
  destruct (oracle w) as [|[] o]; cbn; try discriminate;
    destruct (files w !! a) as [i|] eqn:Ea; cbn; try discriminate;
    destruct (files w !! b) as [j|] eqn:Eb; cbn; try discriminate;
    intros [= <-]; cbn; eauto.
Qed.

Lemma Create_files_target name w r w' :
  Create name w = (r, w') ->
  is_Some (files w !! name) -> files w' = files w.
Proof.
  unfold Create. unfold_m. intros H [i Hi]. revert H.
  destruct (oracle w) as [|[] o]; cbn; rewrite ?Hi; cbn;
    intros [= <- <-]; reflexivity.
Qed.

Lemma writeCurrentTimestamp_files f w r w' :
  writeCurrentTimestamp f w = (r, w') -> files w' = files w.
Proof.
  unfold writeCurrentTimestamp, Write, now, UnixNano. unfold_m. cbn.
  destruct (oracle w) as [|[] o]; cbn; intros [= <- <-]; reflexivity.
Qed.

Lemma Remove_spec name w r w' :
  Remove name w = (r, w') ->
  (r = None -> is_Some (files w !! name) /\ files w' = delete name (files w))
  /\ (r <> None -> files w' = files w)
  /\ (files w !! name = None -> r = Some ErrNotExist \/ r = Some ErrIO)
  /\ (hd false (oracle w) = false -> is_Some (files w !! name) -> r = None)
  /\ inodes w' = inodes w /\ clock w' = clock w.
Proof.
  unfold Remove. unfold_m. cbn.
  destruct (oracle w) as [|[] o]; cbn;
    destruct (files w !! name) as [i|] eqn:E; cbn;
    intros [= <- <-]; cbn; repeat split; intros; eauto; try congruence;
    try (match goal with H : is_Some None |- _ => destruct H; discriminate end).
Qed.

Lemma freshInode_not_used w p i : files w !! p = Some i -> freshInode w <> i.
Proof.
  intros H E. unfold freshInode in E.
  pose proof (is_fresh (dom (inodes w) ∪ map_img (files w) : gset nat)) as F.
  apply F. rewrite E. apply elem_of_union_r.
  eapply elem_of_map_img_2. exact H.
Qed.

Lemma sleepOrDone_background delay w :
  exists w1, sleepOrDone None delay w = (false, w1)
             /\ files w1 = files w /\ inodes w1 = inodes w
             /\ oracle w1 = oracle w /\ clock w1 = clock w + Z.max delay 0.
Proof.
  unfold sleepOrDone, selectDoneOrAfter. unfold_m. cbn.
  eexists. split; [reflexivity|]. repeat split.
Qed.

(** The pulse sleep is cut short by the context: when the deadline
    comes before the timer, [sleepOrDone] returns [true] at the
    deadline, or at once if the deadline has passed. *)
Lemma sleepOrDone_interrupted deadline delay w :
  deadline < clock w + Z.max delay 0 ->
  exists w1, sleepOrDone (Some deadline) delay w = (true, w1)
             /\ files w1 = files w /\ inodes w1 = inodes w
             /\ oracle w1 = oracle w
             /\ clock w1 = Z.max (clock w) deadline.
Proof.
  intros H. unfold sleepOrDone, selectDoneOrAfter. unfold_m. cbn.
  destruct (Z.ltb_spec deadline (clock w + Z.max delay 0)); [|lia]. cbn.
  eexists. split; [reflexivity|]. repeat split.
Qed.

Lemma sleepOrDone_elapsed deadline delay w :
  oracle w = [] -> clock w + Z.max delay 0 <= deadline ->
  exists w1, sleepOrDone (Some deadline) delay w = (false, w1)
             /\ files w1 = files w /\ inodes w1 = inodes w
             /\ oracle w1 = [] /\ clock w1 = clock w + Z.max delay 0.
Proof.
  intros Ho H. unfold sleepOrDone, selectDoneOrAfter. unfold_m. cbn.
  destruct (Z.ltb_spec deadline (clock w + Z.max delay 0)); [lia|]. cbn.
  destruct (Z.ltb_spec (clock w + Z.max delay 0) deadline); cbn.
  - eexists. split; [reflexivity|]. repeat split; cbn; auto.
  - rewrite Ho. cbn. eexists. split; [reflexivity|]. repeat split; cbn; auto.
Qed.

End SysFacts.

(* ===================================================================== *)
(** ** The names of the candidate file and of the lock file *)
(* ===================================================================== *)

Module NameFacts.
Import Sys Mutex Spec GoStr GoStrFacts SysFacts.
Local Open Scope sys_scope.

Lemma cutLastStar_append s t p q :
  cutLastStar t = Some (p, q) -> cutLastStar (s +:+ t) = Some (s +:+ p, q).
Proof.
  intros H. induction s as [|c s IH]; [exact H|].
  rewrite app_cons. simpl. rewrite IH. reflexivity.
Qed.

Lemma prefixAndSuffix_candidate lockId pre suf :
  prefixAndSuffix (Sprintf_s lockCandidateTemplate lockId) = Ok (pre, suf) ->
  pre = lockId +:+ "-candidate-" /\ suf = ".tmp".
Proof.
  unfold prefixAndSuffix, Sprintf_s, lockCandidateTemplate. cbn [fst snd].
  rewrite app_nil_l.
  destruct (hasByte slash _); [discriminate|].
  rewrite (cutLastStar_append lockId "-candidate-*.tmp" "-candidate-" ".tmp")
    by reflexivity.
  intros [= <- <-]. split; reflexivity.
Qed.

Lemma hasByte_append b s u :
  hasByte b (s +:+ u) = hasByte b s || hasByte b u.
Proof.
  induction s as [|a s IH]; [reflexivity|].
  rewrite app_cons. cbn [hasByte]. now rewrite IH, orb_assoc.
Qed.

Lemma prefixAndSuffix_candidate_ok lockId :
  hasByte slash lockId = false ->
  prefixAndSuffix (Sprintf_s lockCandidateTemplate lockId)
  = Ok (lockId +:+ "-candidate-", ".tmp").
Proof.
  intros H. unfold prefixAndSuffix, Sprintf_s, lockCandidateTemplate.
  cbn [fst snd]. rewrite app_nil_l, hasByte_append, H.
  change (hasByte slash "-candidate-*.tmp") with false. cbn [orb].
  now rewrite (cutLastStar_append lockId "-candidate-*.tmp" "-candidate-" ".tmp").
Qed.

Lemma tempAttempts_name more dir pre suf :
  forall w name w',
    tempAttempts more dir pre suf w = (Ok name, w') ->
    exists r, name = joinPath dir (pre +:+ r +:+ suf).
Proof.
  induction more as [|more IH]; intros w name w'; cbn [tempAttempts];
    unfold nextRandom; unfold_m; cbn;
    destruct (oracle w) as [|[] o]; cbn;
    try discriminate;
    destruct (negb (bool_decide (dir ∈ dirs w))); cbn; try discriminate;
    destruct (files w !! _); cbn; try discriminate;
    try (intros [= <- <-]; eauto; fail);
    apply IH.
Qed.

Lemma joinPath_lastByte dir name c :
  lastByte name = Some c -> lastByte (joinPath dir name) = Some c.
Proof.
  intros H. unfold joinPath.
  destruct (lastByte dir) as [d|]; [destruct (Ascii.eqb d slash)|];
    rewrite lastByte_append; cbn [lastByte nonEmpty]; try rewrite H;
    eauto using lastByte_nonEmpty.
Qed.

(** The candidate file's name ends in [p], the lock path in [k]. *)
Lemma TempFile_candidate_lastByte dir lockId w name w' :
  TempFile dir (Sprintf_s lockCandidateTemplate lockId) w = (Ok name, w') ->
  lastByte name = Some "p"%char.
Proof.
  unfold TempFile.
  destruct (prefixAndSuffix _) as [[pre suf]|e] eqn:E; [|discriminate].
  apply prefixAndSuffix_candidate in E as [-> ->].
  intros (r & ->)%tempAttempts_name.
  apply joinPath_lastByte. rewrite <- app_assoc.
  now rewrite lastByte_append.
Qed.

Lemma LockPath_lastByte m : lastByte (LockPath m) = Some "k"%char.
Proof.
  unfold LockPath, Sprintf_s, lockTemplate. cbn [fst snd]. rewrite app_nil_l.
  apply Join_two_lastByte; [reflexivity | reflexivity | discriminate].
Qed.

Lemma candidate_not_target m w name w' :
  TempFile (directory m) (Sprintf_s lockCandidateTemplate (id m)) w = (Ok name, w') ->
  name <> LockPath m.
Proof.
  intros H%TempFile_candidate_lastByte ->.
  rewrite LockPath_lastByte in H. discriminate.
Qed.

Lemma tempAttempts_first more dir pre suf w :
  oracle w = [] -> dir ∈ dirs w ->
  files w !! joinPath dir (pre +:+ FormatUint (seed w) +:+ suf) = None ->
  exists w1,
    tempAttempts more dir pre suf w
    = (Ok (joinPath dir (pre +:+ FormatUint (seed w) +:+ suf)), w1)
    /\ files w1 = <[joinPath dir (pre +:+ FormatUint (seed w) +:+ suf)
                    := freshInode w]> (files w)
    /\ oracle w1 = [] /\ clock w1 = clock w
    /\ forall k, k <> freshInode w -> inodes w1 !! k = inodes w !! k.
Proof.
  intros Ho Hd Hf.
  assert (bool_decide (dir ∈ dirs w) = true) as Hb by now apply bool_decide_eq_true.
  destruct more; cbn [tempAttempts]; unfold nextRandom; unfold_m;
    cbn -[joinPath FormatUint String.append];
    rewrite Ho; cbn -[joinPath FormatUint String.append];
    rewrite Hb; cbn -[joinPath FormatUint String.append];
    rewrite Hf; cbn -[joinPath FormatUint String.append];
    (eexists; split; [reflexivity|]; repeat split;
     cbn -[joinPath FormatUint String.append]; auto;
     intros k Hk; unfold freshInode; cbn -[joinPath FormatUint String.append];
     now rewrite lookup_insert_ne).
Qed.

End NameFacts.

(* ===================================================================== *)
(** ** Facts about the engine *)
(* ===================================================================== *)

Module EngineFacts.
Import Sys Mutex Spec GoStr GoStrFacts SysFacts NameFacts.
Local Open Scope sys_scope.

Lemma When_eq m w :
  fst (When m w) =
    let tm := fst (readTimestamp (LockPath m) w) in
    if negb (tm =? 0) then Unix 0 (Int64.mul tm Millisecond) else zeroTime.
Proof.
  unfold When, bind. destruct (readTimestamp (LockPath m) w) as [tm w1].
  cbn [fst]. destruct (negb (tm =? 0)); reflexivity.
Qed.

Lemma Unix_not_zeroTime x : Unix 0 (Int64.wrap x) <> zeroTime.
Proof.
  pose proof (Int64Facts.wrap_in_range x) as H. revert H.
  unfold Int64.in_range, Int64.min_int, Int64.max_int, Int64.half,
    Unix, zeroTime, Second, Millisecond, Nanosecond. lia.
Qed.

Lemma readTimestamp_stored name w :
  fst (readTimestamp name w) =
    if hd false (oracle w) then 0 else default 0 (storedTimestamp w name).
Proof.
  destruct (oracle w) as [|[] o] eqn:E; cbn [hd].
  - rewrite readTimestamp_eq by (rewrite E; reflexivity).
    unfold storedTimestamp. destruct (contents w name); reflexivity.
  - eapply readTimestamp_fault; eassumption.
  - rewrite readTimestamp_eq by (rewrite E; reflexivity).
    unfold storedTimestamp. destruct (contents w name); reflexivity.
Qed.

(** What [reclaimDead] does: it leaves files and clock alone, or else
    it has read a positive timestamp that is older than the threshold
    and then calls [os.Remove] and sleeps. *)
Lemma reclaimDead_cases m target w :
  let w' := snd (reclaimDead m target w) in
  (files w' = files w /\ inodes w' = inodes w /\ clock w' = clock w
   /\ (log w' = log w \/ log w' = EvReadFile target :: log w))
  \/ (0 <= deadAgeRecovery m /\ hd false (oracle w) = false
      /\ (exists ts, storedTimestamp w target = Some ts /\ 0 < ts /\ isDead m w ts)
      /\ log w' = EvSleep (Int64.mul (pulse m) 2) :: EvRemove target
                    :: EvReadFile target :: log w).
Proof.
  unfold reclaimDead, storedTimestamp, isDead, nowOf.
  destruct (Z.geb_spec (deadAgeRecovery m) 0) as [Hd|Hd];
    [|left; cbn; auto].
  unfold readTimestamp, ReadFile, contents, now, UnixNano, Remove, Sleep.
  unfold_m. cbn.
  destruct (oracle w) as [|[] o]; cbn; try (left; auto; fail).
  - destruct (files w !! target) as [i|] eqn:Ef; cbn; [|left; auto].
    destruct (ParseInt _) as [ts|]; cbn; [|left; auto].
    destruct (Z.gtb_spec ts 0) as [Hts|Hts]; cbn; [|left; auto].
    destruct (Z.gtb_spec (Int64.sub (nano2Millis (Int64.wrap (clock w))) ts)
                         (millis (deadAgeRecovery m))) as [Hs|Hs]; cbn;
      [|left; auto].
    right. rewrite Ef. cbn. repeat split; try lia; eauto.
  - destruct (files w !! target) as [i|] eqn:Ef; cbn; [|left; auto].
    destruct (ParseInt _) as [ts|]; cbn; [|left; auto].
    destruct (Z.gtb_spec ts 0) as [Hts|Hts]; cbn; [|left; auto].
    destruct (Z.gtb_spec (Int64.sub (nano2Millis (Int64.wrap (clock w))) ts)
                         (millis (deadAgeRecovery m))) as [Hs|Hs]; cbn;
      [|left; auto].
    right. destruct o as [|[] o']; cbn; rewrite ?Ef; cbn;
      repeat split; try lia; eauto.
Qed.

(** [publish] never returns an error: line 112 tests the [err] of
    [os.Link], which is [nil] on that path. *)
Lemma publish_returns_nil m candidate target last w r w' :
  publish m candidate target last w = (Some r, w') -> r = None.
Proof.
  unfold publish, bind.
  destruct (Link candidate target w) as [[e|] w1]; [unfold ret; discriminate|].
  destruct (now w1) as [t w2].
  destruct (Int64.sub t last >? millis (refresh m)).
  - destruct (Create target w2) as [[fd|e] w3].
    + destruct (writeCurrentTimestamp fd w3) as [? w4]. unfold ret. congruence.
    + unfold ret. congruence.
  - unfold ret. congruence.
Qed.

(** After a successful [publish] the target name exists. *)
Lemma publish_success m candidate target last w w' :
  publish m candidate target last w = (Some None, w') ->
  is_Some (files w' !! target).
Proof.
  unfold publish, bind.
  destruct (Link candidate target w) as [[e|] w1] eqn:EL; [unfold ret; discriminate|].
  apply Link_ok in EL as (Hf & _ & _).
  assert (is_Some (files w1 !! target)) as Ht
      by (rewrite Hf, lookup_insert_eq; eauto).
  rewrite now_eq.
  destruct (_ >? millis (refresh m)).
  - destruct (Create target w1) as [[fd|e] w3] eqn:EC;
      apply Create_files_target in EC; try assumption.
    + destruct (writeCurrentTimestamp fd w3) as [? w4] eqn:EW.
      apply writeCurrentTimestamp_files in EW.
      unfold ret. intros [= <-]. congruence.
    + unfold ret. intros [= <-]. congruence.
  - unfold ret. intros [= <-]. exact Ht.
Qed.

Lemma lockLoop_S fuel m ctx candidate target last :
  lockLoop (S fuel) m ctx candidate target last =
    (do r <- refreshIfDue m candidate target last;
     match r with
     | Err e => ret (Some (Some e))
     | Ok last' =>
         do p <- publish m candidate target last';
         match p with
         | Some res => ret (Some res)
         | None =>
             do stop <- sleepOrDone ctx (pulse m);
             if stop then ret (Some (Some expired))
             else lockLoop fuel m ctx candidate target last'
         end
     end).
Proof. reflexivity. Qed.

Lemma lockLoop_success fuel m ctx candidate target :
  forall last w w',
    lockLoop fuel m ctx candidate target last w = (Some None, w') ->
    is_Some (files w' !! target).
Proof.
  induction fuel as [|fuel IH]; intros last w w'; [discriminate|].
  rewrite lockLoop_S. unfold bind at 1.
  destruct (refreshIfDue m candidate target last w) as [[last'|e] w1];
    [|discriminate].
  unfold bind at 1.
  destruct (publish m candidate target last' w1) as [[res|] w2] eqn:EP.
  - unfold ret. intros [= -> <-]. eapply publish_success; eassumption.
  - unfold bind at 1. destruct (sleepOrDone ctx (pulse m) w2) as [[] w3].
    + discriminate.
    + apply IH.
Qed.

(** A successful acquire leaves the target lock file in place. *)
Lemma LockWithContext_success fuel m ctx w w' :
  LockWithContext fuel m ctx w = (Some None, w') ->
  is_Some (files w' !! LockPath m).
Proof.
  unfold LockWithContext. unfold bind at 1.
  destruct (TempFile _ _ w) as [[candidate|e] w1] eqn:ET; [|discriminate].
  apply candidate_not_target in ET.
  unfold bind at 1.
  destruct (lockLoop fuel m ctx candidate (LockPath m) 0 w1) as [[r|] w2] eqn:EL;
    [|discriminate].
  unfold bind. destruct (Remove candidate w2) as [e w3] eqn:ER.
  unfold ret. intros [= -> <-].
  apply lockLoop_success in EL.
  apply Remove_spec in ER as (Hok & Hko & _).
  destruct e as [e|].
  - rewrite Hko by discriminate. exact EL.
  - destruct (Hok eq_refl) as [_ ->]. now rewrite lookup_delete_ne.
Qed.

(** A failed write to the candidate file is returned by the refresh
    window, wrapped. *)
Lemma refreshWindow_surfaces_write_failure m c t last w fd w1 ts e w2 :
  Create c w = (Ok fd, w1) ->
  writeCurrentTimestamp fd w1 = ((ts, Some e), w2) ->
  refreshWindow m c t last w
  = (Err (ErrWrap ("cannot write current timestamp for candidate lock " +:+ id m) e),
     w2).
Proof.
  intros E1 E2. unfold refreshWindow, bind. rewrite E1, E2. reflexivity.
Qed.

(** Engines built from the same identifier, spelled the same way, do
    share the lock path, in whichever worlds they are constructed. *)
Lemma LockPath_same_spelling root lockId p1 r1 d1 p2 r2 d2 w1 w2 m1 m2 w1' w2' :
  IsAbs root = true ->
  NewMutexExt root lockId p1 r1 d1 w1 = (Ok m1, w1') ->
  NewMutexExt root lockId p2 r2 d2 w2 = (Ok m2, w2') ->
  LockPath m1 = LockPath m2.
Proof.
  unfold NewMutexExt, bind. intros ->. cbn [negb]. unfold ret.
  destruct (MkdirAll (Join [root; lockId]) w1) as [[e|] w1a]; [discriminate|].
  destruct (MkdirAll (Join [root; lockId]) w2) as [[e|] w2a]; [discriminate|].
  intros [= <- <-] [= <- <-]. reflexivity.
Qed.

(** The lock path of a constructed engine: the directory carries the
    identifier as passed, the file name the lowered one. *)
Lemma NewMutexExt_LockPath root lockId p r d w m w' :
  IsAbs root = true ->
  NewMutexExt root lockId p r d w = (Ok m, w') ->
  directory m = Join [root; lockId]
  /\ id m = ToLower lockId
  /\ LockPath m = Join [Join [root; lockId]; ToLower lockId +:+ "-mutex.lck"].
Proof.
  unfold NewMutexExt, bind. intros ->. cbn [negb]. unfold ret.
  destruct (MkdirAll (Join [root; lockId]) w) as [[e|] w1]; [discriminate|].
  intros [= <- <-]. repeat split.
Qed.

Lemma NewMutexExt_deadAge root lockId p r d w m w' :
  NewMutexExt root lockId p r d w = (Ok m, w') -> deadAgeRecovery m = d.
Proof.
  unfold NewMutexExt, bind.
  destruct ((if negb (IsAbs root) then Abs root else ret (Ok root)) w)
    as [[root'|e] w1]; [|discriminate].
  destruct (MkdirAll _ w1) as [[e|] w2]; [discriminate|].
  unfold ret. intros [= <- <-]. reflexivity.
Qed.

End EngineFacts.

(* ===================================================================== *)
(** ** The calls an acquire makes *)
(* ===================================================================== *)

Module LogFacts.
Import Sys Mutex Spec GoStr GoStrFacts SysFacts NameFacts EngineFacts.
Local Open Scope sys_scope.

Section LogFacts.
Context (P : event -> Prop).

Lemma logExtends_refl w : logExtends P w w.
Proof. exists []. split; [reflexivity | constructor]. Qed.

Lemma logExtends_trans w1 w2 w3 :
  logExtends P w1 w2 -> logExtends P w2 w3 -> logExtends P w1 w3.
Proof.
  intros (e1 & E1 & F1) (e2 & E2 & F2). exists (e2 ++ e1)%list. split.
  - now rewrite E2, E1, List.app_assoc.
  - apply List.Forall_app. split; assumption.
Qed.

Lemma logExtends_same w w' : log w' = log w -> logExtends P w w'.
Proof. intros E. exists []. split; [exact E | constructor]. Qed.

Lemma logs_ret {A} (a : A) : logs P (ret a).
Proof. intros w. apply logExtends_refl. Qed.

Lemma logs_bind {A B} (c : M A) (k : A -> M B) :
  logs P c -> (forall a, logs P (k a)) -> logs P (bind c k).
Proof.
  intros Hc Hk w. unfold bind. specialize (Hc w).
  destruct (c w) as [a w1]. eapply logExtends_trans; [exact Hc | apply Hk].
Qed.

Lemma logs_emit e : P e -> logs P (emit e).
Proof.
  intros He w. exists [e]. split; [reflexivity | repeat constructor; exact He].
Qed.

Lemma logs_get : logs P get.
Proof. intros w. apply logExtends_refl. Qed.

Lemma logs_fault : logs P fault.
Proof.
  intros w. apply logExtends_same. unfold fault.
  destruct (oracle w); reflexivity.
Qed.

Lemma logs_setClock t : logs P (setClock t).
Proof. intros w. now apply logExtends_same. Qed.

Lemma logs_setDirs d : logs P (setDirs d).
Proof. intros w. now apply logExtends_same. Qed.

Lemma logs_setFiles f : logs P (setFiles f).
Proof. intros w. now apply logExtends_same. Qed.

Lemma logs_setInodes i : logs P (setInodes i).
Proof. intros w. now apply logExtends_same. Qed.

Lemma logs_setSeed s : logs P (setSeed s).
Proof. intros w. now apply logExtends_same. Qed.

Lemma logs_now : logs P now.
Proof. intros w. apply logExtends_refl. Qed.

End LogFacts.

(** Goals [logs P c] for a [c] built from the calls above. *)
Ltac logs_step :=
  lazymatch goal with
  | |- logs _ (bind _ _) => apply logs_bind; [|intros]
  | |- logs _ (ret _) => apply logs_ret
  | |- logs _ (emit _) => apply logs_emit
  | |- logs _ get => apply logs_get
  | |- logs _ fault => apply logs_fault
  | |- logs _ now => apply logs_now
  | |- logs _ (setClock _) => apply logs_setClock
  | |- logs _ (setDirs _) => apply logs_setDirs
  | |- logs _ (setFiles _) => apply logs_setFiles
  | |- logs _ (setInodes _) => apply logs_setInodes
  | |- logs _ (setSeed _) => apply logs_setSeed
  | |- logs _ (if ?b then _ else _) => destruct b
  | |- logs _ (match ?x with _ => _ end) => destruct x
  end.

Ltac logs_auto := repeat logs_step; try exact I; auto.

Section Quiet.
Context (target : string).

Lemma logs_Create name : logs (quiet target) (Create name).
Proof. unfold Create. logs_auto. Qed.

Lemma logs_Write f data : logs (quiet target) (Write f data).
Proof. unfold Write. logs_auto. Qed.

Lemma logs_Link a b : logs (quiet target) (Link a b).
Proof. unfold Link. logs_auto. Qed.

Lemma logs_Remove name : name <> target -> logs (quiet target) (Remove name).
Proof. intros H. unfold Remove. logs_auto. Qed.

Lemma logs_writeCurrentTimestamp f : logs (quiet target) (writeCurrentTimestamp f).
Proof.
  unfold writeCurrentTimestamp.
  logs_step; [logs_auto|]. logs_step; [apply logs_Write|]. logs_auto.
Qed.

Lemma logs_sleepOrDone ctx delay : logs (quiet target) (sleepOrDone ctx delay).
Proof. unfold sleepOrDone, selectDoneOrAfter. logs_auto. Qed.

Lemma logs_tempAttempts more dir pre suf :
  logs (quiet target) (tempAttempts more dir pre suf).
Proof.
  induction more as [|more IH]; cbn [tempAttempts]; unfold nextRandom;
    logs_auto.
Qed.

Lemma logs_TempFile dir pattern : logs (quiet target) (TempFile dir pattern).
Proof.
  unfold TempFile. destruct (prefixAndSuffix pattern) as [[pre suf]|e].
  - apply logs_tempAttempts.
  - apply logs_ret.
Qed.

Context (m : Mutex) (Hoff : deadAgeRecovery m < 0).

Lemma logs_reclaimDead : logs (quiet target) (reclaimDead m target).
Proof.
  unfold reclaimDead.
  destruct (Z.geb_spec (deadAgeRecovery m) 0); [lia | apply logs_ret].
Qed.

Lemma logs_refreshWindow candidate last :
  logs (quiet target) (refreshWindow m candidate target last).
Proof.
  unfold refreshWindow.
  logs_step; [apply logs_Create|].
  logs_step.
  - destruct a as [fd|e]; [|apply logs_ret].
    logs_step; [apply logs_writeCurrentTimestamp|]. logs_auto.
  - destruct a0; [|apply logs_ret].
    logs_step; [apply logs_reclaimDead | apply logs_ret].
Qed.

Lemma logs_refreshIfDue candidate last :
  logs (quiet target) (refreshIfDue m candidate target last).
Proof.
  unfold refreshIfDue. logs_step; [apply logs_now|].
  destruct (_ || _); [apply logs_refreshWindow | apply logs_ret].
Qed.

Lemma logs_publish candidate last :
  logs (quiet target) (publish m candidate target last).
Proof.
  unfold publish.
  logs_step; [apply logs_Link|]. destruct a; [apply logs_ret|].
  logs_step; [apply logs_now|].
  destruct (_ >? _); [|apply logs_ret].
  logs_step; [apply logs_Create|].
  logs_step; [|apply logs_ret].
  destruct a0; [|apply logs_ret].
  logs_step; [apply logs_writeCurrentTimestamp | apply logs_ret].
Qed.

Lemma logs_lockLoop fuel ctx candidate :
  forall last, logs (quiet target) (lockLoop fuel m ctx candidate target last).
Proof.
  induction fuel as [|fuel IH]; intros last; [apply logs_ret|].
  rewrite lockLoop_S.
  logs_step; [apply logs_refreshIfDue|].
  destruct a as [last'|e]; [|apply logs_ret].
  logs_step; [apply logs_publish|].
  destruct a; [apply logs_ret|].
  logs_step; [apply logs_sleepOrDone|].
  destruct a; [apply logs_ret | apply IH].
Qed.

End Quiet.

Lemma logs_LockWithContext fuel m ctx :
  deadAgeRecovery m < 0 ->
  logs (quiet (LockPath m)) (LockWithContext fuel m ctx).
Proof.
  intros Hoff w. unfold LockWithContext. unfold bind at 1.
  pose proof (logs_TempFile (LockPath m) (directory m)
                (Sprintf_s lockCandidateTemplate (id m)) w) as HT.
  destruct (TempFile _ _ w) as [[candidate|e] w1] eqn:ET; [|exact HT].
  apply candidate_not_target in ET. cbn [snd] in HT.
  eapply logExtends_trans; [exact HT|].
  apply (logs_bind (quiet (LockPath m))).
  - now apply logs_lockLoop.
  - intros [r|]; [|apply logs_ret].
    apply logs_bind; [now apply logs_Remove | intros; apply logs_ret].
Qed.

End LogFacts.

(* ===================================================================== *)
(** ** A contender that finds the lock held *)
(* ===================================================================== *)

Module ContentionFacts.
Import Sys Mutex Spec GoStr GoStrFacts SysFacts NameFacts EngineFacts.
Local Open Scope sys_scope.

Section Steady.
Context (j : nat).

Lemma steady_refl w : steady j w w.
Proof. repeat split. Qed.

Lemma steady_trans w1 w2 w3 :
  steady j w1 w2 -> steady j w2 w3 -> steady j w1 w3.
Proof.
  intros (F1 & O1 & C1 & I1) (F2 & O2 & C2 & I2). repeat split; try congruence.
  intros k Hk. rewrite I2, I1 by assumption. reflexivity.
Qed.

Lemma steady_stored w w1 t i :
  steady j w w1 -> files w !! t = Some i -> i <> j ->
  storedTimestamp w1 t = storedTimestamp w t.
Proof.
  intros (F & _ & _ & I) Hi Hne. unfold storedTimestamp, contents.
  rewrite F, Hi, (I i Hne). reflexivity.
Qed.

Lemma Create_steady c w :
  oracle w = [] -> files w !! c = Some j ->
  exists w1, Create c w = (Ok j, w1) /\ steady j w w1.
Proof.
  intros Ho Hc. unfold Create. unfold_m. cbn. rewrite Ho. cbn. rewrite Hc. cbn.
  eexists. split; [reflexivity|]. repeat split; cbn; auto.
  intros k Hk. now rewrite lookup_insert_ne.
Qed.

Lemma writeCurrentTimestamp_steady w :
  oracle w = [] ->
  exists w1, writeCurrentTimestamp j w = ((nowOf w, None), w1) /\ steady j w w1.
Proof.
  intros Ho. unfold writeCurrentTimestamp, Write, now, UnixNano. unfold_m.
  cbn. rewrite Ho. cbn.
  eexists. split; [reflexivity|]. repeat split; cbn; auto.
  intros k Hk. now rewrite lookup_insert_ne.
Qed.

Lemma Link_steady c t w :
  oracle w = [] -> files w !! c = Some j -> is_Some (files w !! t) ->
  exists w1, Link c t w = (Some ErrExist, w1) /\ steady j w w1.
Proof.
  intros Ho Hc [i Ht]. unfold Link. unfold_m. cbn. rewrite Ho. cbn. rewrite Hc, Ht. cbn.
  eexists. split; [reflexivity|]. repeat split; cbn; auto.
Qed.

Lemma reclaimDead_steady m t w :
  oracle w = [] ->
  deadAt m (storedTimestamp w t) (clock w) = false ->
  exists w1, reclaimDead m t w = (tt, w1) /\ steady j w w1.
Proof.
  intros Ho. unfold deadAt, reclaimDead, storedTimestamp, contents.
  destruct (deadAgeRecovery m >=? 0); cbn [andb];
    [|intros _; eexists; split; [reflexivity | apply steady_refl]].
  unfold readTimestamp, ReadFile, contents, now, UnixNano. unfold_m. cbn.
  rewrite Ho. cbn.
  destruct (files w !! t) as [i|]; cbn;
    [|intros _; eexists; split; [reflexivity | repeat split; cbn; auto]].
  destruct (ParseInt _) as [ts|]; cbn;
    [|intros _; eexists; split; [reflexivity | repeat split; cbn; auto]].
  destruct (ts >? 0); cbn;
    [|intros _; eexists; split; [reflexivity | repeat split; cbn; auto]].
  intros ->. eexists; split; [reflexivity | repeat split; cbn; auto].
Qed.

End Steady.

Section Contended.
Context (m : Mutex) (c t : string) (i j : nat) (stored : option Z).
Context (Hij : i <> j).

Lemma polling_steady w w1 :
  polling c t i j stored w -> steady j w w1 -> polling c t i j stored w1.
Proof.
  intros (Ho & Hc & Ht & Hs) S.
  pose proof (steady_stored j w w1 t i S Ht Hij) as Hs1.
  destruct S as (F & O & _ & _).
  repeat split; congruence.
Qed.

Lemma polling_slept w w1 :
  polling c t i j stored w ->
  files w1 = files w -> inodes w1 = inodes w -> oracle w1 = [] ->
  polling c t i j stored w1.
Proof.
  intros (Ho & Hc & Ht & Hs) F I O.
  repeat split; try congruence.
  unfold storedTimestamp, contents in *. now rewrite F, I.
Qed.

Lemma refreshWindow_steady last w :
  polling c t i j stored w ->
  deadAt m stored (clock w) = false ->
  exists last' w1,
    refreshWindow m c t last w = (Ok last', w1) /\ steady j w w1.
Proof.
  intros P Hd. pose proof P as (Ho & Hc & Ht & Hs).
  unfold refreshWindow. unfold bind at 1.
  destruct (Create_steady j c w Ho Hc) as (w1 & -> & S1).
  pose proof (polling_steady _ _ P S1) as (Ho1 & _).
  unfold bind at 1. unfold bind at 1.
  destruct (writeCurrentTimestamp_steady j w1 Ho1) as (w2 & -> & S2).
  unfold ret at 1. unfold bind.
  pose proof (steady_trans j _ _ _ S1 S2) as S12.
  pose proof (polling_steady _ _ P S12) as (Ho2 & _ & _ & Hs2).
  destruct (reclaimDead_steady j m t w2 Ho2) as (w3 & -> & S3).
  { rewrite Hs2. destruct S12 as (_ & _ & -> & _). exact Hd. }
  unfold ret. eexists _, w3. split; [reflexivity|].
  eapply steady_trans; eassumption.
Qed.

Lemma publish_steady last w :
  polling c t i j stored w ->
  exists w1, publish m c t last w = (None, w1) /\ steady j w w1.
Proof.
  intros (Ho & Hc & Ht & Hs). unfold publish, bind.
  destruct (Link_steady j c t w Ho Hc) as (w1 & -> & S1); [eauto|].
  unfold ret. eauto.
Qed.

(** One turn of the loop in a contended world, up to the wait. *)
Lemma lockLoop_contended fuel ctx last w :
  polling c t i j stored w ->
  deadAt m stored (clock w) = false ->
  exists last' w1,
    steady j w w1
    /\ lockLoop (S fuel) m ctx c t last w =
         (do stop <- sleepOrDone ctx (pulse m);
          if stop then ret (Some (Some expired))
          else lockLoop fuel m ctx c t last') w1.
Proof.
  intros P Hd. rewrite lockLoop_S. unfold refreshIfDue.
  unfold bind at 1. unfold bind at 1. rewrite now_eq.
  destruct ((last =? 0) || _).
  - destruct (refreshWindow_steady last w P Hd) as (last' & w1 & -> & S1).
    unfold bind at 1.
    destruct (publish_steady last' w1 (polling_steady _ _ P S1))
      as (w2 & -> & S2).
    exists last', w2. split; [eapply steady_trans; eassumption | reflexivity].
  - unfold ret at 1. unfold bind at 1.
    destruct (publish_steady last w P) as (w2 & -> & S2).
    exists last, w2. split; [assumption | reflexivity].
Qed.

Context (Hpulse : 0 < pulse m).

(** Under a deadline the loop ends with [expired], at the deadline. *)
Lemma lockLoop_expires deadline n :
  forall fuel last w,
    (n <= fuel)%nat ->
    polling c t i j stored w ->
    clock w <= deadline ->
    deadline - clock w < Z.of_nat n * pulse m ->
    (forall x, clock w <= x <= deadline -> deadAt m stored x = false) ->
    exists w1,
      lockLoop fuel m (Some deadline) c t last w = (Some (Some expired), w1)
      /\ clock w1 = deadline /\ files w1 = files w /\ oracle w1 = [].
Proof.
  induction n as [|n IH]; intros fuel last w Hn P Hle Hlt Halive; [lia|].
  destruct fuel as [|fuel]; [lia|].
  destruct (lockLoop_contended fuel (Some deadline) last w P)
    as (last' & w1 & S1 & ->); [apply Halive; lia|].
  pose proof (polling_steady _ _ P S1) as P1.
  destruct S1 as (F1 & O1 & C1 & _).
  unfold bind.
  destruct (Z.lt_ge_cases deadline (clock w1 + Z.max (pulse m) 0)) as [Hcut|Hgo].
  - destruct (sleepOrDone_interrupted deadline (pulse m) w1 Hcut)
      as (w2 & -> & F2 & _ & O2 & C2).
    unfold ret. exists w2. split; [reflexivity|].
    repeat split; try congruence; [lia|]. destruct P as (Ho & _). congruence.
  - destruct P1 as (Ho1 & P1').
    destruct (sleepOrDone_elapsed deadline (pulse m) w1 Ho1 Hgo)
      as (w2 & -> & F2 & I2 & O2 & C2).
    destruct (IH fuel last' w2) as (w3 & E3 & C3 & F3 & O3);
      try lia.
    + apply (polling_slept w1); try assumption. split; assumption.
    + intros x Hx. apply Halive. lia.
    + exists w3. split; [exact E3|]. repeat split; congruence.
Qed.

(** Without a deadline, and as long as the lock does not look dead,
    the loop goes on. *)
Lemma lockLoop_polls_on fuel :
  forall last w,
    polling c t i j stored w ->
    (forall x, clock w <= x -> deadAt m stored x = false) ->
    exists w1,
      lockLoop fuel m None c t last w = (None, w1) /\ files w1 = files w.
Proof.
  induction fuel as [|fuel IH]; intros last w P Halive.
  - exists w. split; reflexivity.
  - destruct (lockLoop_contended fuel None last w P)
      as (last' & w1 & S1 & ->); [apply Halive; lia|].
    pose proof (polling_steady _ _ P S1) as P1.
    destruct S1 as (F1 & O1 & C1 & _).
    unfold bind.
    destruct (sleepOrDone_background (pulse m) w1)
      as (w2 & -> & F2 & I2 & O2 & C2).
    destruct (IH last' w2) as (w3 & E3 & F3).
    + apply (polling_slept w1); try assumption.
      destruct P1 as (Ho1 & _). congruence.
    + intros x Hx. apply Halive. lia.
    + exists w3. split; [exact E3 | congruence].
Qed.

End Contended.

Lemma TempFile_held m w :
  held m w ->
  exists w1,
    TempFile (directory m) (Sprintf_s lockCandidateTemplate (id m)) w
    = (Ok (candidateName m w), w1)
    /\ files w1 = <[candidateName m w := freshInode w]> (files w)
    /\ oracle w1 = [] /\ clock w1 = clock w
    /\ forall k, k <> freshInode w -> inodes w1 !! k = inodes w !! k.
Proof.
  intros H. unfold TempFile.
  rewrite (held_dir_ne _ _ H), (prefixAndSuffix_candidate_ok _ (held_id _ _ H)).
  apply tempAttempts_first.
  - apply (held_oracle _ _ H).
  - apply (held_dir _ _ H).
  - apply (held_free _ _ H).
Qed.

(** The loop can begin: after [TempFile] the contender is [polling]. *)
Lemma held_polling m w :
  held m w ->
  exists w1 i,
    TempFile (directory m) (Sprintf_s lockCandidateTemplate (id m)) w
    = (Ok (candidateName m w), w1)
    /\ i <> freshInode w
    /\ polling (candidateName m w) (LockPath m) i (freshInode w)
               (storedTimestamp w (LockPath m)) w1
    /\ clock w1 = clock w
    /\ delete (candidateName m w) (files w1) = files w.
Proof.
  intros H. destruct (TempFile_held m w H) as (w1 & E & F & O & C & I).
  destruct (held_target _ _ H) as [i Hi].
  assert (i <> freshInode w) as Hne
      by (intros ->; now apply (freshInode_not_used w _ _ Hi)).
  assert (candidateName m w <> LockPath m) as Hct.
  { intros Heq. pose proof (held_free _ _ H) as Hfree.
    rewrite Heq in Hfree. congruence. }
  exists w1, i. split; [exact E|]. split; [exact Hne|].
  split; [|split; [exact C|]].
  - split; [exact O|]. split; [rewrite F; apply lookup_insert_eq|].
    split; [rewrite F, lookup_insert_ne by assumption; exact Hi|].
    unfold storedTimestamp, contents.
    rewrite F, lookup_insert_ne, Hi, (I i Hne) by assumption. reflexivity.
  - rewrite F. apply delete_insert_id. apply (held_free _ _ H).
Qed.

Lemma refreshWindow_not_expired m c t last w :
  fst (refreshWindow m c t last w) <> Err expired.
Proof.
  unfold refreshWindow, bind.
  destruct (Create c w) as [[fd|e] w1].
  - destruct (writeCurrentTimestamp fd w1) as [[ts [e|]] w2]; unfold ret.
    + cbn. discriminate.
    + destruct (reclaimDead m t w2). cbn. discriminate.
  - unfold ret. destruct (reclaimDead m t w1). cbn. discriminate.
Qed.

Lemma refreshIfDue_not_expired m c t last w :
  fst (refreshIfDue m c t last w) <> Err expired.
Proof.
  unfold refreshIfDue. unfold bind. rewrite now_eq.
  destruct (_ || _); [apply refreshWindow_not_expired | discriminate].
Qed.

(** Under [context.Background()] the loop never returns [expired]. *)
Lemma lockLoop_background_not_expired m c t fuel :
  forall last w, fst (lockLoop fuel m None c t last w) <> Some (Some expired).
Proof.
  induction fuel as [|fuel IH]; intros last w; [discriminate|].
  rewrite lockLoop_S. unfold bind at 1.
  pose proof (refreshIfDue_not_expired m c t last w) as HR.
  destruct (refreshIfDue m c t last w) as [[last'|e] w1].
  - unfold bind at 1.
    destruct (publish m c t last' w1) as [[r|] w2] eqn:EP.
    + apply publish_returns_nil in EP as ->. discriminate.
    + unfold bind.
      destruct (sleepOrDone_background (pulse m) w2) as (w3 & -> & _).
      apply IH.
  - unfold ret. cbn in *. congruence.
Qed.

(** A turn of the loop whose publish fails ends the call with
    [expired] when the deadline comes before the end of the pulse. *)
Lemma lockLoop_expired_at_wait fuel m deadline c t last w last' w1 w2 :
  refreshIfDue m c t last w = (Ok last', w1) ->
  publish m c t last' w1 = (None, w2) ->
  deadline < clock w2 + Z.max (pulse m) 0 ->
  exists w3,
    lockLoop (S fuel) m (Some deadline) c t last w = (Some (Some expired), w3)
    /\ clock w3 = Z.max (clock w2) deadline /\ files w3 = files w2.
Proof.
  intros E1 E2 Hcut. rewrite lockLoop_S. unfold bind. rewrite E1, E2.
  destruct (sleepOrDone_interrupted deadline (pulse m) w2 Hcut)
    as (w3 & -> & F & _ & _ & C).
  exists w3. repeat split; assumption.
Qed.

Lemma LockWithContext_background_not_expired fuel m w :
  fst (LockWithContext fuel m Background w) <> Some (Some expired).
Proof.
  unfold LockWithContext, bind, Background.
  destruct (TempFile _ _ w) as [[c|e] w1]; [|discriminate].
  pose proof (lockLoop_background_not_expired m c (LockPath m) fuel 0 w1) as H.
  destruct (lockLoop fuel m None c (LockPath m) 0 w1) as [[r|] w2];
    [|discriminate].
  destruct (Remove c w2). unfold ret. cbn in *. congruence.
Qed.

Lemma pulses_cover timeout p :
  0 < timeout -> 0 < p ->
  timeout < Z.of_nat (Z.to_nat (timeout / p) + 1) * p.
Proof.
  intros Ht Hp.
  pose proof (Z.div_mod timeout p ltac:(lia)) as E.
  pose proof (Z.mod_pos_bound timeout p Hp) as B.
  pose proof (Z.div_pos timeout p ltac:(lia) Hp) as D.
  rewrite Nat2Z.inj_add, Z2Nat.id by assumption. cbn [Z.of_nat Pos.of_succ_nat].
  nia.
Qed.

End ContentionFacts.

(* ===================================================================== *)
(** ** A contender that can never win *)
(* ===================================================================== *)

Module BlockedFacts.
Import Sys Mutex Spec GoStr GoStrFacts SysFacts NameFacts EngineFacts.
Local Open Scope sys_scope.

Section Keeps.
Context (j : nat).

Lemma keeps_refl w : keeps j w w.
Proof. split; auto. Qed.

Lemma keeps_trans w1 w2 w3 : keeps j w1 w2 -> keeps j w2 w3 -> keeps j w1 w3.
Proof.
  intros (F1 & I1) (F2 & I2). split; [congruence|].
  intros k Hk. rewrite I2, I1 by assumption. reflexivity.
Qed.

Lemma keeps_same w w1 :
  files w1 = files w -> inodes w1 = inodes w -> keeps j w w1.
Proof. intros F I. split; [exact F | intros; now rewrite I]. Qed.

Lemma keeps_stored w w1 t i :
  keeps j w w1 -> files w !! t = Some i -> i <> j ->
  storedTimestamp w1 t = storedTimestamp w t.
Proof.
  intros (F & I) Hi Hne. unfold storedTimestamp, contents.
  rewrite F, Hi, (I i Hne). reflexivity.
Qed.

Lemma Create_keeps c w :
  files w !! c = Some j ->
  keeps j w (snd (Create c w))
  /\ forall fd, fst (Create c w) = Ok fd -> fd = j.
Proof.
  intros Hc. unfold Create. unfold_m.
  destruct (oracle w) as [|[] o]; cbn; rewrite ?Hc; cbn;
    (split; [split; cbn; auto; intros k Hk; now rewrite lookup_insert_ne
            | intros fd; congruence]).
Qed.

Lemma writeCurrentTimestamp_keeps w :
  keeps j w (snd (writeCurrentTimestamp j w)).
Proof.
  unfold writeCurrentTimestamp, Write, now, UnixNano. unfold_m.
  destruct (oracle w) as [|[] o]; cbn;
    (split; cbn; auto; intros k Hk; now rewrite lookup_insert_ne).
Qed.

Lemma sleepOrDone_keeps ctx delay w :
  keeps j w (snd (sleepOrDone ctx delay w)).
Proof.
  unfold sleepOrDone, selectDoneOrAfter. unfold_m.
  destruct ctx as [d|]; cbn; [|apply keeps_same; reflexivity].
  destruct (d <? _); cbn; [apply keeps_same; reflexivity|].
  destruct (_ <? d); cbn; [apply keeps_same; reflexivity|].
  destruct (oracle w) as [|[] o]; cbn; apply keeps_same; reflexivity.
Qed.

End Keeps.

Section Blocked.
Context (m : Mutex) (c t : string) (i j : nat) (stored : option Z).
Context (Hij : i <> j) (Hst : unstamped stored \/ deadAgeRecovery m < 0).

Lemma blocked_keeps w w1 :
  blocked c t i j stored w -> keeps j w w1 -> blocked c t i j stored w1.
Proof.
  intros (Hc & Ht & Hs) K.
  pose proof (keeps_stored j w w1 t i K Ht Hij) as Hs1.
  destruct K as (F & _). repeat split; congruence.
Qed.

Lemma reclaimDead_keeps w :
  blocked c t i j stored w -> keeps j w (snd (reclaimDead m t w)).
Proof.
  intros (_ & _ & Hs).
  destruct (reclaimDead_cases m t w)
    as [(F & I & _) | (Hon & _ & (ts & E & Hpos & _) & _)].
  - now apply keeps_same.
  - exfalso. destruct Hst as [Hu|Hoff]; [|lia].
    rewrite Hs in E. unfold unstamped in Hu. rewrite E in Hu. lia.
Qed.

Lemma refreshWindow_keeps last w :
  blocked c t i j stored w ->
  keeps j w (snd (refreshWindow m c t last w)).
Proof.
  intros B. pose proof B as (Hc & _).
  destruct (Create_keeps j c w Hc) as [K1 Hfd].
  unfold refreshWindow. unfold bind at 1.
  destruct (Create c w) as [[fd|e] w1]; cbn [fst snd] in *.
  - rewrite (Hfd fd eq_refl). unfold bind at 1. unfold bind at 1.
    pose proof (writeCurrentTimestamp_keeps j w1) as K2.
    destruct (writeCurrentTimestamp j w1) as [[ts [e|]] w2]; cbn [snd] in K2;
      unfold ret at 1.
    + cbn [snd]. eapply keeps_trans; eassumption.
    + unfold bind.
      pose proof (reclaimDead_keeps w2
                    (blocked_keeps _ _ B (keeps_trans j _ _ _ K1 K2))) as K3.
      destruct (reclaimDead m t w2) as [[] w3]. cbn [snd] in *.
      eapply keeps_trans; [|exact K3]. eapply keeps_trans; eassumption.
  - unfold ret at 1. unfold bind.
    pose proof (reclaimDead_keeps w1 (blocked_keeps _ _ B K1)) as K3.
    destruct (reclaimDead m t w1) as [[] w3]. cbn [snd] in *.
    eapply keeps_trans; eassumption.
Qed.

Lemma refreshIfDue_keeps last w :
  blocked c t i j stored w ->
  keeps j w (snd (refreshIfDue m c t last w)).
Proof.
  intros B. unfold refreshIfDue, bind. rewrite now_eq.
  destruct (_ || _); [now apply refreshWindow_keeps | apply keeps_refl].
Qed.

(** The link onto a name that exists never succeeds. *)
Lemma publish_blocked last w :
  blocked c t i j stored w ->
  fst (publish m c t last w) = None
  /\ keeps j w (snd (publish m c t last w)).
Proof.
  intros (Hc & Ht & _). unfold publish, Link. unfold_m.
  destruct (oracle w) as [|[] o]; cbn; rewrite ?Hc, ?Ht; cbn;
    (split; [reflexivity | apply keeps_same; reflexivity]).
Qed.

Lemma lockLoop_blocked fuel ctx :
  forall last w r w',
    blocked c t i j stored w ->
    lockLoop fuel m ctx c t last w = (r, w') ->
    r <> Some None /\ keeps j w w'.
Proof.
  induction fuel as [|fuel IH]; intros last w r w' B.
  - intros [= <- <-]. split; [discriminate | apply keeps_refl].
  - rewrite lockLoop_S. unfold bind at 1.
    pose proof (refreshIfDue_keeps last w B) as K1.
    destruct (refreshIfDue m c t last w) as [[last'|e] w1]; cbn [snd] in K1.
    + pose proof (blocked_keeps _ _ B K1) as B1.
      destruct (publish_blocked last' w1 B1) as [Hp K2].
      unfold bind at 1.
      destruct (publish m c t last' w1) as [p w2]. cbn [fst snd] in *.
      subst p. pose proof (blocked_keeps _ _ B1 K2) as B2.
      unfold bind.
      pose proof (sleepOrDone_keeps j ctx (pulse m) w2) as K3.
      destruct (sleepOrDone ctx (pulse m) w2) as [[] w3]; cbn [snd] in K3.
      * unfold ret. intros [= <- <-]. split; [discriminate|].
        eapply keeps_trans; [|exact K3]. eapply keeps_trans; eassumption.
      * intros E.
        destruct (IH last' w3 r w' (blocked_keeps _ _ B2 K3) E) as [Hr K4].
        split; [exact Hr|].
        eapply keeps_trans; [|exact K4]. eapply keeps_trans; [|exact K3].
        eapply keeps_trans; eassumption.
    + unfold ret. intros [= <- <-]. split; [discriminate | exact K1].
Qed.

End Blocked.

(** What [TempFile] does to the file system, whatever the oracle says:
    nothing when it fails; otherwise it binds a name that was free to
    an inode no name leads to. *)
Lemma tempAttempts_effect more dir pre suf :
  forall w,
    let r := tempAttempts more dir pre suf w in
    match fst r with
    | Ok name =>
        files w !! name = None
        /\ exists j,
            files (snd r) = <[name := j]> (files w)
            /\ (forall p i, files w !! p = Some i -> i <> j)
            /\ forall k, k <> j -> inodes (snd r) !! k = inodes w !! k
    | Err _ => files (snd r) = files w /\ inodes (snd r) = inodes w
    end.
Proof.
  induction more as [|more IH]; intros w; cbn [tempAttempts];
    unfold nextRandom; unfold_m;
    cbn -[joinPath FormatUint String.append];
    destruct (oracle w) as [|[] o];
    cbn -[joinPath FormatUint String.append]; auto;
    destruct (negb (bool_decide (dir ∈ dirs w)));
    cbn -[joinPath FormatUint String.append]; auto;
    destruct (files w !! joinPath dir (pre +:+ FormatUint (seed w) +:+ suf))
      eqn:E;
    cbn -[joinPath FormatUint String.append]; auto;
    try (split; [exact E|]; exists (freshInode w);
         split; [reflexivity|];
         split; [intros p i Hp Hi; subst i;
                 now apply (freshInode_not_used w p _ Hp)
                | intros k Hk; now rewrite lookup_insert_ne]);
    apply (IH (mkWorld _ _ _ _ _ _ _ _)).
Qed.

Lemma TempFile_effect dir pattern w r w1 :
  TempFile dir pattern w = (r, w1) ->
  match r with
  | Ok name =>
      files w !! name = None
      /\ exists j,
          files w1 = <[name := j]> (files w)
          /\ (forall p i, files w !! p = Some i -> i <> j)
          /\ forall k, k <> j -> inodes w1 !! k = inodes w !! k
  | Err _ => files w1 = files w /\ inodes w1 = inodes w
  end.
Proof.
  unfold TempFile. destruct (prefixAndSuffix pattern) as [[pre suf]|e].
  - intros E.
    pose proof (tempAttempts_effect (N.to_nat 9999)
                  (if nonEmpty dir then dir else TempDir) pre suf w) as H.
    cbv zeta in H. rewrite E in H. exact H.
  - unfold ret. intros [= <- <-]. split; reflexivity.
Qed.

Lemma contents_same w w1 t :
  files w1 !! t = files w !! t ->
  (forall i, files w !! t = Some i -> inodes w1 !! i = inodes w !! i) ->
  contents w1 t = contents w t.
Proof.
  intros F I. unfold contents. rewrite F.
  destruct (files w !! t) as [i|]; [|reflexivity]. now rewrite (I i eq_refl).
Qed.

Lemma stored_same w w1 t :
  contents w1 t = contents w t -> storedTimestamp w1 t = storedTimestamp w t.
Proof. unfold storedTimestamp. now intros ->. Qed.

(** An acquire in a world where the lock file is there and is not
    reclaimed, whatever the oracle says. *)
Lemma LockWithContext_blocked m fuel ctx w i r w' :
  files w !! LockPath m = Some i ->
  unstamped (storedTimestamp w (LockPath m)) \/ deadAgeRecovery m < 0 ->
  LockWithContext fuel m ctx w = (r, w') ->
  r <> Some None
  /\ files w' !! LockPath m = Some i
  /\ contents w' (LockPath m) = contents w (LockPath m).
Proof.
  intros Ht Hst. unfold LockWithContext. unfold bind at 1.
  destruct (TempFile _ _ w) as [[cand|e] w1] eqn:ET.
  - pose proof (candidate_not_target _ _ _ _ ET) as Hct.
    apply TempFile_effect in ET as (Hfree & j & F1 & Hj & I1).
    assert (i <> j) as Hij by (eapply Hj; exact Ht).
    assert (contents w1 (LockPath m) = contents w (LockPath m)) as C1.
    { apply contents_same.
      - now rewrite F1, lookup_insert_ne.
      - intros i' Hi'. rewrite Ht in Hi'. injection Hi' as <-. now apply I1. }
    assert (blocked cand (LockPath m) i j (storedTimestamp w (LockPath m)) w1)
      as B.
    { split; [rewrite F1; apply lookup_insert_eq|].
      split; [rewrite F1, lookup_insert_ne by assumption; exact Ht|].
      now apply stored_same. }
    unfold bind at 1.
    destruct (lockLoop fuel m ctx cand (LockPath m) 0 w1) as [r0 w2] eqn:EL.
    destruct (lockLoop_blocked m _ _ i j _ Hij Hst fuel ctx 0 w1 r0 w2 B EL)
      as [Hr0 K].
    pose proof B as (_ & Ht1 & _).
    pose proof (blocked_keeps _ _ i j _ Hij _ _ B K) as (_ & Ht2 & _).
    assert (contents w2 (LockPath m) = contents w (LockPath m)) as C2.
    { rewrite <- C1. destruct K as (F2 & I2). apply contents_same.
      - now rewrite F2.
      - intros i' Hi'. rewrite Ht1 in Hi'. injection Hi' as <-. now apply I2. }
    destruct r0 as [r1|].
    + unfold bind. destruct (Remove cand w2) as [e w3] eqn:ER.
      apply Remove_spec in ER as (Hok & Hko & _ & _ & I3 & _).
      unfold ret. intros [= <- <-].
      assert (files w3 !! LockPath m = files w2 !! LockPath m) as Ht3.
      { destruct e as [e|].
        - now rewrite Hko by discriminate.
        - destruct (Hok eq_refl) as [_ ->]. now rewrite lookup_delete_ne. }
      split; [exact Hr0|]. split; [congruence|].
      rewrite <- C2. apply contents_same; [exact Ht3|].
      intros; now rewrite I3.
    + unfold ret. intros [= <- <-].
      split; [discriminate|]. split; [exact Ht2 | exact C2].
  - apply TempFile_effect in ET as [F I].
    unfold ret. intros [= <- <-].
    split; [discriminate|]. split; [now rewrite F|].
    apply contents_same; [now rewrite F | intros; now rewrite I].
Qed.

End BlockedFacts.

(* ===================================================================== *)
(** ** Relations every step of the loop respects *)
(* ===================================================================== *)

Module StableFacts.
Import Sys Mutex Spec GoStr GoStrFacts SysFacts NameFacts EngineFacts LogFacts.
Local Open Scope sys_scope.

Section Respects.
Context (R : World -> World -> Prop).
Context (R_refl : forall w, R w w).
Context (R_trans : forall w1 w2 w3, R w1 w2 -> R w2 w3 -> R w1 w3).

Lemma respects_ret {A} (a : A) : respects R (ret a).
Proof. intros w. apply R_refl. Qed.

Lemma respects_bind {A B} (c : M A) (k : A -> M B) :
  respects R c -> (forall a, respects R (k a)) -> respects R (bind c k).
Proof.
  intros Hc Hk w. unfold bind. specialize (Hc w).
  destruct (c w) as [a w1]. eapply R_trans; [exact Hc | apply Hk].
Qed.

Lemma respects_get : respects R get.
Proof. intros w. apply R_refl. Qed.

Lemma respects_now : respects R now.
Proof. intros w. apply R_refl. Qed.

End Respects.

Section LoopStable.
Context (c t : string) (R : World -> World -> Prop).
Context (HR : loopStable c t R).

Ltac rs_step :=
  lazymatch goal with
  | |- respects _ (bind _ _) =>
      apply (respects_bind R (ls_trans c t R HR)); [|intros]
  | |- respects _ (ret _) => apply (respects_ret R (ls_refl c t R HR))
  | |- respects _ (emit _) => apply (ls_emit c t R HR)
  | |- respects _ get => apply (respects_get R (ls_refl c t R HR))
  | |- respects _ fault => apply (ls_fault c t R HR)
  | |- respects _ now => apply (respects_now R (ls_refl c t R HR))
  | |- respects _ (setClock _) => apply (ls_setClock c t R HR)
  | |- respects _ (setInodes _) => apply (ls_setInodes c t R HR)
  | |- respects _ (Create c) => apply (ls_CreateC c t R HR)
  | |- respects _ (Create t) => apply (ls_CreateT c t R HR)
  | |- respects _ (Link c t) => apply (ls_Link c t R HR)
  | |- respects _ (Remove t) => apply (ls_RemoveT c t R HR)
  | |- respects _ (if ?b then _ else _) => destruct b
  | |- respects _ (match ?x with _ => _ end) => destruct x
  end.

Ltac rs_auto tac := repeat first [tac | rs_step].

Lemma rs_Write f data : respects R (Write f data).
Proof. unfold Write. repeat rs_step. Qed.

Lemma rs_readTimestamp name : respects R (readTimestamp name).
Proof. unfold readTimestamp, ReadFile. repeat rs_step. Qed.

Lemma rs_writeCurrentTimestamp f : respects R (writeCurrentTimestamp f).
Proof.
  unfold writeCurrentTimestamp. rs_auto ltac:(apply rs_Write).
Qed.

Lemma rs_Sleep d : respects R (Sleep d).
Proof. unfold Sleep. repeat rs_step. Qed.

Lemma rs_sleepOrDone ctx delay : respects R (sleepOrDone ctx delay).
Proof. unfold sleepOrDone, selectDoneOrAfter. repeat rs_step. Qed.

Lemma rs_reclaimDead m : respects R (reclaimDead m t).
Proof.
  unfold reclaimDead.
  rs_auto ltac:(first [apply rs_readTimestamp | apply rs_Sleep]).
Qed.

Lemma rs_refreshWindow m last : respects R (refreshWindow m c t last).
Proof.
  unfold refreshWindow.
  rs_auto ltac:(first [apply rs_writeCurrentTimestamp | apply rs_reclaimDead]).
Qed.

Lemma rs_refreshIfDue m last : respects R (refreshIfDue m c t last).
Proof.
  unfold refreshIfDue. rs_auto ltac:(apply rs_refreshWindow).
Qed.

Lemma rs_publish m last : respects R (publish m c t last).
Proof.
  unfold publish. rs_auto ltac:(apply rs_writeCurrentTimestamp).
Qed.

Lemma rs_lockLoop fuel m ctx :
  forall last, respects R (lockLoop fuel m ctx c t last).
Proof.
  induction fuel as [|fuel IH]; intros last; cbn [lockLoop].
  - rs_step.
  - rs_auto ltac:(first [apply rs_refreshIfDue | apply rs_publish
                        | apply rs_sleepOrDone | apply IH]).
Qed.

End LoopStable.


(** *** No fault ahead stays no fault ahead *)

Lemma noFaults_refl w : noFaults w w.
Proof. intros H. exact H. Qed.

Lemma noFaults_trans w1 w2 w3 : noFaults w1 w2 -> noFaults w2 w3 -> noFaults w1 w3.
Proof. unfold noFaults. auto. Qed.

Lemma noFaults_fault : respects noFaults fault.
Proof. intros w H. unfold fault. rewrite H. exact H. Qed.

Ltac nf_step :=
  lazymatch goal with
  | |- respects _ (bind _ _) => apply (respects_bind _ noFaults_trans); [|intros]
  | |- respects _ (ret _) => apply (respects_ret _ noFaults_refl)
  | |- respects _ get => apply (respects_get _ noFaults_refl)
  | |- respects _ fault => apply noFaults_fault
  | |- respects _ (emit _) => intros ? ?; assumption
  | |- respects _ (setClock _) => intros ? ?; assumption
  | |- respects _ (setDirs _) => intros ? ?; assumption
  | |- respects _ (setFiles _) => intros ? ?; assumption
  | |- respects _ (setInodes _) => intros ? ?; assumption
  | |- respects _ (setSeed _) => intros ? ?; assumption
  | |- respects _ (if ?b then _ else _) => destruct b
  | |- respects _ (match ?x with _ => _ end) => destruct x
  end.

Lemma noFaults_Create name : respects noFaults (Create name).
Proof. unfold Create. repeat nf_step. Qed.

Lemma noFaults_Link a b : respects noFaults (Link a b).
Proof. unfold Link. repeat nf_step. Qed.

Lemma noFaults_Remove name : respects noFaults (Remove name).
Proof. unfold Remove. repeat nf_step. Qed.

Lemma noFaults_tempAttempts more dir pre suf :
  respects noFaults (tempAttempts more dir pre suf).
Proof.
  induction more as [|more IH]; cbn [tempAttempts]; unfold nextRandom;
    repeat first [apply IH | nf_step].
Qed.

Lemma noFaults_TempFile dir pattern : respects noFaults (TempFile dir pattern).
Proof.
  unfold TempFile. destruct (prefixAndSuffix pattern) as [[pre suf]|e].
  - apply noFaults_tempAttempts.
  - nf_step.
Qed.

Lemma noFaults_stable c t : loopStable c t noFaults.
Proof.
  constructor; try (intros; intros ? ?; assumption).
  - apply noFaults_refl.
  - apply noFaults_trans.
  - apply noFaults_fault.
  - apply noFaults_Create.
  - apply noFaults_Create.
  - apply noFaults_Link.
  - apply noFaults_Remove.
Qed.

Lemma framed_same c t w w1 : files w1 = files w -> framed c t w w1.
Proof. intros E _ p _. now rewrite E. Qed.

Lemma framed_stable c t : c <> t -> loopStable c t (framed c t).
Proof.
  intros Hct. constructor.
  - intros w. now apply framed_same.
  - intros w1 w2 w3 H12 H23 Hc p Hp.
    rewrite (H23 (eq_ind_r is_Some Hc (H12 Hc c Hct)) p Hp). now apply H12.
  - intros e w. now apply framed_same.
  - intros w. apply framed_same. unfold fault. now destruct (oracle w).
  - intros x w. now apply framed_same.
  - intros i w. now apply framed_same.
  - intros w [j Hc] p Hp. unfold Create. unfold_m. cbn.
    destruct (oracle w) as [|[] o]; cbn; auto; rewrite ?Hc; reflexivity.
  - intros w _ p Hp. unfold Create. unfold_m. cbn.
    destruct (oracle w) as [|[] o]; cbn; auto;
      destruct (files w !! t); cbn; auto; now rewrite lookup_insert_ne.
  - intros w _ p Hp. unfold Link. unfold_m. cbn.
    destruct (oracle w) as [|[] o]; cbn; auto;
      destruct (files w !! c); cbn; auto;
      destruct (files w !! t); cbn; auto; now rewrite lookup_insert_ne.
  - intros w _ p Hp. unfold Remove. unfold_m. cbn.
    destruct (oracle w) as [|[] o]; cbn; auto;
      destruct (files w !! t); cbn; auto; now rewrite lookup_delete_ne.
Qed.


Lemma tracked_step t w0 w w1 e :
  log w1 = e :: log w ->
  (is_Some (files w !! t) -> is_Some (files w1 !! t) \/ e = EvRemove t) ->
  tracks t w0 w w1.
Proof.
  intros Hl Hf (evs & E & H). exists (e :: evs). split; [now rewrite Hl, E|].
  destruct H as [H|H]; [|right; now right].
  destruct (Hf H) as [H1| ->]; [now left | right; now left].
Qed.

Lemma tracked_same t w0 w w1 :
  log w1 = log w -> files w1 = files w -> tracks t w0 w w1.
Proof. intros Hl Hf (evs & E & H). exists evs. now rewrite Hl, Hf. Qed.

Lemma tracks_stable c t w0 : loopStable c t (tracks t w0).
Proof.
  constructor.
  - intros w H. exact H.
  - intros w1 w2 w3 H12 H23 H. auto.
  - intros e w. now apply (tracked_step t w0 w _ e); [|left].
  - intros w. apply tracked_same; unfold fault; now destruct (oracle w).
  - intros x w. now apply tracked_same.
  - intros i w. now apply tracked_same.
  - intros w. apply (tracked_step t w0 w _ (EvCreate c)).
    + unfold Create. unfold_m. cbn.
      destruct (oracle w) as [|[] o]; cbn; auto; now destruct (files w !! c).
    + intros [i Hi]. left. unfold Create. unfold_m. cbn.
      destruct (oracle w) as [|[] o]; cbn; eauto;
        destruct (files w !! c) eqn:Ec; cbn; eauto;
        (destruct (decide (c = t)) as [->|];
         [rewrite lookup_insert_eq | rewrite lookup_insert_ne by auto]; eauto).
  - intros w. apply (tracked_step t w0 w _ (EvCreate t)).
    + unfold Create. unfold_m. cbn.
      destruct (oracle w) as [|[] o]; cbn; auto; now destruct (files w !! t).
    + intros [i Hi]. left. unfold Create. unfold_m. cbn.
      destruct (oracle w) as [|[] o]; cbn; rewrite ?Hi; cbn; eauto.
  - intros w. apply (tracked_step t w0 w _ (EvLink c t)).
    + unfold Link. unfold_m. cbn.
      destruct (oracle w) as [|[] o]; cbn; auto;
        destruct (files w !! c); cbn; auto; now destruct (files w !! t).
    + intros [i Hi]. left. unfold Link. unfold_m. cbn.
      destruct (oracle w) as [|[] o]; cbn; eauto;
        destruct (files w !! c); cbn; rewrite ?Hi; cbn; eauto.
  - intros w. apply (tracked_step t w0 w _ (EvRemove t)); [|now right].
    unfold Remove. unfold_m. cbn.
    destruct (oracle w) as [|[] o]; cbn; auto; now destruct (files w !! t).
Qed.

Lemma staysRemoved_grows t w0 w w1 : logGrows w w1 -> staysRemoved t w0 w w1.
Proof.
  intros [evs1 E1] (evs & E & H). exists (evs1 ++ evs)%list. split.
  - rewrite E1, E. apply List.app_assoc.
  - apply in_or_app. now right.
Qed.

Lemma logGrows_Create name w : logGrows w (snd (Create name w)).
Proof.
  unfold Create. unfold_m. cbn. exists [EvCreate name].
  destruct (oracle w) as [|[] o]; cbn; auto; now destruct (files w !! name).
Qed.

Lemma logGrows_Link a b w : logGrows w (snd (Link a b w)).
Proof.
  unfold Link. unfold_m. cbn. exists [EvLink a b].
  destruct (oracle w) as [|[] o]; cbn; auto;
    destruct (files w !! a); cbn; auto; now destruct (files w !! b).
Qed.

Lemma logGrows_Remove name w : logGrows w (snd (Remove name w)).
Proof.
  unfold Remove. unfold_m. cbn. exists [EvRemove name].
  destruct (oracle w) as [|[] o]; cbn; auto; now destruct (files w !! name).
Qed.

Lemma staysRemoved_stable c t w0 : loopStable c t (staysRemoved t w0).
Proof.
  constructor.
  - intros w H. exact H.
  - intros w1 w2 w3 H12 H23 H. auto.
  - intros e w. apply staysRemoved_grows. now exists [e].
  - intros w. apply staysRemoved_grows. exists []. unfold fault.
    now destruct (oracle w).
  - intros x w. apply staysRemoved_grows. now exists [].
  - intros i w. apply staysRemoved_grows. now exists [].
  - intros w. apply staysRemoved_grows, logGrows_Create.
  - intros w. apply staysRemoved_grows, logGrows_Create.
  - intros w. apply staysRemoved_grows, logGrows_Link.
  - intros w. apply staysRemoved_grows, logGrows_Remove.
Qed.

End StableFacts.

(* ===================================================================== *)
(** ** Acquire calls that end on the first turn, and what an acquire returns *)
(* ===================================================================== *)

Module AcquireFacts.
Import Sys Mutex Spec GoStr GoStrFacts SysFacts NameFacts EngineFacts LogFacts
  ContentionFacts BlockedFacts StableFacts.
Local Open Scope sys_scope.

Ltac step_world :=
  cbn -[Sprintf_d_nl nano2Millis Int64.wrap Int64.sub Int64.mul millis
        String.append Z.gtb Z.geb Z.ltb Z.max ParseInt TrimSpace].

Lemma lockLoop_free fuel m ctx c t j w :
  oracle w = [] -> files w !! c = Some j -> files w !! t = None ->
  exists w2,
    lockLoop (S fuel) m ctx c t 0 w = (Some None, w2)
    /\ files w2 = <[t := j]> (files w)
    /\ inodes w2 = <[j := Sprintf_d_nl (nowOf w)]> (inodes w)
    /\ clock w2 = clock w /\ oracle w2 = [].
Proof.
  destruct w as [ck cw ds fs ins sd orc lg]. cbn [oracle files inodes clock nowOf].
  intros -> Hc Ht. rewrite lockLoop_S.
  unfold refreshIfDue, refreshWindow, Create, writeCurrentTimestamp, Write,
    now, UnixNano, reclaimDead, readTimestamp, ReadFile, publish, Link, contents,
    Remove, Sleep.
  unfold_m. step_world. rewrite Hc. step_world.
  rewrite lookup_insert_eq. cbn [default from_option]. unfold Datatypes.id.
  rewrite app_nil_l, insert_insert_eq.
  destruct (deadAgeRecovery m >=? 0); step_world; rewrite ?Ht; step_world;
    change (0 >? 0) with false; step_world; rewrite ?Hc, ?Ht; step_world;
    (destruct (_ >? millis (refresh m)); step_world;
     rewrite ?lookup_insert_eq; step_world;
     rewrite ?lookup_insert_eq; cbn [default from_option]; unfold Datatypes.id;
     rewrite ?app_nil_l, ?insert_insert_eq).
  all: eexists; split; [reflexivity|]; step_world; auto.
Qed.

Lemma lockLoop_stale fuel m ctx c t i j ts w :
  oracle w = [] -> files w !! c = Some j -> files w !! t = Some i -> i <> j ->
  0 <= deadAgeRecovery m ->
  storedTimestamp w t = Some ts -> 0 < ts -> isDead m w ts ->
  exists w2,
    lockLoop (S fuel) m ctx c t 0 w = (Some None, w2)
    /\ files w2 = <[t := j]> (files w)
    /\ inodes w2 !! j =
         Some (Sprintf_d_nl
                 (if Int64.sub (nowOf w2) (nowOf w) >? millis (refresh m)
                  then nowOf w2 else nowOf w))
    /\ clock w2 = clock w + Z.max (Int64.mul (pulse m) 2) 0
    /\ oracle w2 = [].
Proof.
  destruct w as [ck cw ds fs ins sd orc lg].
  unfold storedTimestamp, isDead, contents, nowOf.
  cbn [oracle files inodes clock].
  intros -> Hc Ht Hij Hd Hs Hts Hdead. rewrite Ht in Hs. rewrite lockLoop_S.
  unfold refreshIfDue, refreshWindow, Create, writeCurrentTimestamp, Write,
    now, UnixNano, reclaimDead, readTimestamp, ReadFile, publish, Link, contents,
    Remove, Sleep.
  unfold_m. step_world. rewrite Hc. step_world.
  rewrite lookup_insert_eq. cbn [default from_option]. unfold Datatypes.id.
  rewrite app_nil_l, insert_insert_eq.
  destruct (Z.geb_spec (deadAgeRecovery m) 0) as [_|]; [|lia].
  step_world. rewrite Ht. step_world.
  rewrite lookup_insert_ne by auto.
  change (from_option (fun x : string => x) "" (ins !! i))
    with (default "" (ins !! i)).
  rewrite Hs.
  destruct (Z.gtb_spec ts 0) as [_|]; [|lia]. step_world.
  destruct (Z.gtb_spec (Int64.sub (nano2Millis (Int64.wrap ck)) ts)
              (millis (deadAgeRecovery m))) as [_|]; [|lia].
  step_world. rewrite Ht. step_world.
  rewrite lookup_delete_ne by congruence. rewrite Hc. step_world.
  rewrite lookup_delete_eq. step_world.
  destruct (_ >? millis (refresh m)) eqn:E; step_world;
    rewrite ?lookup_insert_eq; step_world;
    rewrite ?lookup_insert_eq; cbn [default from_option]; unfold Datatypes.id;
    rewrite ?app_nil_l, ?insert_insert_eq.
  all: eexists; split; [reflexivity|]; step_world; rewrite ?E.
  all: rewrite ?lookup_insert_eq; repeat split; auto.
  all: apply map_eq; intros p; destruct (decide (p = t)) as [->|];
    rewrite ?lookup_insert_eq, ?lookup_insert_ne, ?lookup_delete_ne by auto; auto.
Qed.



Lemma TempFile_free m w :
  free m w ->
  exists w1,
    TempFile (directory m) (Sprintf_s lockCandidateTemplate (id m)) w
    = (Ok (candidateName m w), w1)
    /\ files w1 = <[candidateName m w := freshInode w]> (files w)
    /\ oracle w1 = [] /\ clock w1 = clock w
    /\ forall k, k <> freshInode w -> inodes w1 !! k = inodes w !! k.
Proof.
  intros H. unfold TempFile.
  rewrite (free_dir_ne _ _ H), (prefixAndSuffix_candidate_ok _ (free_id _ _ H)).
  apply tempAttempts_first.
  - apply (free_oracle _ _ H).
  - apply (free_dir _ _ H).
  - apply (free_candidate _ _ H).
Qed.

Lemma TempFile_ready m w :
  ready m w ->
  exists w1,
    TempFile (directory m) (Sprintf_s lockCandidateTemplate (id m)) w
    = (Ok (candidateName m w), w1)
    /\ files w1 = <[candidateName m w := freshInode w]> (files w)
    /\ oracle w1 = [] /\ clock w1 = clock w
    /\ forall k, k <> freshInode w -> inodes w1 !! k = inodes w !! k.
Proof.
  intros H. unfold TempFile.
  rewrite (ready_dir_ne _ _ H), (prefixAndSuffix_candidate_ok _ (ready_id _ _ H)).
  apply tempAttempts_first.
  - apply (ready_oracle _ _ H).
  - apply (ready_dir _ _ H).
  - apply (ready_candidate _ _ H).
Qed.

Lemma Remove_present name i w :
  oracle w = [] -> files w !! name = Some i ->
  exists w1, Remove name w = (None, w1)
    /\ files w1 = delete name (files w) /\ inodes w1 = inodes w
    /\ clock w1 = clock w /\ oracle w1 = [].
Proof.
  intros Ho Hf. unfold Remove. unfold_m. cbn. rewrite Ho. cbn. rewrite Hf. cbn.
  eexists. split; [reflexivity|]. repeat split; cbn; auto.
Qed.

Lemma retire_candidate (fs : gmap string nat) c t j :
  fs !! c = None -> c <> t ->
  delete c (<[t := j]> (<[c := j]> fs)) = <[t := j]> fs.
Proof.
  intros Hc Hct. rewrite delete_insert_ne by auto.
  now rewrite delete_insert_eq, delete_id.
Qed.

Lemma LockWithContext_free m fuel ctx w :
  free m w ->
  exists w',
    LockWithContext (S fuel) m ctx w = (Some None, w')
    /\ files w' = <[LockPath m := freshInode w]> (files w)
    /\ inodes w' !! freshInode w = Some (Sprintf_d_nl (nowOf w))
    /\ clock w' = clock w
    /\ oracle w' = [].
Proof.
  intros H. destruct (TempFile_free m w H) as (w1 & ET & F1 & O1 & C1 & _).
  pose proof (candidate_not_target _ _ _ _ ET) as Hct.
  assert (files w1 !! candidateName m w = Some (freshInode w)) as Hc1
    by (rewrite F1; apply lookup_insert_eq).
  assert (files w1 !! LockPath m = None) as Ht1
    by (rewrite F1, lookup_insert_ne by auto; apply (free_target _ _ H)).
  destruct (lockLoop_free fuel m ctx _ _ _ w1 O1 Hc1 Ht1)
    as (w2 & EL & F2 & I2 & C2 & O2).
  assert (files w2 !! candidateName m w = Some (freshInode w)) as Hc2
    by (rewrite F2, lookup_insert_ne by auto; exact Hc1).
  destruct (Remove_present _ _ w2 O2 Hc2) as (w3 & ER & F3 & I3 & C3 & O3).
  exists w3. split.
  { unfold LockWithContext. unfold bind at 1. rewrite ET.
    unfold bind at 1. rewrite EL. unfold bind. rewrite ER. reflexivity. }
  assert (files w3 = <[LockPath m := freshInode w]> (files w)) as F.
  { rewrite F3, F2, F1. apply retire_candidate; [apply (free_candidate _ _ H) | exact Hct]. }
  split; [exact F|]. split.
  - rewrite I3, I2, lookup_insert_eq. unfold nowOf. now rewrite C1.
  - split; congruence.
Qed.

Lemma publish_needs_free_name m c t last w r w' :
  publish m c t last w = (Some r, w') -> files w !! t = None.
Proof.
  unfold publish. unfold bind at 1.
  destruct (Link c t w) as [[e|] w1] eqn:EL; [unfold ret; discriminate|].
  intros _. now apply Link_ok in EL as (_ & _ & H).
Qed.

Lemma lockLoop_takeover fuel m ctx c t w0 :
  forall last w r w',
    lockLoop fuel m ctx c t last w = (Some r, w') ->
    r = None ->
    tracked t w0 w -> removedSince t w0 w'.
Proof.
  induction fuel as [|fuel IH]; intros last w r w'; [discriminate|].
  rewrite lockLoop_S. unfold bind at 1.
  pose proof (rs_refreshIfDue c t _ (tracks_stable c t w0) m last w) as T1.
  destruct (refreshIfDue m c t last w) as [[last'|e] w1]; cbn [snd] in T1;
    [|unfold ret; congruence].
  unfold bind at 1.
  pose proof (rs_publish c t _ (tracks_stable c t w0) m last' w1) as T2.
  pose proof (rs_publish c t _ (staysRemoved_stable c t w0) m last' w1) as S2.
  destruct (publish m c t last' w1) as [[res|] w2] eqn:EP; cbn [snd] in T2, S2.
  - unfold ret. intros [= <- <-] _ Tr.
    apply publish_needs_free_name in EP. apply S2.
    destruct (T1 Tr) as (evs & E & [[i Hi]|H]); [congruence|].
    exists evs. now split.
  - unfold bind at 1.
    pose proof (rs_sleepOrDone c t _ (tracks_stable c t w0) ctx (pulse m) w2) as T3.
    destruct (sleepOrDone ctx (pulse m) w2) as [[] w3]; cbn [snd] in T3.
    + unfold ret. unfold expired. congruence.
    + intros E Hr Tr. eapply IH; eauto.
Qed.

Lemma refreshIfDue_error m c t last w e w' :
  refreshIfDue m c t last w = (Err e, w') ->
  exists e0, e = ErrWrap ("cannot write current timestamp for candidate lock " +:+ id m) e0.
Proof.
  unfold refreshIfDue. unfold bind at 1. rewrite now_eq.
  destruct (_ || _); [|unfold ret; discriminate].
  unfold refreshWindow. unfold bind at 1.
  destruct (Create c w) as [[fd|e1] w1].
  - unfold bind at 1. unfold bind at 1.
    destruct (writeCurrentTimestamp fd w1) as [[ts [e0|]] w2].
    + unfold ret. intros [= <- <-]. now exists e0.
    + unfold ret, bind. destruct (reclaimDead m t w2). discriminate.
  - unfold bind at 1. unfold ret at 1. unfold bind.
    destruct (reclaimDead m t w1). unfold ret. discriminate.
Qed.

Lemma lockLoop_errors fuel m ctx c t :
  forall last w e w',
    lockLoop fuel m ctx c t last w = (Some (Some e), w') ->
    (e = expired /\ is_Some ctx) \/ exists e0, e = ErrWrap ("cannot write current timestamp for candidate lock " +:+ id m) e0.
Proof.
  induction fuel as [|fuel IH]; intros last w e w'; [discriminate|].
  rewrite lockLoop_S. unfold bind at 1.
  destruct (refreshIfDue m c t last w) as [[last'|e1] w1] eqn:ER.
  - unfold bind at 1.
    destruct (publish m c t last' w1) as [[res|] w2] eqn:EP.
    + apply publish_returns_nil in EP as ->. unfold ret. discriminate.
    + unfold bind at 1.
      destruct (sleepOrDone ctx (pulse m) w2) as [[] w3] eqn:ES.
      * unfold ret. intros [= <- <-]. left. split; [reflexivity|].
        destruct ctx; [eauto|].
        destruct (sleepOrDone_background (pulse m) w2) as (? & E & _).
        congruence.
      * apply IH.
  - unfold ret. intros [= <- <-]. right.
    eapply refreshIfDue_error; eassumption.
Qed.

End AcquireFacts.

(* ===================================================================== *)
(** ** One contender after another *)
(* ===================================================================== *)

Module ExclusionFacts.
Import Sys Mutex Spec GoStr GoStrFacts SysFacts NameFacts EngineFacts LogFacts
  ContentionFacts BlockedFacts StableFacts AcquireFacts.
Local Open Scope sys_scope.

(** A timestamp written at [c] does not look dead before the
    threshold, less a millisecond, has passed. *)
Lemma fresh_stamp_alive m c x :
  0 <= c -> c <= x -> x <= Int64.max_int ->
  x - c + Millisecond <= deadAgeRecovery m ->
  deadAt m (Some (nano2Millis (Int64.wrap c))) x = false.
Proof.
  intros Hc Hx Hmax Hd. unfold deadAt, Millisecond, Nanosecond in *.
  assert (Int64.in_range c /\ Int64.in_range x) as [Rc Rx]
      by (unfold Int64.in_range, Int64.min_int, Int64.max_int, Int64.half in *; lia).
  rewrite !Int64Facts.wrap_small by assumption.
  unfold millis, nano2Millis, Int64.div, Int64.sub.
  pose proof (Z.quot_rem' c 1000000) as Ec.
  pose proof (Z.rem_bound_pos c 1000000 Hc ltac:(lia)) as Bc.
  pose proof (Z.quot_rem' x 1000000) as Ex.
  pose proof (Z.rem_bound_pos x 1000000 ltac:(lia) ltac:(lia)) as Bx.
  pose proof (Z.quot_rem' (deadAgeRecovery m) 1000000) as Ed.
  pose proof (Z.rem_bound_pos (deadAgeRecovery m) 1000000 ltac:(lia) ltac:(lia)) as Bd.
  rewrite Int64Facts.wrap_small
    by (unfold Int64.in_range, Int64.min_int, Int64.max_int, Int64.half in *; lia).
  apply andb_false_intro2, andb_false_intro2.
  rewrite Z.gtb_ltb. apply Z.ltb_ge. lia.
Qed.

Lemma sameDirs_stable c t : loopStable c t sameDirs.
Proof.
  constructor; unfold sameDirs, respects.
  - reflexivity.
  - congruence.
  - reflexivity.
  - intros w. unfold fault. now destruct (oracle w).
  - reflexivity.
  - reflexivity.
  - intros w. unfold Create. unfold_m. cbn.
    destruct (oracle w) as [|[] o]; cbn; auto; now destruct (files w !! c).
  - intros w. unfold Create. unfold_m. cbn.
    destruct (oracle w) as [|[] o]; cbn; auto; now destruct (files w !! t).
  - intros w. unfold Link. unfold_m. cbn.
    destruct (oracle w) as [|[] o]; cbn; auto;
      destruct (files w !! c); cbn; auto; now destruct (files w !! t).
  - intros w. unfold Remove. unfold_m. cbn.
    destruct (oracle w) as [|[] o]; cbn; auto; now destruct (files w !! t).
Qed.

Lemma tempAttempts_dirs more dir pre suf :
  forall w, dirs (snd (tempAttempts more dir pre suf w)) = dirs w.
Proof.
  induction more as [|more IH]; intros w; cbn [tempAttempts];
    unfold nextRandom; unfold_m; cbn -[joinPath FormatUint String.append];
    destruct (oracle w) as [|[] o]; cbn -[joinPath FormatUint String.append]; auto;
    destruct (negb (bool_decide (dir ∈ dirs w)));
    cbn -[joinPath FormatUint String.append]; auto;
    destruct (files w !! _); cbn -[joinPath FormatUint String.append]; auto;
    apply (IH (mkWorld _ _ _ _ _ _ _ _)).
Qed.

(** An acquire neither makes nor removes a directory. *)
Lemma LockWithContext_dirs fuel m ctx w :
  dirs (snd (LockWithContext fuel m ctx w)) = dirs w.
Proof.
  unfold LockWithContext. unfold bind at 1.
  assert (dirs (snd (TempFile (directory m)
                       (Sprintf_s lockCandidateTemplate (id m)) w)) = dirs w) as HT.
  { unfold TempFile. destruct (prefixAndSuffix _) as [[pre suf]|e];
      [apply tempAttempts_dirs | reflexivity]. }
  destruct (TempFile _ _ w) as [[c|e] w1]; cbn [snd] in HT; [|exact HT].
  unfold bind at 1.
  pose proof (rs_lockLoop c (LockPath m) _ (sameDirs_stable c (LockPath m))
                fuel m ctx 0 w1) as HL.
  destruct (lockLoop fuel m ctx c (LockPath m) 0 w1) as [[r|] w2];
    cbn [snd] in HL; unfold sameDirs in HL. 2:{ unfold ret; cbn [snd]. now rewrite HL. }
  unfold bind. 
  assert (dirs (snd (Remove c w2)) = dirs w2) as HR.
  { unfold Remove. unfold_m. cbn.
    destruct (oracle w2) as [|[] o]; cbn; auto; now destruct (files w2 !! c). }
  destruct (Remove c w2) as [e w3]. unfold ret. cbn [snd] in *. now rewrite HR, HL.
Qed.

Section Waiting.
Context (m : Mutex) (c t : string) (i j : nat) (stored : option Z).
Context (Hij : i <> j) (Hpulse : 0 < pulse m).

(** Under a deadline before which the lock does not look dead, the
    contender is still [polling] when the loop stops. *)
Lemma lockLoop_still_polling deadline fuel :
  forall last w r w',
    polling c t i j stored w ->
    clock w <= deadline ->
    (forall x, clock w <= x <= deadline -> deadAt m stored x = false) ->
    lockLoop fuel m (Some deadline) c t last w = (r, w') ->
    polling c t i j stored w'.
Proof.
  induction fuel as [|fuel IH]; intros last w r w' P Hle Halive.
  - intros [= _ <-]. exact P.
  - destruct (lockLoop_contended m c t i j stored Hij fuel (Some deadline) last w P)
      as (last' & w1 & S1 & ->); [apply Halive; lia|].
    assert (polling c t i j stored w1) as P1
        by (eapply polling_steady; eassumption).
    destruct S1 as (F1 & O1 & C1 & _).
    unfold bind.
    destruct (Z.lt_ge_cases deadline (clock w1 + Z.max (pulse m) 0)) as [Hcut|Hgo].
    + destruct (sleepOrDone_interrupted deadline (pulse m) w1 Hcut)
        as (w2 & -> & F2 & I2 & O2 & C2).
      unfold ret. intros [= _ <-].
      eapply polling_slept; [exact P1 | exact F2 | exact I2 |].
      destruct P1 as (Ho & _). congruence.
    + pose proof P1 as (Ho1 & _).
      destruct (sleepOrDone_elapsed deadline (pulse m) w1 Ho1 ltac:(lia))
        as (w2 & -> & F2 & I2 & O2 & C2).
      apply IH.
      * eapply polling_slept; [exact P1 | | |]; assumption.
      * lia.
      * intros x Hx. apply Halive. lia.
Qed.

End Waiting.

End ExclusionFacts.

(* ===================================================================== *)
(** ** Cleaned paths and the directories that lead to them *)
(* ===================================================================== *)

Module PathFacts.
Import Sys Mutex Spec GoStr GoStrFacts SysFacts NameFacts EngineFacts LogFacts
  ContentionFacts BlockedFacts StableFacts AcquireFacts.
Local Open Scope sys_scope.

Lemma split_not_nil s : split s <> [].
Proof.
  destruct s as [|c s]; [discriminate|]. cbn [split].
  destruct (Ascii.eqb c slash); [discriminate|].
  destruct (split s); discriminate.
Qed.

Lemma split_slash_cons e s :
  hasByte slash e = false -> split (e +:+ String slash s) = e :: split s.
Proof.
  induction e as [|c e IH]; intros H.
  - rewrite app_nil_l. reflexivity.
  - cbn [hasByte] in H. apply orb_false_elim in H as [Hc He].
    rewrite app_cons. cbn [split]. rewrite Hc, (IH He). reflexivity.
Qed.

Lemma split_joinSlash l :
  Forall (fun e => hasByte slash e = false) l -> l <> [] ->
  split (joinSlash l) = l.
Proof.
  induction l as [|e r IH]; [congruence|]. intros H _.
  apply Forall_cons in H as [He Hr].
  destruct r as [|e' r'].
  - now apply split_noslash.
  - change (joinSlash (e :: e' :: r'))
      with (e +:+ String slash (joinSlash (e' :: r'))).
    rewrite split_slash_cons by assumption. f_equal. now apply IH.
Qed.

Lemma split_elements s : Forall (fun e => hasByte slash e = false) (split s).
Proof.
  induction s as [|c s IH]; [repeat constructor|]. cbn [split].
  destruct (Ascii.eqb c slash) eqn:Ec; [constructor; [reflexivity | exact IH]|].
  destruct (split s) as [|h r]; [repeat constructor; cbn; now rewrite Ec|].
  apply Forall_cons in IH as [Hh Hr]. constructor; [|exact Hr].
  cbn [hasByte]. now rewrite Ec, Hh.
Qed.

Lemma joinSlash_split s : joinSlash (split s) = s.
Proof.
  induction s as [|c s IH]; [reflexivity|]. cbn [split].
  destruct (Ascii.eqb_spec c slash) as [->|Hc].
  - pose proof (split_not_nil s) as Hn.
    destruct (split s) as [|h r]; [congruence|].
    change (joinSlash ("" :: h :: r)) with ("" +:+ String slash (joinSlash (h :: r))).
    now rewrite IH, app_nil_l.
  - destruct (split s) as [|h r] eqn:E; [now destruct (split_not_nil s)|].
    destruct r as [|h' r'].
    + cbn [joinSlash] in *. now rewrite IH.
    + change (joinSlash (String c h :: h' :: r'))
        with (String c h +:+ String slash (joinSlash (h' :: r'))).
      change (joinSlash (h :: h' :: r'))
        with (h +:+ String slash (joinSlash (h' :: r'))) in IH.
      now rewrite app_cons, IH.
Qed.

Lemma joinSlash_snoc l e :
  l <> [] -> joinSlash (l ++ [e])%list = joinSlash l +:+ String slash e.
Proof.
  induction l as [|h r IH]; [congruence|]. intros _.
  destruct r as [|h' r']; [reflexivity|].
  change (joinSlash ((h :: h' :: r') ++ [e])%list)
    with (h +:+ String slash (joinSlash ((h' :: r') ++ [e])%list)).
  rewrite IH by discriminate.
  change (joinSlash (h :: h' :: r'))
    with (h +:+ String slash (joinSlash (h' :: r'))).
  now rewrite app_assoc, app_cons.
Qed.

Lemma isSegment_noslash e : isSegment e = true -> hasByte slash e = false.
Proof. unfold isSegment. intros [H _]%andb_prop. now apply negb_true_iff. Qed.

Lemma cleanStep_segment rooted kept e :
  isSegment e = true -> cleanStep rooted kept e = e :: kept.
Proof.
  unfold isSegment, cleanStep. intros [_ H]%andb_prop.
  apply negb_true_iff in H.
  apply orb_false_elim in H as [H H2]. rewrite H, H2. reflexivity.
Qed.

Lemma fold_cleanStep_segments rooted l kept :
  Forall (fun e => isSegment e = true) l ->
  fold_left (cleanStep rooted) l kept = (List.rev l ++ kept)%list.
Proof.
  revert kept. induction l as [|e r IH]; intros kept H; [reflexivity|].
  apply Forall_cons in H as [He Hr]. cbn [fold_left List.rev].
  rewrite cleanStep_segment by assumption. rewrite IH by assumption.
  now rewrite <- List.app_assoc.
Qed.

(** Under a root, what [Clean] keeps are segments. *)
Lemma cleanStep_rooted_segments kept e :
  hasByte slash e = false ->
  Forall (fun e => isSegment e = true) kept ->
  Forall (fun e => isSegment e = true) (cleanStep true kept e).
Proof.
  intros He Hk. unfold cleanStep.
  destruct (String.eqb e "" || String.eqb e ".") eqn:E1; [exact Hk|].
  destruct (String.eqb e "..") eqn:E2.
  - destruct kept as [|top below]; [constructor|].
    apply Forall_cons in Hk as [Ht Hb].
    destruct (String.eqb_spec top "..") as [->|_]; [discriminate Ht | exact Hb].
  - constructor; [|exact Hk]. unfold isSegment. now rewrite He, E1, E2.
Qed.

Lemma fold_cleanStep_rooted l kept :
  Forall (fun e => hasByte slash e = false) l ->
  Forall (fun e => isSegment e = true) kept ->
  Forall (fun e => isSegment e = true) (fold_left (cleanStep true) l kept).
Proof.
  revert kept. induction l as [|e r IH]; intros kept Hl Hk; [exact Hk|].
  apply Forall_cons in Hl as [He Hr]. cbn [fold_left].
  apply IH; [exact Hr|]. now apply cleanStep_rooted_segments.
Qed.

(** A cleaned rooted path is a slash and segments joined by slashes. *)
Lemma Clean_rooted p :
  isRooted p = true ->
  exists l, Forall (fun e => isSegment e = true) l
            /\ Clean p = String slash (joinSlash l).
Proof.
  destruct p as [|c s]; [discriminate|]. intros Hr. unfold Clean. rewrite Hr.
  exists (List.rev (fold_left (cleanStep true) (split (String c s)) [])).
  split; [|reflexivity].
  apply Forall_rev. apply fold_cleanStep_rooted; [apply split_elements | constructor].
Qed.

Lemma Clean_segments l :
  Forall (fun e => isSegment e = true) l ->
  Clean (String slash (joinSlash l)) = String slash (joinSlash l).
Proof.
  intros H. unfold Clean. cbn [isRooted]. rewrite Ascii.eqb_refl.
  cbn [split]. rewrite Ascii.eqb_refl. cbn [fold_left].
  change (cleanStep true [] "") with (@nil string).
  destruct l as [|e r].
  - reflexivity.
  - rewrite split_joinSlash; [| |discriminate].
    + rewrite fold_cleanStep_segments by assumption.
      now rewrite List.app_nil_r, List.rev_involutive.
    + eapply Forall_impl; [exact H|]. intros x. apply isSegment_noslash.
Qed.

(** A segment appended to a cleaned rooted directory is appended as by
    [joinPath]. *)
Lemma Clean_child l e :
  Forall (fun e => isSegment e = true) l -> isSegment e = true ->
  Clean (String slash (joinSlash l) +:+ String slash e)
  = String slash (joinSlash (l ++ [e])%list).
Proof.
  intros Hl He. destruct l as [|h r].
  - cbn [joinSlash app]. rewrite app_cons, app_nil_l.
    unfold Clean. cbn [isRooted]. rewrite Ascii.eqb_refl.
    cbn [split]. rewrite !Ascii.eqb_refl.
    rewrite (split_noslash e) by now apply isSegment_noslash.
    cbn [fold_left]. change (cleanStep true [] "") with (@nil string).
    rewrite cleanStep_segment by assumption. reflexivity.
  - rewrite app_cons, <- joinSlash_snoc by discriminate.
    apply Clean_segments. apply Forall_app. split; [exact Hl | now constructor].
Qed.

Lemma length_append s t :
  String.length (s +:+ t) = (String.length s + String.length t)%nat.
Proof.
  induction s as [|c s IH]; [reflexivity|].
  rewrite app_cons. cbn [String.length]. now rewrite IH.
Qed.

Lemma joinSlash_prefix_length a b :
  (String.length (joinSlash a) <= String.length (joinSlash (a ++ b)%list))%nat.
Proof.
  induction a as [|e r IH]; [cbn; lia|].
  destruct r as [|e' r'].
  - destruct b as [|x b']; [cbn; lia|].
    change (joinSlash ([e] ++ x :: b')%list)
      with (e +:+ String slash (joinSlash (x :: b'))).
    rewrite length_append. cbn [joinSlash]. lia.
  - change (joinSlash ((e :: e' :: r') ++ b)%list)
      with (e +:+ String slash (joinSlash ((e' :: r') ++ b)%list)).
    change (joinSlash (e :: e' :: r'))
      with (e +:+ String slash (joinSlash (e' :: r'))).
    rewrite !length_append. cbn [String.length]. lia.
Qed.

(** No directory of the lineage of a path is longer than the path,
    the root apart. *)
Lemma prefixes_length acc elems x :
  In x (prefixes acc elems) ->
  (String.length x
   <= Nat.max 1 (String.length (joinSlash (acc ++ elems)%list)))%nat.
Proof.
  revert acc. induction elems as [|e r IH]; intros acc; [intros []|].
  cbn [prefixes]. intros [<-|H].
  - pose proof (joinSlash_prefix_length (acc ++ [e])%list r) as L.
    rewrite <- List.app_assoc in L. cbn [app] in L.
    destruct (nonEmpty (joinSlash (acc ++ [e])%list)); cbn [String.length]; lia.
  - apply IH in H. rewrite <- List.app_assoc in H. exact H.
Qed.

Lemma lineage_length p x :
  In x (lineage p) -> (String.length x <= Nat.max 1 (String.length p))%nat.
Proof.
  unfold lineage. intros H%prefixes_length.
  now rewrite List.app_nil_l, joinSlash_split in H.
Qed.

Lemma prefixes_last acc elems :
  elems <> [] ->
  In (if nonEmpty (joinSlash (acc ++ elems)%list)
      then joinSlash (acc ++ elems)%list else String slash "")
     (prefixes acc elems).
Proof.
  revert acc. induction elems as [|e r IH]; intros acc; [congruence|]. intros _.
  cbn [prefixes]. destruct r as [|e' r'].
  - now left.
  - right. specialize (IH (acc ++ [e])%list ltac:(discriminate)).
    rewrite <- List.app_assoc in IH. exact IH.
Qed.

(** [MkdirAll] reaches the path itself. *)
Lemma lineage_self p : nonEmpty p = true -> In p (lineage p).
Proof.
  intros H. unfold lineage.
  pose proof (prefixes_last [] (split p) (split_not_nil p)) as L.
  rewrite List.app_nil_l, joinSlash_split, H in L. exact L.
Qed.

Lemma nonEmpty_length s : nonEmpty s = true -> (1 <= String.length s)%nat.
Proof. destruct s; [discriminate|]. cbn. lia. Qed.

Lemma joinPath_length dir name :
  (String.length dir + String.length name
   <= String.length (joinPath dir name))%nat.
Proof.
  unfold joinPath.
  destruct (lastByte dir) as [c|]; [destruct (Ascii.eqb c slash)|];
    rewrite length_append; cbn [String.length]; lia.
Qed.

(** A file in a directory is none of the directories that lead to it. *)
Lemma child_not_in_lineage dir name :
  nonEmpty dir = true -> nonEmpty name = true ->
  ~ In (joinPath dir name) (lineage dir).
Proof.
  intros Hd Hn H%lineage_length.
  pose proof (joinPath_length dir name).
  apply nonEmpty_length in Hd, Hn. lia.
Qed.

(** *** Joining under a root *)

Lemma joinBuf_rooted a b :
  nonEmpty a = true -> joinBuf "" [a; b] = a +:+ String slash b.
Proof.
  intros Ha. destruct a as [|c a]; [discriminate|].
  cbn [joinBuf nonEmpty orb]. rewrite app_nil_l.
  change (nonEmpty (String c a)) with true. cbn [orb].
  now rewrite app_assoc, ?app_cons, ?app_nil_l.
Qed.

Lemma isRooted_nonEmpty s : isRooted s = true -> nonEmpty s = true.
Proof. now destruct s. Qed.

Lemma isRooted_append s t : isRooted s = true -> isRooted (s +:+ t) = true.
Proof. destruct s; [discriminate|]. now rewrite app_cons. Qed.

Lemma Join_rooted a b :
  isRooted a = true ->
  exists l, Forall (fun e => isSegment e = true) l
            /\ Join [a; b] = String slash (joinSlash l).
Proof.
  intros Ha. unfold Join. cbn [forallb].
  rewrite (isRooted_nonEmpty a Ha). cbn [negb andb].
  rewrite joinBuf_rooted by now apply isRooted_nonEmpty.
  apply Clean_rooted. now apply isRooted_append.
Qed.

Lemma segments_lastByte l :
  Forall (fun e => isSegment e = true) l -> l <> [] ->
  exists c, lastByte (joinSlash l) = Some c /\ c <> slash.
Proof.
  intros H Hn. destruct (exists_last Hn) as (init & e & ->).
  apply Forall_app in H as [_ He]. apply Forall_cons in He as [He _].
  pose proof He as Hs%isSegment_noslash.
  assert (nonEmpty e = true) as Hne.
  { destruct e; [vm_compute in He; discriminate | reflexivity]. }
  rewrite joinSlash_lastByte by assumption.
  clear - Hs Hne. induction e as [|c e IH]; [discriminate|].
  cbn [hasByte] in Hs. apply orb_false_elim in Hs as [Hc He].
  cbn [lastByte]. destruct e as [|c' e'].
  - exists c. split; [reflexivity|]. intros ->.
    now rewrite Ascii.eqb_refl in Hc.
  - destruct (IH He eq_refl) as (x & -> & Hx). eauto.
Qed.

(** Under a cleaned rooted directory, [path.Join] and the join of
    [ioutil.TempFile] put a segment at the same place. *)
Lemma Join_child l e :
  Forall (fun e => isSegment e = true) l -> isSegment e = true ->
  Join [String slash (joinSlash l); e]
  = joinPath (String slash (joinSlash l)) e.
Proof.
  intros Hl He. unfold Join. cbn [forallb nonEmpty negb andb].
  rewrite joinBuf_rooted by reflexivity.
  rewrite Clean_child by assumption.
  unfold joinPath. destruct l as [|h r].
  - cbn [joinSlash lastByte]. rewrite Ascii.eqb_refl. reflexivity.
  - destruct (segments_lastByte (h :: r) Hl ltac:(discriminate)) as (c & Hc & Hne).
    cbn [lastByte]. rewrite Hc.
    destruct (Ascii.eqb_spec c slash) as [->|_]; [congruence|].
    rewrite joinSlash_snoc by discriminate. now rewrite app_cons.
Qed.

Lemma lowerByte_slash c : Ascii.eqb (lowerByte c) slash = Ascii.eqb c slash.
Proof. destruct c as [[] [] [] [] [] [] [] []]; reflexivity. Qed.

Lemma hasByte_ToLower s : hasByte slash (ToLower s) = hasByte slash s.
Proof.
  induction s as [|c s IH]; [reflexivity|].
  cbn [ToLower hasByte]. now rewrite lowerByte_slash, IH.
Qed.

Lemma lowerByte_idem c : lowerByte (lowerByte c) = lowerByte c.
Proof. destruct c as [[] [] [] [] [] [] [] []]; reflexivity. Qed.

Lemma ToLower_idem s : ToLower (ToLower s) = ToLower s.
Proof.
  induction s as [|c s IH]; [reflexivity|].
  cbn [ToLower]. now rewrite lowerByte_idem, IH.
Qed.

Lemma ToLower_length s : String.length (ToLower s) = String.length s.
Proof. induction s as [|c s IH]; [reflexivity|]. cbn. now rewrite IH. Qed.

Lemma lowerByte_ascii c :
  (byte (lowerByte c) <? 128)%N = (byte c <? 128)%N.
Proof. destruct c as [[] [] [] [] [] [] [] []]; reflexivity. Qed.

Lemma ToLower_isASCII s : isASCII (ToLower s) = isASCII s.
Proof.
  induction s as [|c s IH]; [reflexivity|].
  cbn [ToLower isASCII]. now rewrite lowerByte_ascii, IH.
Qed.

Lemma lowerByte_not_upper c : isUpper (lowerByte c) = false.
Proof. destruct c as [[] [] [] [] [] [] [] []]; reflexivity. Qed.

Lemma ToLower_no_upper s : hasUpper (ToLower s) = false.
Proof.
  induction s as [|c s IH]; [reflexivity|].
  cbn [ToLower hasUpper]. now rewrite lowerByte_not_upper, IH.
Qed.

Lemma lockName_segment i :
  hasByte slash i = false -> isSegment (Sprintf_s lockTemplate i) = true.
Proof.
  intros H. unfold Sprintf_s, lockTemplate. cbn [fst snd]. rewrite app_nil_l.
  unfold isSegment. rewrite hasByte_append, H. cbn [orb negb andb].
  assert (lastByte (i +:+ "-mutex.lck") = Some "k"%char) as L
      by now rewrite lastByte_append.
  destruct (String.eqb_spec (i +:+ "-mutex.lck") "") as [E|_];
    [rewrite E in L; discriminate|].
  destruct (String.eqb_spec (i +:+ "-mutex.lck") ".") as [E|_];
    [rewrite E in L; discriminate|].
  destruct (String.eqb_spec (i +:+ "-mutex.lck") "..") as [E|_];
    [rewrite E in L; discriminate|].
  reflexivity.
Qed.

End PathFacts.

(* ===================================================================== *)
(** ** The construction of an engine *)
(* ===================================================================== *)

Module ConstructionFacts.
Import Sys Mutex Spec GoStr GoStrFacts SysFacts NameFacts EngineFacts LogFacts
  ContentionFacts BlockedFacts StableFacts AcquireFacts PathFacts.
Local Open Scope sys_scope.

Lemma existsb_false {A} (f : A -> bool) l :
  existsb f l = false -> forall x, In x l -> f x = false.
Proof.
  induction l as [|a l IH]; [intros _ x []|]. cbn [existsb].
  intros [Ha Hl]%orb_false_elim x [<-|Hx]; auto.
Qed.

Ltac sets :=
  set_unfold; intros;
  repeat match goal with
         | x : string, H : forall y : string, _ |- _ => specialize (H x)
         end;
  intuition (subst; auto).

(** One turn of [mkdirs]. *)
Lemma mkdirs_cons d rest w :
  mkdirs (d :: rest) w
  = if bool_decide (is_Some (files w !! d)) then (Some ErrNotDir, w)
    else if bool_decide (d ∈ dirs w) then mkdirs rest w
    else match oracle w with
         | true :: o =>
             (Some ErrIO,
              mkWorld (clock w) (cwd w) (dirs w) (files w) (inodes w)
                      (seed w) o (log w))
         | o =>
             mkdirs rest
               (mkWorld (clock w) (cwd w) ({[d]} ∪ dirs w) (files w) (inodes w)
                        (seed w) (List.tl o) (log w))
         end.
Proof.
  cbn [mkdirs]. unfold_m.
  destruct (bool_decide (is_Some (files w !! d))); [reflexivity|].
  destruct (bool_decide (d ∈ dirs w)); [reflexivity|].
  destruct (oracle w) as [|[] o] eqn:Ho; cbn [List.tl]; rewrite ?Ho; reflexivity.
Qed.

(** What [mkdirs] does: it touches the directories only, loses none and
    adds none but those it was given; with no fault it fails exactly on
    a file in the way; when it succeeds every directory given is there. *)
Lemma mkdirs_spec ds : forall w,
  let r := mkdirs ds w in
  files (snd r) = files w /\ inodes (snd r) = inodes w
  /\ clock (snd r) = clock w /\ seed (snd r) = seed w /\ cwd (snd r) = cwd w
  /\ dirs w ⊆ dirs (snd r)
  /\ dirs (snd r) ⊆ list_to_set ds ∪ dirs w
  /\ (oracle w = [] ->
      oracle (snd r) = []
      /\ fst r = if existsb (fun x => bool_decide (is_Some (files w !! x))) ds
                 then Some ErrNotDir else None)
  /\ match fst r with
     | None => dirs (snd r) = list_to_set ds ∪ dirs w
               /\ existsb (fun x => bool_decide (is_Some (files w !! x))) ds = false
     | Some e => e = ErrIO \/ e = ErrNotDir
     end.
Proof.
  induction ds as [|d ds IH]; intros w; cbv zeta.
  - cbn [mkdirs existsb]. unfold ret. cbn [fst snd].
    repeat split; auto; sets.
  - rewrite mkdirs_cons. cbn [existsb].
    destruct (bool_decide (is_Some (files w !! d))) eqn:Hf; cbn [orb].
    { cbn [fst snd]. repeat split; auto; sets. }
    destruct (bool_decide (d ∈ dirs w)) eqn:Hd.
    { apply bool_decide_eq_true in Hd.
      specialize (IH w). cbv zeta in IH.
      destruct (mkdirs ds w) as [[e|] w']; cbn [fst snd] in *;
        destruct IH as (H1 & H2 & H3 & H4 & H5 & H6 & H7 & H8 & H9);
        repeat split; auto; try apply H8; try apply H9; auto;
        clear H8; try destruct H9 as [H9 _]; sets. }
    apply bool_decide_eq_false in Hd.
    destruct (oracle w) as [|[] o] eqn:Ho; cbn [List.tl];
      [ | cbn [fst snd files inodes clock seed cwd dirs oracle];
          repeat split; auto; try discriminate; sets | ];
      (match goal with |- context [mkdirs ds ?w1] => specialize (IH w1) end;
       cbv zeta in IH; cbn [files inodes clock seed cwd dirs oracle] in IH;
       destruct (mkdirs ds _) as [[e|] w']; cbn [fst snd] in *;
       destruct IH as (H1 & H2 & H3 & H4 & H5 & H6 & H7 & H8 & H9);
       repeat split; auto; try discriminate; try apply H8; try apply H9; auto;
       clear H8; try destruct H9 as [H9 _]; sets).
Qed.

Lemma MkdirAll_spec path w :
  let r := MkdirAll path w in
  files (snd r) = files w /\ inodes (snd r) = inodes w
  /\ clock (snd r) = clock w /\ seed (snd r) = seed w /\ cwd (snd r) = cwd w
  /\ dirs w ⊆ dirs (snd r)
  /\ dirs (snd r) ⊆ list_to_set (lineage path) ∪ dirs w
  /\ (oracle w = [] ->
      oracle (snd r) = []
      /\ fst r = if existsb (fun x => bool_decide (is_Some (files w !! x)))
                           (lineage path)
                 then Some ErrNotDir else None)
  /\ match fst r with
     | None => dirs (snd r) = list_to_set (lineage path) ∪ dirs w
               /\ existsb (fun x => bool_decide (is_Some (files w !! x)))
                          (lineage path) = false
     | Some e => e = ErrIO \/ e = ErrNotDir
     end.
Proof.
  exact (mkdirs_spec (lineage path)
           (mkWorld (clock w) (cwd w) (dirs w) (files w) (inodes w) (seed w)
                    (oracle w) (EvMkdirAll path :: log w))).
Qed.

(** The first step of [NewMutexExt]: the root made absolute. Nothing
    but the oracle and the log changes. *)
Lemma root_step root w :
  let r := (if negb (IsAbs root) then Abs root else ret (Ok root)) w in
  files (snd r) = files w /\ inodes (snd r) = inodes w
  /\ clock (snd r) = clock w /\ seed (snd r) = seed w /\ cwd (snd r) = cwd w
  /\ dirs (snd r) = dirs w
  /\ (oracle w = [] ->
      oracle (snd r) = []
      /\ forall root', absoluteRoot root w = Some root' -> fst r = Ok root')
  /\ match fst r with
     | Ok root' => absoluteRoot root w = Some root'
     | Err e => IsAbs root = false /\ (e = ErrIO \/ e = ErrNotExist)
     end.
Proof.
  unfold absoluteRoot, Abs, Getwd, IsAbs. unfold_m.
  destruct (isRooted root) eqn:Hr; cbn [negb].
  - cbn. repeat split; auto; congruence.
  - destruct (oracle w) as [|[] o] eqn:Ho; cbn;
      destruct (cwd w) as [wd|]; cbn; rewrite ?Ho;
      repeat split; auto; congruence.
Qed.

(** What a successful [NewMutexExt] has done. *)
Lemma NewMutexExt_Ok root lockId p r d w m w' :
  NewMutexExt root lockId p r d w = (Ok m, w') ->
  exists root',
    absoluteRoot root w = Some root'
    /\ m = mkMutex (ToLower lockId) (Join [root'; lockId]) d
                   (if p <=? 0 then DefaultPulse else p)
                   (if r <=? 0 then DefaultRefresh else r)
    /\ dirs w' = list_to_set (lineage (Join [root'; lockId])) ∪ dirs w
    /\ files w' = files w /\ inodes w' = inodes w /\ clock w' = clock w
    /\ seed w' = seed w /\ cwd w' = cwd w
    /\ (forall x, In x (lineage (Join [root'; lockId])) -> files w !! x = None)
    /\ (oracle w = [] -> oracle w' = []).
Proof.
  intros E. unfold NewMutexExt in E. unfold bind at 1 in E.
  pose proof (root_step root w) as R. cbv zeta in R.
  destruct ((if negb (IsAbs root) then Abs root else ret (Ok root)) w)
    as [[root'|e0] w1]; cbn [fst snd] in R; [|discriminate E].
  destruct R as (Rf & Ri & Rc & Rs & Rw & Rd & Ro & Rr).
  unfold bind at 1 in E.
  pose proof (MkdirAll_spec (Join [root'; lockId]) w1) as S. cbv zeta in S.
  destruct (MkdirAll (Join [root'; lockId]) w1) as [[e|] w2];
    cbn [fst snd] in S; [discriminate E|].
  destruct S as (Sf & Si & Sc & Ss & Sw & _ & _ & So & Sdirs & Sex).
  unfold ret in E. injection E as <- <-.
  exists root'. repeat split; try congruence.
  - intros x Hx. rewrite <- Rf. apply (existsb_false _ _ Sex) in Hx.
    apply bool_decide_eq_false in Hx.
    destruct (files w1 !! x); [exfalso; apply Hx; eauto | reflexivity].
  - intros Ho. apply So, Ro, Ho.
Qed.

Lemma absoluteRoot_rooted root w root' :
  anchored root w -> absoluteRoot root w = Some root' -> isRooted root' = true.
Proof.
  unfold anchored, absoluteRoot, IsAbs.
  destruct (isRooted root) eqn:Hr.
  - now intros _ [= <-].
  - intros [|(d & -> & Hd)]; [discriminate|]. intros [= <-].
    destruct (Join_rooted d root Hd) as (l & _ & ->). cbn [isRooted].
    apply Ascii.eqb_refl.
Qed.

(** The directory of an engine constructed under an absolute root. *)
Lemma NewMutexExt_directory root lockId p r d w m w' :
  NewMutexExt root lockId p r d w = (Ok m, w') ->
  anchored root w ->
  exists l, Forall (fun e => isSegment e = true) l
            /\ directory m = String slash (joinSlash l).
Proof.
  intros (root' & Hr & -> & _)%NewMutexExt_Ok Ha. cbn [directory].
  apply Join_rooted. eapply absoluteRoot_rooted; eassumption.
Qed.

Lemma NewMutexExt_directory_made root lockId p r d w m w' :
  NewMutexExt root lockId p r d w = (Ok m, w') ->
  anchored root w ->
  directory m ∈ dirs w'.
Proof.
  intros E Ha. destruct (NewMutexExt_directory _ _ _ _ _ _ _ _ E Ha) as (l & _ & Hd).
  apply NewMutexExt_Ok in E as (root' & _ & Hm & Hdirs & _).
  subst m. cbn [directory] in *.
  rewrite Hdirs. apply elem_of_union_l, elem_of_list_to_set, list_elem_of_In.
  apply lineage_self. now rewrite Hd.
Qed.

(** The lock file of an engine with a cleaned rooted directory and an
    identifier without slash. *)
Lemma LockPath_child m l :
  Forall (fun e => isSegment e = true) l ->
  directory m = String slash (joinSlash l) ->
  hasByte slash (id m) = false ->
  LockPath m = joinPath (directory m) (id m +:+ "-mutex.lck")
  /\ ~ In (LockPath m) (lineage (directory m)).
Proof.
  intros Hl Hd Hs.
  assert (isSegment (Sprintf_s lockTemplate (id m)) = true) as Hseg
      by now apply lockName_segment.
  assert (LockPath m = joinPath (directory m) (id m +:+ "-mutex.lck")) as HL.
  { unfold LockPath. rewrite Hd, Join_child by assumption.
    unfold Sprintf_s, lockTemplate. cbn [fst snd]. now rewrite app_nil_l. }
  split; [exact HL|].
  rewrite HL. apply child_not_in_lineage; [now rewrite Hd|].
  eapply lastByte_nonEmpty. now rewrite lastByte_append.
Qed.

Lemma existsb_Exists {A} (f : A -> bool) l :
  existsb f l = true <-> Exists (fun x => f x = true) l.
Proof.
  rewrite existsb_exists, List.Exists_exists. reflexivity.
Qed.

(** [NewMutexExt] when no system call fails. *)
Lemma NewMutexExt_run root lockId p r d w root' :
  oracle w = [] -> absoluteRoot root w = Some root' ->
  exists w',
    NewMutexExt root lockId p r d w =
      (if existsb (fun x => bool_decide (is_Some (files w !! x)))
                  (lineage (Join [root'; lockId]))
       then Err (ErrWrap ("cannot create directory (" +:+ root' +:+ ")") ErrNotDir)
       else Ok (mkMutex (ToLower lockId) (Join [root'; lockId]) d
                        (if p <=? 0 then DefaultPulse else p)
                        (if r <=? 0 then DefaultRefresh else r)),
       w')
    /\ oracle w' = [].
Proof.
  intros Ho Hr. unfold NewMutexExt. unfold bind at 1.
  pose proof (root_step root w) as R. cbv zeta in R.
  destruct ((if negb (IsAbs root) then Abs root else ret (Ok root)) w)
    as [r1 w1]; cbn [fst snd] in R.
  destruct R as (Rf & _ & _ & _ & _ & _ & Ro & _).
  destruct (Ro Ho) as [Ho1 Hfst]. rewrite (Hfst _ Hr). clear Hfst Ro.
  unfold bind at 1.
  pose proof (MkdirAll_spec (Join [root'; lockId]) w1) as S. cbv zeta in S.
  destruct (MkdirAll (Join [root'; lockId]) w1) as [e w2]; cbn [fst snd] in S.
  destruct S as (_ & _ & _ & _ & _ & _ & _ & So & _).
  destruct (So Ho1) as [Ho2 He]. clear So. rewrite Rf in He. rewrite He.
  exists w2. split; [|exact Ho2].
  destruct (existsb _ _); reflexivity.
Qed.

(** [NewMutexExt] touches the directories only, and only adds some. *)
Lemma NewMutexExt_effects root lockId p r d w :
  let w' := snd (NewMutexExt root lockId p r d w) in
  files w' = files w /\ inodes w' = inodes w /\ clock w' = clock w
  /\ dirs w ⊆ dirs w'.
Proof.
  cbv zeta. unfold NewMutexExt, bind.
  pose proof (root_step root w) as R. cbv zeta in R.
  destruct ((if negb (IsAbs root) then Abs root else ret (Ok root)) w)
    as [[root'|e0] w1]; cbn [fst snd] in R;
    destruct R as (Rf & Ri & Rc & _ & _ & Rd & _ & _);
    [|unfold ret; cbn [snd]; rewrite Rd; auto].
  pose proof (MkdirAll_spec (Join [root'; lockId]) w1) as S. cbv zeta in S.
  destruct (MkdirAll (Join [root'; lockId]) w1) as [[e|] w2]; cbn [fst snd] in S;
    destruct S as (Sf & Si & Sc & _ & _ & Sd & _);
    unfold ret; cbn [snd]; rewrite <- Rd; repeat split; congruence || auto.
Qed.

Lemma When_effects m w :
  let w' := snd (When m w) in
  files w' = files w /\ inodes w' = inodes w /\ clock w' = clock w
  /\ dirs w' = dirs w.
Proof.
  unfold When, readTimestamp, ReadFile, contents. unfold_m. cbn.
  destruct (oracle w) as [|[] o]; cbn;
    try (destruct (files w !! LockPath m); cbn;
         try destruct (ParseInt _) as [z|]; cbn;
         try destruct (negb (z =? 0)); cbn);
    repeat split.
Qed.

End ConstructionFacts.

(* ===================================================================== *)
(** ** Facts about the command line *)
(* ===================================================================== *)

Module CliFacts.
Import Sys Mutex Spec GoStr GoStrFacts SysFacts NameFacts EngineFacts LogFacts
  ContentionFacts BlockedFacts StableFacts AcquireFacts PathFacts
  ConstructionFacts Cli CliSpec.
Local Open Scope sys_scope.

(** *** Blank strings *)

Lemma trimLeft_spaces s :
  Forall (fun c => isSpace1 c = true) (list_ascii_of_string s) ->
  trimLeft s = "".
Proof.
  induction s as [|c s IH]; [reflexivity|]. cbn [list_ascii_of_string].
  intros [Hc Hs]%Forall_cons. cbn [trimLeft]. rewrite Hc. now apply IH.
Qed.

Lemma isEmptyStr_spaces s :
  Forall (fun c => isSpace1 c = true) (list_ascii_of_string s) ->
  isEmptyStr s = true.
Proof.
  intros H. unfold isEmptyStr, TrimSpace. now rewrite trimLeft_spaces.
Qed.

Lemma isEmptyStr_plain s a z :
  firstByte s = Some a -> plain a = true ->
  lastByte s = Some z -> plain z = true ->
  isEmptyStr s = false.
Proof.
  intros Ha Pa Hz Pz. unfold isEmptyStr.
  rewrite (TrimSpace_plain s a z) by assumption.
  destruct s; [discriminate | reflexivity].
Qed.

(** *** The program name *)

Lemma dropSlashes_keeps c r :
  c <> slash -> dropSlashes (String c r) = String c r.
Proof.
  intros H. cbn [dropSlashes].
  destruct (Ascii.eqb_spec c slash); [contradiction | reflexivity].
Qed.

Lemma rev_lastByte s c : lastByte s = Some c -> exists r, GoStr.rev s = String c r.
Proof.
  intros H. pose proof (firstByte_rev s) as F. rewrite H in F.
  destruct (GoStr.rev s) as [|c' r]; [discriminate|].
  injection F as ->. eauto.
Qed.

Lemma split_slash a b :
  split (a +:+ String slash b) = (split a ++ split b)%list.
Proof.
  induction a as [|c a IH]; [reflexivity|].
  rewrite app_cons. cbn [split]. rewrite IH.
  destruct (Ascii.eqb c slash); [reflexivity|].
  pose proof (split_not_nil a) as Hn.
  destruct (split a) as [|h r]; [congruence | reflexivity].
Qed.

Lemma noslash_lastByte t c :
  hasByte slash t = false -> lastByte t = Some c -> c <> slash.
Proof.
  induction t as [|a t IH]; [discriminate|]. cbn [hasByte lastByte].
  intros [Ha Ht]%orb_false_elim. destruct (lastByte t) as [d|].
  - intros [= <-]. now apply IH.
  - intros [= <-] ->. now rewrite Ascii.eqb_refl in Ha.
Qed.

Lemma nonEmpty_lastByte t : nonEmpty t = true -> is_Some (lastByte t).
Proof.
  destruct t as [|a t]; [discriminate|]. intros _. cbn [lastByte].
  destruct (lastByte t); eauto.
Qed.

(** [path.Base] of a path that ends in an element without slash. *)
Lemma Base_last y t :
  hasByte slash t = false -> nonEmpty t = true ->
  Base (y +:+ String slash t) = t /\ Base t = t.
Proof.
  intros Hs Hn. destruct (nonEmpty_lastByte t Hn) as [c Hc].
  pose proof (noslash_lastByte t c Hs Hc) as Hne.
  assert (forall p, lastByte p = Some c ->
                    GoStr.rev (dropSlashes (GoStr.rev p)) = p) as Strip.
  { intros p (r & Hr)%rev_lastByte. rewrite Hr, dropSlashes_keeps by assumption.
    rewrite <- Hr. apply rev_involutive. }
  split.
  - assert (lastByte (y +:+ String slash t) = Some c) as Hl.
    { rewrite lastByte_append by (cbn [nonEmpty]; reflexivity).
      cbn [lastByte]. now rewrite Hc. }
    unfold Base. destruct (y +:+ String slash t) eqn:E; [discriminate Hl|].
    cbv zeta. rewrite (Strip _ Hl), <- E, split_slash.
    rewrite (split_noslash t Hs), last_last, Hn. reflexivity.
  - unfold Base. destruct t as [|a t']; [discriminate|]. cbv zeta.
    rewrite (Strip _ Hc), (split_noslash _ Hs). cbn [List.last].
    reflexivity.
Qed.

Lemma cutLast_none b s : hasByte b s = false -> cutLast b s = None.
Proof.
  induction s as [|c s IH]; [reflexivity|]. cbn [hasByte cutLast].
  intros [Hc Hs]%orb_false_elim. now rewrite (IH Hs), Hc.
Qed.

Lemma cutLast_append b s t p q :
  cutLast b t = Some (p, q) -> cutLast b (s +:+ t) = Some (s +:+ p, q).
Proof.
  intros H. induction s as [|c s IH]; [exact H|].
  rewrite app_cons. cbn [cutLast]. now rewrite IH.
Qed.

Lemma cutLast_at b name ext :
  hasByte b ext = false ->
  cutLast b (name +:+ String b ext) = Some (name, ext).
Proof.
  intros H. rewrite (cutLast_append b name (String b ext) "" ext).
  - now rewrite app_nil_r.
  - cbn [cutLast]. now rewrite (cutLast_none b ext H), Ascii.eqb_refl.
Qed.






End CliFacts.

(* ===================================================================== *)
(** ** The sample worlds *)
(* ===================================================================== *)

Module SampleFacts.
Import Sys Mutex Spec Samples GoStr GoStrFacts SysFacts.

(** The sample engines in the world where the lock is held. *)
Lemma held_heldWorld m b :
  id m = "lock" -> directory m = "/tmp/lock" -> 0 < pulse m ->
  held m (heldWorld b []).
Proof.
  destruct m as [i d a p r]. cbn [id directory pulse]. intros -> -> Hp.
  constructor; cbn [id directory pulse].
  - eexists. vm_compute. reflexivity.
  - reflexivity.
  - unfold heldWorld, sampleWorld. cbn [dirs]. set_solver.
  - reflexivity.
  - reflexivity.
  - vm_compute. reflexivity.
  - exact Hp.
Qed.

(** A lock stamped one second before the sample clock does not look
    dead to the sample engine in the two seconds that follow. *)
Lemma fresh_lock_alive x :
  clock sampleWorld <= x <= clock sampleWorld + 2 * Second ->
  deadAt sampleMutex (Some 1699999999000) x = false.
Proof.
  unfold sampleWorld, Second, Millisecond, Nanosecond. cbn [clock]. intros Hx.
  unfold deadAt. cbn [deadAgeRecovery sampleMutex].
  assert (Int64.in_range x) as Hr
      by (unfold Int64.in_range, Int64.min_int, Int64.max_int, Int64.half; lia).
  rewrite (Int64Facts.wrap_small x Hr).
  unfold nano2Millis, Int64.div, Int64.sub.
  pose proof (Z.quot_rem' x 1000000) as E.
  pose proof (Z.rem_bound_pos x 1000000 ltac:(lia) ltac:(lia)) as B.
  rewrite Int64Facts.wrap_small
    by (unfold Int64.in_range, Int64.min_int, Int64.max_int, Int64.half; lia).
  apply andb_false_intro2. apply andb_false_intro2.
  change (millis DefaultDeadTimeout) with 3600000.
  rewrite Z.gtb_ltb. apply Z.ltb_ge. lia.
Qed.

(** The sample engines in the world where the lock is free. *)
Lemma free_sampleWorld m :
  id m = "lock" -> directory m = "/tmp/lock" -> free m sampleWorld.
Proof.
  destruct m as [i d a p r]. cbn [id directory]. intros -> ->.
  constructor; cbn [id directory].
  - vm_compute. reflexivity.
  - reflexivity.
  - unfold sampleWorld. cbn [dirs]. set_solver.
  - reflexivity.
  - reflexivity.
  - vm_compute. reflexivity.
Qed.

End SampleFacts.

(* ===================================================================== *)
(** ** The properties of the lock engine *)
(* ===================================================================== *)

Import Sys Mutex Spec Samples GoStr GoStrFacts SysFacts NameFacts EngineFacts
  LogFacts ContentionFacts BlockedFacts SampleFacts
  StableFacts AcquireFacts ExclusionFacts PathFacts ConstructionFacts
  Cli CliSpec CliFacts.
Local Open Scope sys_scope.

(* ===================================================================== *)
(** ** Construction *)
(* ===================================================================== *)

(** C8. A successful construction stores the default pulse (500 ms) and
    the default refresh (10 s) in place of a non-positive argument, keeps
    a positive argument, and stores the dead-age threshold as passed. *)
Theorem NewMutexExt_defaults root lockId p r d w m w' :
  NewMutexExt root lockId p r d w = (Ok m, w') ->
  (p <= 0 -> pulse m = 500 * Millisecond)
  /\ (0 < p -> pulse m = p)
  /\ (r <= 0 -> refresh m = 10 * Second)
  /\ (0 < r -> refresh m = r)
  /\ deadAgeRecovery m = d.
Proof.
  unfold NewMutexExt, bind.
  destruct ((if negb (IsAbs root) then Abs root else ret (Ok root)) w)
    as [[root'|e] w1]; [|discriminate].
  destruct (MkdirAll _ w1) as [[e|] w2]; [discriminate|].
  unfold ret. intros [= <- <-]. cbn [pulse refresh deadAgeRecovery].
  unfold DefaultPulse, DefaultRefresh.
  destruct (Z.leb_spec p 0), (Z.leb_spec r 0); repeat split; intros; lia.
Qed.

Lemma NewMutexExt_defaults_witness :
  let args := NewMutexExt "/tmp" "lock" 0 (-5) 0 sampleWorld in
  exists m, fst args = Ok m
            /\ pulse m = 500 * Millisecond /\ refresh m = 10 * Second
            /\ deadAgeRecovery m = 0.
Proof.
  set (m := mkMutex "lock" "/tmp/lock" 0 DefaultPulse DefaultRefresh).
  assert (NewMutexExt "/tmp" "lock" 0 (-5) 0 sampleWorld
          = (Ok m, snd (NewMutexExt "/tmp" "lock" 0 (-5) 0 sampleWorld))) as E
      by (vm_compute; reflexivity).
  destruct (NewMutexExt_defaults _ _ _ _ _ _ _ _ E) as (Hp & _ & Hr & _ & Hd).
  exists m. cbn zeta. rewrite E. split; [reflexivity|].
  split; [apply Hp; lia|]. split; [apply Hr; lia | exact Hd].
Defined.

(** C1, on the code. The two identifiers [Lock] and [lock] are equal up
    to case and both constructions succeed with the same root; the file
    names agree but the directories, built from the identifier as
    passed, do not: the lock paths differ. *)
Theorem LockPath_differs_by_case :
  ToLower "Lock" = ToLower "lock"
  /\ exists m1 m2,
      fst (NewMutexExt "/tmp" "Lock" 0 0 0 sampleWorld) = Ok m1
      /\ fst (NewMutexExt "/tmp" "lock" 0 0 0 sampleWorld) = Ok m2
      /\ id m1 = id m2
      /\ LockPath m1 = "/tmp/Lock/lock-mutex.lck"
      /\ LockPath m2 = "/tmp/lock/lock-mutex.lck"
      /\ LockPath m1 <> LockPath m2.
Proof.
  split; [reflexivity|].
  exists (mkMutex "lock" "/tmp/Lock" 0 DefaultPulse DefaultRefresh),
         (mkMutex "lock" "/tmp/lock" 0 DefaultPulse DefaultRefresh).
  repeat split; try (vm_compute; reflexivity).
  vm_compute. discriminate.
Qed.

(* ===================================================================== *)
(** ** Timestamps and the status query *)
(* ===================================================================== *)

(** C10. [When] returns the zero time exactly when [readTimestamp]
    yields 0: when the target lock file is absent or holds no integer,
    when it cannot be read, and also when it exists and stores the
    integer 0, which the status query therefore reports as unlocked. *)
Theorem When_zero_time m w :
  (storedTimestamp w (LockPath m) = Some 0 -> fst (When m w) = zeroTime)
  /\ (storedTimestamp w (LockPath m) = None -> fst (When m w) = zeroTime)
  /\ (hd false (oracle w) = true -> fst (When m w) = zeroTime)
  /\ (fst (When m w) = zeroTime ->
      storedTimestamp w (LockPath m) = Some 0
      \/ storedTimestamp w (LockPath m) = None
      \/ hd false (oracle w) = true).
Proof.
  rewrite When_eq, readTimestamp_stored. cbv zeta.
  destruct (hd false (oracle w)).
  - repeat split; auto.
  - destruct (storedTimestamp w (LockPath m)) as [ts|];
      cbn [from_option]; unfold Datatypes.id.
    + destruct (Z.eqb_spec ts 0) as [->|Hne]; cbn [negb].
      * repeat split; auto.
      * repeat split; try congruence.
        intros H. now apply Unix_not_zeroTime in H.
    + repeat split; auto.
Qed.

Lemma When_zero_time_witness :
  storedTimestamp (heldWorld "0" []) (LockPath sampleMutex) = Some 0
  /\ fst (When sampleMutex (heldWorld "0" [])) = zeroTime
  /\ fst (When sampleMutex sampleWorld) = zeroTime.
Proof.
  assert (storedTimestamp (heldWorld "0" []) (LockPath sampleMutex)
          = Some 0) as E by (vm_compute; reflexivity).
  assert (storedTimestamp sampleWorld (LockPath sampleMutex) = None) as N
      by (vm_compute; reflexivity).
  split; [exact E|]. split.
  - exact (proj1 (When_zero_time _ _) E).
  - exact (proj1 (proj2 (When_zero_time _ _)) N).
Defined.

(** C7, as far as it holds. After [os.Create] of the lock path and a
    successful [writeCurrentTimestamp], the file holds the decimal
    numeral of the current millisecond and a newline; [readTimestamp]
    reads the same number back, and for a number other than 0 [When]
    returns the instant that many milliseconds after the epoch. *)
Theorem timestamp_round_trip m w f w1 ts w2 :
  Create (LockPath m) w = (Ok f, w1) ->
  writeCurrentTimestamp f w1 = ((ts, None), w2) ->
  hd false (oracle w2) = false ->
  ts = nano2Millis (Int64.wrap (clock w))
  /\ contents w2 (LockPath m) = Some (FormatInt ts +:+ String "010" "")
  /\ fst (readTimestamp (LockPath m) w2) = ts
  /\ (ts <> 0 ->
      fst (When m w2) = Unix 0 (ts * Millisecond)
      /\ Int64.div (Time_UnixNano (fst (When m w2))) Millisecond = ts).
Proof.
  intros Hc Hw Ho.
  apply Create_ok in Hc as (Hf & Hi & Hclk & _).
  apply writeCurrentTimestamp_ok in Hw as (Hts & Hi2 & Hf2 & _ & _).
  rewrite Hi in Hi2. cbn [default] in Hi2. rewrite app_nil_l in Hi2.
  rewrite Hclk in Hts.
  assert (contents w2 (LockPath m) = Some (Sprintf_d_nl ts)) as Hcont.
  { unfold contents. rewrite Hf2, Hf, Hi2. reflexivity. }
  pose proof (Int64Facts.wrap_in_range (clock w)) as Hr.
  assert (Int64.in_range ts) as Hts_r
      by (rewrite Hts; now apply nano2Millis_in_range).
  assert (fst (readTimestamp (LockPath m) w2) = ts) as Hread.
  { rewrite readTimestamp_eq, Hcont by assumption.
    now rewrite ParseInt_TrimSpace_Sprintf. }
  split; [exact Hts|]. split; [exact Hcont|]. split; [exact Hread|].
  intros Hne. rewrite When_eq, Hread. cbv zeta.
  destruct (Z.eqb_spec ts 0) as [|_]; [contradiction|]. cbn [negb].
  assert (Int64.mul ts Millisecond = ts * Millisecond) as ->.
  { apply Int64Facts.wrap_small. rewrite Hts. now apply nano2Millis_range. }
  split; [reflexivity|].
  unfold Time_UnixNano, Unix. rewrite Z.mul_0_l, Z.add_0_l.
  rewrite Int64Facts.wrap_small by (rewrite Hts; now apply nano2Millis_range).
  unfold Int64.div, Millisecond, Nanosecond.
  rewrite Z.mul_1_r. apply Z.quot_mul. lia.
Qed.

Lemma timestamp_round_trip_witness :
  let m := sampleMutex in
  let r1 := Create (LockPath m) sampleWorld in
  let r2 := writeCurrentTimestamp 0%nat (snd r1) in
  fst r1 = Ok 0%nat /\ fst r2 = (1700000000000, None)
  /\ fst (readTimestamp (LockPath m) (snd r2)) = 1700000000000
  /\ fst (When m (snd r2)) = Unix 0 (1700000000000 * Millisecond).
Proof.
  cbv zeta.
  set (w1 := snd (Create (LockPath sampleMutex) sampleWorld)).
  set (w2 := snd (writeCurrentTimestamp 0%nat w1)).
  assert (Create (LockPath sampleMutex) sampleWorld = (Ok 0%nat, w1)) as E1
      by (vm_compute; reflexivity).
  assert (writeCurrentTimestamp 0%nat w1 = ((1700000000000, None), w2)) as E2
      by (vm_compute; reflexivity).
  assert (hd false (oracle w2) = false) as E3 by (vm_compute; reflexivity).
  destruct (timestamp_round_trip _ _ _ _ _ _ E1 E2 E3) as (_ & _ & Hr & Hw).
  rewrite E1, E2. split; [reflexivity|]. split; [reflexivity|].
  split; [exact Hr|]. apply Hw. discriminate.
Defined.

(** C7 as stated fails when the millisecond written is 0: the file
    holds [0], [readTimestamp] returns 0, and [When] answers with the
    zero time (year 1), not with the epoch. *)
Lemma round_trip_fails_at_epoch :
  ~ (forall m w f w1 ts w2,
        Create (LockPath m) w = (Ok f, w1) ->
        writeCurrentTimestamp f w1 = ((ts, None), w2) ->
        hd false (oracle w2) = false ->
        fst (When m w2) = Unix 0 (ts * Millisecond)
        /\ Int64.div (Time_UnixNano (fst (When m w2))) Millisecond = ts).
Proof.
  intros H.
  set (w1 := snd (Create (LockPath sampleMutex) epochWorld)).
  set (w2 := snd (writeCurrentTimestamp 0%nat w1)).
  assert (Create (LockPath sampleMutex) epochWorld = (Ok 0%nat, w1)) as E1
      by (vm_compute; reflexivity).
  assert (writeCurrentTimestamp 0%nat w1 = ((0, None), w2)) as E2
      by (vm_compute; reflexivity).
  assert (hd false (oracle w2) = false) as E3 by (vm_compute; reflexivity).
  destruct (H _ _ _ _ _ _ E1 E2 E3) as [Hw _].
  vm_compute in Hw. discriminate.
Qed.

(* ===================================================================== *)
(** ** Reclaiming a dead lock *)
(* ===================================================================== *)

(** C9. The reclamation step looks at nothing but the integer stored in
    the target lock file. When the file is absent, cannot be read, holds
    no integer, or holds an integer that is not positive, the step
    leaves the file system and the clock alone and calls neither
    [os.Remove] nor [time.Sleep], whatever the threshold and the clock;
    the files change only for a positive timestamp older than the
    threshold. *)
Theorem reclaimDead_needs_positive_timestamp m target w :
  let w' := snd (reclaimDead m target w) in
  ((files w !! target = None
    \/ hd false (oracle w) = true
    \/ storedTimestamp w target = None
    \/ (exists ts, storedTimestamp w target = Some ts /\ ts <= 0)) ->
   files w' = files w /\ inodes w' = inodes w /\ clock w' = clock w
   /\ (log w' = log w \/ log w' = EvReadFile target :: log w))
  /\ (files w' <> files w ->
      0 <= deadAgeRecovery m
      /\ exists ts, storedTimestamp w target = Some ts /\ 0 < ts /\ isDead m w ts).
Proof.
  cbv zeta. destruct (reclaimDead_cases m target w)
    as [Hsame | (Hd & Ho & (ts & Hs & Hpos & Hdead) & Hlog)].
  - split; [intros _; exact Hsame|].
    intros Hne. destruct Hsame as [Hf _]. contradiction.
  - split; [|intros _; eauto].
    intros [Habs | [Hbad | [Hnone | (ts' & Hs' & Hle)]]]; exfalso.
    + unfold storedTimestamp, contents in Hs. rewrite Habs in Hs. discriminate.
    + congruence.
    + congruence.
    + rewrite Hs in Hs'. injection Hs' as <-. lia.
Qed.

(** The engine whose threshold is 0, at the sample clock; the lock file
    holds [-5], or text that is no number. *)
Lemma reclaimDead_needs_positive_timestamp_witness :
  let m := eagerMutex in
  let w1 := heldWorld "-5" [] in
  let w2 := heldWorld "stale" [] in
  (files (snd (reclaimDead m (LockPath m) w1)) = files w1
   /\ log (snd (reclaimDead m (LockPath m) w1)) = [EvReadFile (LockPath m)])
  /\ files (snd (reclaimDead m (LockPath m) w2)) = files w2.
Proof.
  cbv zeta.
  set (m := eagerMutex).
  assert (storedTimestamp (heldWorld "-5" []) (LockPath m) = Some (-5)) as E1
      by (vm_compute; reflexivity).
  assert (storedTimestamp (heldWorld "stale" []) (LockPath m) = None) as E2
      by (vm_compute; reflexivity).
  pose proof (proj1 (reclaimDead_needs_positive_timestamp m (LockPath m)
                       (heldWorld "-5" []))) as H1.
  pose proof (proj1 (reclaimDead_needs_positive_timestamp m (LockPath m)
                       (heldWorld "stale" []))) as H2.
  cbv zeta in H1, H2.
  destruct H1 as (Hf1 & _ & _ & Hl1).
  { right. right. right. exists (-5). split; [exact E1 | lia]. }
  destruct H2 as (Hf2 & _).
  { right. right. left. exact E2. }
  split; [split; [exact Hf1|] | exact Hf2].
  vm_compute. reflexivity.
Defined.

(** X10. A lock file that stores no positive timestamp is never reclaimed:
    no acquire call, under any context and whatever else fails, removes
    it, changes its contents, or succeeds. *)
Theorem unstamped_lock_stays m fuel ctx w i r w' :
  files w !! LockPath m = Some i ->
  unstamped (storedTimestamp w (LockPath m)) ->
  LockWithContext fuel m ctx w = (r, w') ->
  r <> Some None
  /\ files w' !! LockPath m = Some i
  /\ contents w' (LockPath m) = contents w (LockPath m).
Proof.
  intros Ht Hst E.
  exact (LockWithContext_blocked m fuel ctx w i r w' Ht (or_introl Hst) E).
Qed.

(** The lock file that the swallowed write failure leaves empty is such
    a file: once it is there, no acquire ever succeeds. *)
Corollary empty_lock_file_stays fuel ctx r w' :
  let w := snd (TryLock 1 slowMutex 0
                  (staleWorld [false; false; false; false;
                               false; false; false; true])) in
  LockWithContext fuel slowMutex ctx w = (r, w') ->
  r <> Some None /\ contents w' (LockPath slowMutex) = Some "".
Proof.
  cbv zeta. intros E.
  eapply (LockWithContext_blocked _ _ _ _ 2%nat) in E as (Hr & _ & Hc).
  - split; [exact Hr|]. rewrite Hc. vm_compute. reflexivity.
  - vm_compute. reflexivity.
  - left. vm_compute. exact I.
Qed.

(** C2, as far as it holds. An engine constructed with a negative
    dead-age threshold never reclaims: in no acquire call, however long
    it runs and under whatever context, is a file read, is the target
    lock file removed, or is the uninterruptible sleep taken. The same
    holds for [TryLock]. Reclamation therefore happens only with a
    threshold of 0 or more. *)
Theorem no_reclaim_below_zero root lockId p r d w0 m w1 :
  NewMutexExt root lockId p r d w0 = (Ok m, w1) ->
  d < 0 ->
  forall fuel w,
    (forall ctx,
        logExtends (quiet (LockPath m)) w (snd (LockWithContext fuel m ctx w)))
    /\ (forall timeout,
        logExtends (quiet (LockPath m)) w (snd (TryLock fuel m timeout w))).
Proof.
  intros Hnew Hd fuel w.
  assert (deadAgeRecovery m < 0) as Hoff
      by (erewrite NewMutexExt_deadAge; eassumption).
  split.
  - intros ctx. now apply logs_LockWithContext.
  - intros timeout. unfold TryLock.
    apply logs_bind; [|intros; now apply logs_LockWithContext].
    destruct (timeout >? 0); [|apply logs_ret].
    unfold WithTimeout. apply logs_bind; [apply logs_get | intros; apply logs_ret].
Qed.

Lemma no_reclaim_below_zero_witness :
  exists m,
    fst (NewMutexExt "/tmp" "lock" 0 0 (-1) sampleWorld) = Ok m
    /\ logExtends (quiet (LockPath m)) (staleWorld [])
         (snd (LockWithContext 2 m Background (staleWorld []))).
Proof.
  set (m := mkMutex "lock" "/tmp/lock" (-1) DefaultPulse DefaultRefresh).
  assert (NewMutexExt "/tmp" "lock" 0 0 (-1) sampleWorld
          = (Ok m, snd (NewMutexExt "/tmp" "lock" 0 0 (-1) sampleWorld))) as E
      by (vm_compute; reflexivity).
  exists m. split; [rewrite E; reflexivity|].
  exact (proj1 (no_reclaim_below_zero _ _ _ _ _ _ _ _ E ltac:(lia)
                  2%nat (staleWorld [])) Background).
Defined.

(** C2 as stated fails at the threshold 0: the engine reads the stale
    lock file, removes it and sleeps. *)
Lemma reclaim_at_threshold_zero :
  ~ (forall root lockId p r d w0 m w1,
        NewMutexExt root lockId p r d w0 = (Ok m, w1) ->
        d <= 0 ->
        forall fuel w ctx,
          logExtends (quiet (LockPath m)) w (snd (LockWithContext fuel m ctx w))).
Proof.
  intros H.
  set (m := mkMutex "lock" "/tmp/lock" 0 DefaultPulse DefaultRefresh).
  assert (NewMutexExt "/tmp" "lock" 0 0 0 sampleWorld
          = (Ok m, snd (NewMutexExt "/tmp" "lock" 0 0 0 sampleWorld))) as E
      by (vm_compute; reflexivity).
  specialize (H _ _ _ _ _ _ _ _ E ltac:(lia) 1%nat (staleWorld []) Background).
  destruct H as (evs & Hlog & Hq).
  change (log (staleWorld [])) with (@nil event) in Hlog.
  rewrite List.app_nil_r in Hlog. subst evs.
  rewrite List.Forall_forall in Hq.
  apply (Hq (EvRemove (LockPath m))); [|reflexivity].
  vm_compute. tauto.
Qed.

(* ===================================================================== *)
(** ** Acquire and release *)
(* ===================================================================== *)



(** Where the timeout is honoured. A timeout of 0 or less never
    produces the timeout error: the engine waits under
    [context.Background()], and as long as the lock is held and does
    not look dead it is still polling, whatever the number of
    iterations. With a positive timeout, and the lock held and not
    looking dead throughout, [TryLock] returns [expired], exactly when
    the timeout elapses, and leaves the files as they were. In any
    world, a turn of the loop whose publish fails returns [expired]
    when the deadline comes before the end of the pulse, at the
    deadline. *)
Theorem TryLock_timeout :
  (forall fuel m timeout w,
      timeout <= 0 -> fst (TryLock fuel m timeout w) <> Some (Some expired))
  /\ (forall fuel m timeout w,
        timeout <= 0 -> held m w ->
        (forall x, clock w <= x ->
                   deadAt m (storedTimestamp w (LockPath m)) x = false) ->
        fst (TryLock fuel m timeout w) = None)
  /\ (forall m timeout w,
        0 < timeout -> held m w ->
        (forall x, clock w <= x <= clock w + timeout ->
                   deadAt m (storedTimestamp w (LockPath m)) x = false) ->
        exists n, forall fuel, (n <= fuel)%nat ->
          exists w1,
            TryLock fuel m timeout w = (Some (Some expired), w1)
            /\ clock w1 = clock w + timeout /\ files w1 = files w)
  /\ (forall fuel m deadline c t last w last' w1 w2,
        refreshIfDue m c t last w = (Ok last', w1) ->
        publish m c t last' w1 = (None, w2) ->
        deadline < clock w2 + Z.max (pulse m) 0 ->
        exists w3,
          lockLoop (S fuel) m (Some deadline) c t last w
          = (Some (Some expired), w3)
          /\ clock w3 = Z.max (clock w2) deadline).
Proof.
  split; [|split; [|split]];
    [| | |intros fuel m deadline c t last w last' w1 w2 E1 E2 Hcut;
          destruct (lockLoop_expired_at_wait fuel m deadline c t last w
                      last' w1 w2 E1 E2 Hcut) as (w3 & E & C & _);
          eauto].
  - intros fuel m timeout w Ht. unfold TryLock, bind.
    destruct (Z.gtb_spec timeout 0); [lia|]. unfold ret.
    apply LockWithContext_background_not_expired.
  - intros fuel m timeout w Ht H Halive. unfold TryLock. unfold bind at 1.
    destruct (Z.gtb_spec timeout 0); [lia|]. unfold ret at 1.
    unfold LockWithContext, Background. unfold bind at 1.
    destruct (held_polling m w H) as (w1 & i & -> & Hne & P & C & _).
    unfold bind.
    destruct (lockLoop_polls_on m _ _ i _ _ Hne (held_pulse _ _ H) fuel 0 w1 P) as (w2 & -> & _).
    + intros x Hx. apply Halive. lia.
    + reflexivity.
  - intros m timeout w Ht H Halive.
    exists (Z.to_nat (timeout / pulse m) + 1)%nat. intros fuel Hfuel.
    unfold TryLock. unfold bind at 1.
    destruct (Z.gtb_spec timeout 0); [|lia].
    unfold WithTimeout, bind at 1, get, ret at 1.
    unfold LockWithContext. unfold bind at 1.
    destruct (held_polling m w H) as (w1 & i & -> & Hne & P & C & D).
    unfold bind at 1.
    destruct (lockLoop_expires m _ _ i _ _ Hne (held_pulse _ _ H)
                (clock w + timeout) _ fuel 0 w1 Hfuel P)
      as (w2 & -> & C2 & F2 & O2).
    + lia.
    + rewrite C. pose proof (pulses_cover timeout (pulse m) Ht (held_pulse _ _ H)).
      lia.
    + intros x Hx. apply Halive. lia.
    + unfold bind.
      destruct (Remove (candidateName m w) w2) as [r w3] eqn:ER.
      apply Remove_spec in ER as (Hok & _ & _ & Hgood & _ & Hclk).
      assert (r = None) as ->.
      { apply Hgood; [now rewrite O2|]. rewrite F2.
        destruct P as (_ & Hc & _). eauto. }
      destruct (Hok eq_refl) as [_ Hf].
      unfold ret. exists w3. split; [reflexivity|].
      split; [congruence|]. rewrite Hf, F2. exact D.
Qed.

Lemma TryLock_timeout_witness :
  fst (TryLock 3 sampleMutex 0 (staleWorld [])) <> Some (Some expired)
  /\ fst (TryLock 40 patientMutex 0 (heldWorld "1699999999000" [])) = None
  /\ exists n, forall fuel, (n <= fuel)%nat ->
       exists w1,
         TryLock fuel sampleMutex (2 * Second) (heldWorld "1699999999000" [])
         = (Some (Some expired), w1)
         /\ clock w1 = clock (heldWorld "1699999999000" []) + 2 * Second
         /\ files w1 = files (heldWorld "1699999999000" []).
Proof.
  destruct TryLock_timeout as (H1 & H2 & H3 & _).
  assert (storedTimestamp (heldWorld "1699999999000" []) (LockPath sampleMutex)
          = Some 1699999999000) as Es by (vm_compute; reflexivity).
  split; [apply H1; lia|]. split.
  - apply H2; [lia | | intros x _; reflexivity].
    apply held_heldWorld; [reflexivity | reflexivity | vm_compute; reflexivity].
  - apply H3; [vm_compute; reflexivity | |].
    + apply held_heldWorld; [reflexivity | reflexivity | vm_compute; reflexivity].
    + intros x Hx. rewrite Es. now apply fresh_lock_alive.
Defined.

(** C5, on the code. The lock file is stale and [TryLock] is given one
    second, by an engine whose pulse is 10 s. The timeout fires while
    the engine is in the sleep that follows the removal of the dead
    lock, before [os.Link] has run: the lock is not yet acquired. The
    call does not return [expired]: it goes on, links its candidate
    after the sleep and returns [nil] 20 s after it began, with a lock
    file stamped 19 s after the deadline. With a live lock file the
    same call returns [expired], at the deadline, from the wait of
    line 118. *)
Theorem TryLock_nil_after_timeout :
  let w := staleWorld [] in
  let r := TryLock 1 slowMutex (1 * Second) w in
  let w0 := heldWorld "1699999999000" [] in
  let r0 := TryLock 2 slowMutex (1 * Second) w0 in
  fst r = Some None
  /\ clock (snd r) = clock w + 20 * Second
  /\ (exists before after,
        log (snd r)
        = (after ++ EvLink (candidateName slowMutex w) targetPath
                 :: EvSleep (20 * Second) :: before)%list)
  /\ storedTimestamp (snd r) targetPath = Some 1700000020000
  /\ fst r0 = Some (Some expired)
  /\ clock (snd r0) = clock w0 + 1 * Second.
Proof.
  cbv zeta.
  split; [vm_compute; reflexivity|]. split; [vm_compute; reflexivity|].
  split.
  - exists [EvRemove targetPath; EvReadFile targetPath;
            EvWrite 2 (Sprintf_d_nl 1700000000000);
            EvCreate (candidateName slowMutex (staleWorld []));
            EvCreateTemp (candidateName slowMutex (staleWorld []))].
    exists [EvRemove (candidateName slowMutex (staleWorld []));
            EvWrite 2 (Sprintf_d_nl 1700000020000); EvCreate targetPath].
    vm_compute. reflexivity.
  - split; [vm_compute; reflexivity|]. split; vm_compute; reflexivity.
Qed.

(** C3, on the code. The lock file is stale and [TryLock] is given
    100 ms. The engine removes the file and sleeps 2 x 500 ms in
    [time.Sleep], which does not watch the context: the call returns
    one second after it began, 900 ms past the deadline, and with
    success. When the link then fails, the call does return [expired],
    again only after the full second. *)
Theorem reclaim_sleep_outlasts_deadline :
  let w := staleWorld [] in
  let r := TryLock 1 sampleMutex (100 * Millisecond) w in
  let w' := staleWorld [false; false; false; false; false; true] in
  let r' := TryLock 1 sampleMutex (100 * Millisecond) w' in
  fst r = Some None
  /\ clock (snd r) = clock w + 1 * Second
  /\ In (EvSleep (1 * Second)) (log (snd r))
  /\ fst r' = Some (Some expired)
  /\ clock (snd r') = clock w' + 1 * Second.
Proof.
  cbv zeta.
  split; [vm_compute; reflexivity|]. split; [vm_compute; reflexivity|].
  split; [vm_compute; tauto|].
  split; vm_compute; reflexivity.
Qed.

(** C4, on the code. After a successful link the engine rewrites the
    timestamp of the target (20 s have passed in the reclamation
    sleep, the refresh interval is 1 s). The write fails; the call
    returns [nil] all the same and leaves an empty lock file. No run
    of [publish] returns an error at all. *)
Theorem target_write_failure_swallowed :
  let w := staleWorld [false; false; false; false; false; false; false; true] in
  let r := TryLock 1 slowMutex 0 w in
  (forall m c t last w0 e w1, publish m c t last w0 <> (Some (Some e), w1))
  /\ fst r = Some None
  /\ In (EvWrite 2 (Sprintf_d_nl 1700000020000)) (log (snd r))
  /\ contents (snd r) targetPath = Some ""
  /\ oracle (snd r) = [].
Proof.
  cbv zeta. split.
  - intros m c t last w0 e w1 H. apply publish_returns_nil in H. discriminate.
  - split; [vm_compute; reflexivity|]. split; [vm_compute; tauto|].
    split; vm_compute; reflexivity.
Qed.

(** ... and so by [LockWithContext], from the first turn of the loop. *)
Lemma candidate_write_failure_returned :
  fst (TryLock 1 sampleMutex 0 (staleWorld [false; false; true]))
  = Some (Some (ErrWrap "cannot write current timestamp for candidate lock lock"
                        ErrIO)).
Proof. vm_compute. reflexivity. Qed.

(* ===================================================================== *)
(** ** Further properties of the engine *)
(* ===================================================================== *)

(** *** The acquire on a free lock *)





(** X3. After an acquire on a free lock, [When] reports the millisecond of
    the acquire, unless that millisecond is the epoch itself. *)
Theorem acquire_then_When m fuel ctx w w' :
  free m w ->
  LockWithContext (S fuel) m ctx w = (Some None, w') ->
  nowOf w <> 0 ->
  fst (When m w') = Unix 0 (Int64.mul (nowOf w) Millisecond)
  /\ IsZero (fst (When m w')) = false.
Proof.
  intros H E Hnz. destruct (LockWithContext_free m fuel ctx w H)
    as (w1 & E1 & F & I & _ & O1).
  rewrite E in E1. injection E1 as <-.
  rewrite When_eq, readTimestamp_stored, O1. cbn [hd]. cbv zeta.
  unfold storedTimestamp, contents. rewrite F, lookup_insert_eq, I.
  unfold default, Datatypes.id. cbn [from_option].
  rewrite ParseInt_TrimSpace_Sprintf
    by (apply nano2Millis_in_range, Int64Facts.wrap_in_range).
  cbn [from_option].
  destruct (Z.eqb_spec (nowOf w) 0) as [|_]; [contradiction|]. cbn [negb].
  split; [reflexivity|].
  unfold IsZero. apply Z.eqb_neq, Unix_not_zeroTime.
Qed.

Lemma acquire_then_When_witness :
  let w' := snd (LockWithContext 1 sampleMutex Background sampleWorld) in
  fst (When sampleMutex w') = Unix 0 (Int64.mul (nowOf sampleWorld) Millisecond)
  /\ IsZero (fst (When sampleMutex w')) = false.
Proof.
  cbv zeta.
  set (w' := snd (LockWithContext 1 sampleMutex Background sampleWorld)).
  assert (LockWithContext 1 sampleMutex Background sampleWorld = (Some None, w'))
    as E by (vm_compute; reflexivity).
  assert (nowOf sampleWorld <> 0) as Hnz by (vm_compute; discriminate).
  exact (acquire_then_When sampleMutex 0 Background sampleWorld w'
           (free_sampleWorld sampleMutex eq_refl eq_refl) E Hnz).
Defined.

(** *** What an acquire leaves behind *)

(** X4. With no fault ahead, an acquire that returns, with the lock or with an
    error, leaves every name but the lock path as it was: the candidate
    file is gone on every path out of [LockWithContext]. *)
Theorem LockWithContext_frame m fuel ctx w r w' :
  oracle w = [] ->
  LockWithContext fuel m ctx w = (Some r, w') ->
  forall p, p <> LockPath m -> files w' !! p = files w !! p.
Proof.
  intros Ho E p Hp. unfold LockWithContext in E. unfold bind at 1 in E.
  destruct (TempFile _ _ w) as [[c|e] w1] eqn:ET.
  - pose proof (candidate_not_target _ _ _ _ ET) as Hct.
    pose proof (noFaults_TempFile (directory m)
                  (Sprintf_s lockCandidateTemplate (id m)) w) as Ho1.
    rewrite ET in Ho1.
    specialize (Ho1 Ho). cbn [snd] in Ho1.
    apply TempFile_effect in ET as (Hfree & j & Hf1 & _).
    unfold bind at 1 in E.
    destruct (lockLoop fuel m ctx c (LockPath m) 0 w1) as [[res|] w2] eqn:EL;
      [|unfold ret in E; discriminate].
    pose proof (rs_lockLoop _ _ _ (noFaults_stable c (LockPath m)) fuel m ctx 0 w1) as Ho2.
    pose proof (rs_lockLoop _ _ _ (framed_stable c (LockPath m) Hct) fuel m ctx 0 w1) as Hfr.
    rewrite EL in Ho2, Hfr. cbn [snd] in Ho2, Hfr.
    specialize (Ho2 Ho1).
    assert (is_Some (files w1 !! c)) as Hc1
      by (rewrite Hf1, lookup_insert_eq; eauto).
    specialize (Hfr Hc1).
    assert (is_Some (files w2 !! c)) as [j2 Hc2] by (now rewrite (Hfr c Hct)).
    unfold Remove in E. unfold_m. cbn in E. rewrite Ho2 in E. cbn in E.
    rewrite Hc2 in E. cbn in E. injection E as <- <-. cbn.
    destruct (decide (p = c)) as [->|Hpc].
    + now rewrite lookup_delete_eq, Hfree.
    + rewrite lookup_delete_ne by auto. rewrite (Hfr p Hp), Hf1.
      now rewrite lookup_insert_ne.
  - unfold ret in E. injection E as <- <-.
    apply TempFile_effect in ET as [-> _]. reflexivity.
Qed.

Lemma LockWithContext_frame_witness :
  let w := heldWorld "1699999999000" [] in
  let r := LockWithContext 2 sampleMutex (Some (clock w + 1)) w in
  fst r = Some (Some expired)
  /\ files (snd r) !! candidateName sampleMutex w
     = files w !! candidateName sampleMutex w.
Proof.
  cbv zeta.
  set (w := heldWorld "1699999999000" []).
  set (w' := snd (LockWithContext 2 sampleMutex (Some (clock w + 1)) w)).
  assert (LockWithContext 2 sampleMutex (Some (clock w + 1)) w
          = (Some (Some expired), w')) as E by (vm_compute; reflexivity).
  split; [rewrite E; reflexivity|].
  assert (candidateName sampleMutex w <> LockPath sampleMutex) as Hp
      by (vm_compute; discriminate).
  exact (LockWithContext_frame sampleMutex 2 (Some (clock w + 1)) w
           (Some expired) w' eq_refl E (candidateName sampleMutex w) Hp).
Defined.

(** X5. The errors an acquire returns: ["expired"], under a context that
    can expire; a failure to create the candidate file; a failure to
    write the candidate file's timestamp. Nothing else: the error
    about the target lock's timestamp is never returned. *)
Theorem LockWithContext_errors fuel m ctx w e w' :
  LockWithContext fuel m ctx w = (Some (Some e), w') ->
  (e = expired /\ is_Some ctx)
  \/ (exists e0, e = ErrWrap ("cannot create candidate lock " +:+ id m) e0)
  \/ (exists e0, e = ErrWrap ("cannot write current timestamp for candidate lock "
                                +:+ id m) e0).
Proof.
  unfold LockWithContext. unfold bind at 1.
  destruct (TempFile _ _ w) as [[c|e1] w1].
  - unfold bind at 1.
    destruct (lockLoop fuel m ctx c (LockPath m) 0 w1) as [[r|] w2] eqn:EL;
      [|unfold ret; discriminate].
    unfold bind. destruct (Remove c w2). unfold ret. intros [= -> <-].
    apply lockLoop_errors in EL as [H|H]; auto.
  - unfold ret. intros [= <- <-]. right. left. now exists e1.
Qed.


Lemma LockWithContext_errors_witness :
  let r := LockWithContext 1 sampleMutex Background
             (staleWorld [false; false; true]) in
  exists e, fst r = Some (Some e)
    /\ ((e = expired /\ is_Some Background)
        \/ (exists e0, e = ErrWrap ("cannot create candidate lock "
                                      +:+ id sampleMutex) e0)
        \/ (exists e0, e = ErrWrap
                             ("cannot write current timestamp for candidate lock "
                                +:+ id sampleMutex) e0)).
Proof.
  cbv zeta.
  set (w := staleWorld [false; false; true]).
  set (e := ErrWrap "cannot write current timestamp for candidate lock lock" ErrIO).
  set (w' := snd (LockWithContext 1 sampleMutex Background w)).
  assert (LockWithContext 1 sampleMutex Background w = (Some (Some e), w'))
    as E by (vm_compute; reflexivity).
  exists e. split; [rewrite E; reflexivity|].
  exact (LockWithContext_errors 1 sampleMutex Background w e w' E).
Defined.



(** *** Locks that are taken over, and locks that are not *)

(** X7. Where [ioutil.TempFile] gives the engine its candidate file
    (no failing system call, the lock directory in place under a name
    that is not empty, an identifier without slash, the candidate name
    unused) and reclaim is enabled, a lock file whose positive
    timestamp is older than the threshold is taken over on the first
    turn of the loop, whatever the context: the old file is removed,
    the engine sleeps twice the pulse interval, and the lock file then
    holds a timestamp of this contender. *)
Theorem reclaim_stale_lock m fuel ctx w ts :
  ready m w ->
  0 <= deadAgeRecovery m ->
  storedTimestamp w (LockPath m) = Some ts -> 0 < ts -> isDead m w ts ->
  exists w',
    LockWithContext (S fuel) m ctx w = (Some None, w')
    /\ files w' = <[LockPath m := freshInode w]> (files w)
    /\ contents w' (LockPath m) =
         Some (Sprintf_d_nl
                 (if Int64.sub (nowOf w') (nowOf w) >? millis (refresh m)
                  then nowOf w' else nowOf w))
    /\ clock w' = clock w + Z.max (Int64.mul (pulse m) 2) 0.
Proof.
  intros H Hd Hs Hts Hdead.
  destruct (TempFile_ready m w H) as (w1 & ET & F1 & O1 & C1 & I1).
  pose proof (candidate_not_target _ _ _ _ ET) as Hct.
  destruct (files w !! LockPath m) as [i|] eqn:Ht;
    [|unfold storedTimestamp, contents in Hs; rewrite Ht in Hs; discriminate].
  assert (i <> freshInode w) as Hij
      by (apply not_eq_sym; eapply freshInode_not_used; exact Ht).
  assert (files w1 !! candidateName m w = Some (freshInode w)) as Hc1
      by (rewrite F1; apply lookup_insert_eq).
  assert (files w1 !! LockPath m = Some i) as Ht1
      by (rewrite F1, lookup_insert_ne by auto; exact Ht).
  assert (storedTimestamp w1 (LockPath m) = Some ts) as Hs1.
  { rewrite <- Hs. unfold storedTimestamp, contents.
    rewrite Ht1, Ht, (I1 i Hij). reflexivity. }
  assert (isDead m w1 ts) as Hdead1 by (unfold isDead, nowOf in *; now rewrite C1).
  destruct (lockLoop_stale fuel m ctx _ _ _ _ ts w1 O1 Hc1 Ht1 Hij Hd Hs1 Hts Hdead1)
    as (w2 & EL & F2 & I2 & C2 & O2).
  assert (files w2 !! candidateName m w = Some (freshInode w)) as Hc2
    by (rewrite F2, lookup_insert_ne by auto; exact Hc1).
  destruct (Remove_present _ _ w2 O2 Hc2) as (w3 & ER & F3 & I3 & C3 & O3).
  exists w3. split.
  { unfold LockWithContext. unfold bind at 1. rewrite ET.
    unfold bind at 1. rewrite EL. unfold bind. rewrite ER. reflexivity. }
  assert (files w3 = <[LockPath m := freshInode w]> (files w)) as F.
  { rewrite F3, F2, F1. apply retire_candidate; [apply (ready_candidate _ _ H) | exact Hct]. }
  split; [exact F|]. split.
  - unfold contents. rewrite F, lookup_insert_eq, I3, I2. cbn [default from_option].
    unfold nowOf. rewrite C3, C1. reflexivity.
  - congruence.
Qed.

Lemma reclaim_stale_lock_witness :
  ready sampleMutex (staleWorld [])
  /\ exists w',
    LockWithContext 1 sampleMutex (Some 0) (staleWorld []) = (Some None, w')
    /\ files w' = <[LockPath sampleMutex := freshInode (staleWorld [])]>
                    (files (staleWorld []))
    /\ contents w' (LockPath sampleMutex) =
         Some (Sprintf_d_nl
                 (if Int64.sub (nowOf w') (nowOf (staleWorld []))
                       >? millis (refresh sampleMutex)
                  then nowOf w' else nowOf (staleWorld [])))
    /\ clock w' = clock (staleWorld [])
                  + Z.max (Int64.mul (pulse sampleMutex) 2) 0.
Proof.
  assert (ready sampleMutex (staleWorld [])) as H.
  { constructor.
    - reflexivity.
    - apply (bool_decide_eq_true (_ ∈ _)). vm_compute. reflexivity.
    - reflexivity.
    - reflexivity.
    - vm_compute. reflexivity. }
  assert (storedTimestamp (staleWorld []) (LockPath sampleMutex) = Some 1000)
    as Es by (vm_compute; reflexivity).
  assert (0 <= deadAgeRecovery sampleMutex) as Hd by (vm_compute; discriminate).
  assert (isDead sampleMutex (staleWorld []) 1000) as Hdead
      by (vm_compute; reflexivity).
  split; [exact H|].
  exact (reclaim_stale_lock sampleMutex 0 (Some 0) (staleWorld []) 1000
           H Hd Es ltac:(lia) Hdead).
Defined.

(** X8. An acquire that succeeds although the lock file was there has
    called [os.Remove] on the lock path itself: a lock is only ever
    taken over through the reclaim of lines 98-105. *)
Theorem takeover_needs_reclaim m fuel ctx w w' :
  is_Some (files w !! LockPath m) ->
  LockWithContext fuel m ctx w = (Some None, w') ->
  exists evs, log w' = (evs ++ log w)%list /\ In (EvRemove (LockPath m)) evs.
Proof.
  intros [i Hi]. unfold LockWithContext. unfold bind at 1.
  pose proof (logs_TempFile (LockPath m) (directory m)
                (Sprintf_s lockCandidateTemplate (id m)) w) as HT.
  destruct (TempFile _ _ w) as [[c|e] w1] eqn:ET; cbn [snd] in HT;
    [|unfold ret; discriminate].
  pose proof (candidate_not_target _ _ _ _ ET) as Hct.
  apply TempFile_effect in ET as (_ & j & F1 & _).
  assert (tracked (LockPath m) w w1) as Tr.
  { destruct HT as (evs & E & _). exists evs. split; [exact E|]. left.
    rewrite F1, lookup_insert_ne by auto. eauto. }
  unfold bind at 1.
  destruct (lockLoop fuel m ctx c (LockPath m) 0 w1) as [[r|] w2] eqn:EL;
    [|unfold ret; discriminate].
  unfold bind. pose proof (logGrows_Remove c w2) as G.
  destruct (Remove c w2) as [e w3]. cbn [snd] in G. unfold ret.
  intros [= -> <-].
  apply (staysRemoved_grows _ _ _ _ G).
  eapply lockLoop_takeover; eauto.
Qed.

Lemma takeover_needs_reclaim_witness :
  let w := staleWorld [] in
  let w' := snd (LockWithContext 1 sampleMutex Background w) in
  exists evs, log w' = (evs ++ log w)%list
              /\ In (EvRemove (LockPath sampleMutex)) evs.
Proof.
  cbv zeta.
  set (w := staleWorld []).
  set (w' := snd (LockWithContext 1 sampleMutex Background w)).
  assert (is_Some (files w !! LockPath sampleMutex)) as Ht
      by (eexists; vm_compute; reflexivity).
  assert (LockWithContext 1 sampleMutex Background w = (Some None, w')) as E
      by (vm_compute; reflexivity).
  exact (takeover_needs_reclaim sampleMutex 1 Background w w' Ht E).
Defined.

(** X9. With a negative threshold a lock file that is there stays: no
    acquire call, under any context or timeout and whatever else
    fails, takes the lock, removes the file or changes its contents,
    and [Lock] never returns. *)
Theorem disabled_reclaim_lock_stays m fuel w i :
  deadAgeRecovery m < 0 ->
  files w !! LockPath m = Some i ->
  (forall ctx r w',
      LockWithContext fuel m ctx w = (r, w') ->
      r <> Some None
      /\ files w' !! LockPath m = Some i
      /\ contents w' (LockPath m) = contents w (LockPath m))
  /\ (forall timeout r w',
        TryLock fuel m timeout w = (r, w') ->
        r <> Some None
        /\ files w' !! LockPath m = Some i
        /\ contents w' (LockPath m) = contents w (LockPath m))
  /\ (forall o w', Lock fuel m w = (Some o, w') -> o <> Returned).
Proof.
  intros Hoff Ht.
  assert (forall ctx r w',
             LockWithContext fuel m ctx w = (r, w') ->
             r <> Some None
             /\ files w' !! LockPath m = Some i
             /\ contents w' (LockPath m) = contents w (LockPath m)) as HL
      by (intros ctx r w' E;
          exact (LockWithContext_blocked m fuel ctx w i r w' Ht (or_intror Hoff) E)).
  assert (forall timeout r w',
             TryLock fuel m timeout w = (r, w') ->
             r <> Some None
             /\ files w' !! LockPath m = Some i
             /\ contents w' (LockPath m) = contents w (LockPath m)) as HT.
  { intros timeout r w'. unfold TryLock. unfold bind at 1.
    destruct (timeout >? 0).
    - unfold WithTimeout. unfold_m. apply HL.
    - unfold ret. apply HL. }
  split; [exact HL|]. split; [exact HT|].
  intros o w'. unfold Lock. unfold bind.
  destruct (TryLock fuel m 0 w) as [[[e|]|] w1] eqn:E; unfold ret;
    intros [= <- <-]; [discriminate|].
  destruct (HT 0 _ _ E) as [H _]. congruence.
Qed.

Lemma disabled_reclaim_lock_stays_witness :
  let w := staleWorld [] in
  let r := TryLock 5 patientMutex (2 * Second) w in
  fst r <> Some None
  /\ files (snd r) !! LockPath patientMutex = Some 1%nat
  /\ contents (snd r) (LockPath patientMutex) = contents w (LockPath patientMutex).
Proof.
  cbv zeta.
  set (w := staleWorld []).
  assert (deadAgeRecovery patientMutex < 0) as Hoff by (vm_compute; reflexivity).
  assert (files w !! LockPath patientMutex = Some 1%nat) as Ht
      by (vm_compute; reflexivity).
  exact (proj1 (proj2 (disabled_reclaim_lock_stays patientMutex 5 w 1%nat Hoff Ht))
           (2 * Second)
           (fst (TryLock 5 patientMutex (2 * Second) w))
           (snd (TryLock 5 patientMutex (2 * Second) w))
           (surjective_pairing _)).
Defined.

(** X11. Mutual exclusion, as far as one process after another shows it:
    once an engine has taken the free lock, a [TryLock] whose timeout
    ends a millisecond or more before the dead-age threshold does not
    get the lock; it returns [expired] when the timeout has passed and
    leaves the lock file and every other name as they are. *)
Theorem fresh_lock_excludes m fuel ctx w w1 timeout :
  free m w ->
  LockWithContext (S fuel) m ctx w = (Some None, w1) ->
  files w !! candidateName m w1 = None ->
  0 < pulse m -> 0 < timeout ->
  0 <= clock w -> clock w + timeout <= Int64.max_int ->
  timeout + Millisecond <= deadAgeRecovery m ->
  exists n, forall fuel2, (n <= fuel2)%nat ->
    exists w2,
      TryLock fuel2 m timeout w1 = (Some (Some expired), w2)
      /\ clock w2 = clock w + timeout
      /\ files w2 = files w1
      /\ storedTimestamp w2 (LockPath m) = Some (nowOf w).
Proof.
  intros F E Hc Hp Ht Hc0 Hmax Hd.
  destruct (LockWithContext_free m fuel ctx w F) as (w1' & E' & F1 & I1 & C1 & O1).
  rewrite E in E'. injection E' as <-.
  assert (LockPath m <> candidateName m w1) as Hne.
  { intros Heq. pose proof (LockPath_lastByte m) as L. rewrite Heq in L.
    unfold candidateName in L. rewrite joinPath_lastByte with (c := "p"%char) in L;
      [discriminate|]. rewrite <- app_assoc. now rewrite lastByte_append. }
  assert (held m w1) as H.
  { constructor.
    - rewrite F1, lookup_insert_eq. eauto.
    - exact O1.
    - pose proof (LockWithContext_dirs (S fuel) m ctx w) as D.
      rewrite E in D. cbn [snd] in D. rewrite D. apply (free_dir _ _ F).
    - apply (free_dir_ne _ _ F).
    - apply (free_id _ _ F).
    - rewrite F1, lookup_insert_ne by exact Hne. exact Hc.
    - exact Hp. }
  assert (storedTimestamp w1 (LockPath m) = Some (nowOf w)) as Hs.
  { unfold storedTimestamp, contents. rewrite F1, lookup_insert_eq, I1.
    cbn [default from_option].
    apply ParseInt_TrimSpace_Sprintf, nano2Millis_in_range, Int64Facts.wrap_in_range. }
  exists (Z.to_nat (timeout / pulse m) + 1)%nat. intros fuel2 Hfuel.
  unfold TryLock. unfold bind at 1.
  destruct (Z.gtb_spec timeout 0); [|lia].
  unfold WithTimeout, bind at 1, get, ret at 1.
  unfold LockWithContext. unfold bind at 1.
  destruct (held_polling m w1 H) as (wa & i & -> & Hni & P & Ca & Da).
  unfold bind at 1.
  assert (clock wa <= clock w1 + timeout) as Hle by lia.
  assert (forall x, clock wa <= x <= clock w1 + timeout ->
                    deadAt m (storedTimestamp w1 (LockPath m)) x = false) as Halive
      by (intros x Hx; rewrite Hs; unfold nowOf; apply fresh_stamp_alive; lia).
  destruct (lockLoop_expires m _ _ i _ _ Hni Hp
              (clock w1 + timeout) _ fuel2 0 wa Hfuel P)
    as (w2 & EL & C2 & F2 & O2).
  - lia.
  - rewrite Ca. pose proof (pulses_cover timeout (pulse m) Ht Hp). lia.
  - exact Halive.
  - pose proof (lockLoop_still_polling m _ _ i _ _ Hni Hp _ fuel2 0 wa _ w2
                  P Hle Halive EL) as (_ & _ & Ht2 & Hs2).
    rewrite EL. unfold bind.
    destruct (Remove (candidateName m w1) w2) as [r w3] eqn:ER.
    pose proof ER as ER0.
    apply Remove_spec in ER as (Hok & _ & _ & Hgood & I3 & Hclk).
    assert (r = None) as ->.
    { apply Hgood; [now rewrite O2|]. rewrite F2.
      destruct P as (_ & Hcn & _). eauto. }
    destruct (Hok eq_refl) as [_ Hf].
    unfold ret. exists w3. split; [reflexivity|].
    split; [congruence|].
    assert (files w3 = files w1) as Fw by (rewrite Hf, F2; exact Da).
    split; [exact Fw|].
    rewrite <- Hs, <- Hs2. unfold storedTimestamp, contents.
    now rewrite Hf, lookup_delete_ne, I3 by (apply not_eq_sym, Hne).
Qed.

Lemma fresh_lock_excludes_witness :
  let w1 := snd (LockWithContext 1 sampleMutex Background sampleWorld) in
  exists n, forall fuel2, (n <= fuel2)%nat ->
    exists w2,
      TryLock fuel2 sampleMutex (2 * Second) w1 = (Some (Some expired), w2)
      /\ clock w2 = clock sampleWorld + 2 * Second
      /\ files w2 = files w1
      /\ storedTimestamp w2 (LockPath sampleMutex) = Some (nowOf sampleWorld).
Proof.
  cbv zeta.
  set (w1 := snd (LockWithContext 1 sampleMutex Background sampleWorld)).
  assert (LockWithContext 1 sampleMutex Background sampleWorld = (Some None, w1))
    as E by (vm_compute; reflexivity).
  assert (files sampleWorld !! candidateName sampleMutex w1 = None) as Hc
      by (vm_compute; reflexivity).
  assert (0 < pulse sampleMutex) as Hp by (vm_compute; reflexivity).
  assert (0 < 2 * Second) as Ht by (vm_compute; reflexivity).
  assert (0 <= clock sampleWorld) as H0 by (vm_compute; discriminate).
  assert (clock sampleWorld + 2 * Second <= Int64.max_int) as Hm
      by (vm_compute; discriminate).
  assert (2 * Second + Millisecond <= deadAgeRecovery sampleMutex) as Hd
      by (vm_compute; discriminate).
  exact (fresh_lock_excludes sampleMutex 0 Background sampleWorld w1 (2 * Second)
           (free_sampleWorld sampleMutex eq_refl eq_refl) E Hc Hp Ht H0 Hm Hd).
Defined.

(** *** Waiting, reading, and the variants that panic *)

(** X12. What the [select] of [sleepOrDone] does to the clock, whatever the
    oracle says: it returns [false] only after the whole delay and not
    past the deadline, [true] only under a deadline that is not later
    than the timer, at the deadline or at once if the deadline has
    passed; no file changes. *)
Theorem sleepOrDone_clock ctx delay w stop w' :
  sleepOrDone ctx delay w = (stop, w') ->
  clock w <= clock w' <= clock w + Z.max delay 0
  /\ files w' = files w /\ inodes w' = inodes w
  /\ (stop = false ->
      clock w' = clock w + Z.max delay 0
      /\ forall d, ctx = Some d -> clock w' <= d)
  /\ (stop = true ->
      exists d, ctx = Some d /\ d <= clock w + Z.max delay 0
                /\ clock w' = Z.max (clock w) d).
Proof.
  unfold sleepOrDone, selectDoneOrAfter. unfold_m. cbn.
  destruct ctx as [d|]; cbn;
    [destruct (Z.ltb_spec d (clock w + Z.max delay 0)); cbn;
     [|destruct (Z.ltb_spec (clock w + Z.max delay 0) d); cbn;
       [|destruct (oracle w) as [|[] o]; cbn]]|];
    intros [= <- <-]; cbn; repeat split;
    try lia; try discriminate;
    try (intros d' [= <-]; lia);
    try (intros _; exists d; repeat split; lia).
Qed.

Lemma sleepOrDone_clock_witness :
  let w := sampleWorld in
  let r := sleepOrDone (Some (clock w + 100 * Millisecond)) DefaultPulse w in
  fst r = true
  /\ exists d, Some (clock w + 100 * Millisecond) = Some d
               /\ d <= clock w + Z.max DefaultPulse 0
               /\ clock (snd r) = Z.max (clock w) d.
Proof.
  cbv zeta.
  set (ctx := Some (clock sampleWorld + 100 * Millisecond)).
  set (w' := snd (sleepOrDone ctx DefaultPulse sampleWorld)).
  assert (sleepOrDone ctx DefaultPulse sampleWorld = (true, w')) as E
      by (vm_compute; reflexivity).
  split; [rewrite E; reflexivity|].
  exact (proj2 (proj2 (proj2 (proj2
           (sleepOrDone_clock ctx DefaultPulse sampleWorld true w' E))))
           eq_refl).
Defined.

(** X13. [When] and [readTimestamp] only read: one call of [ReadFile], and
    the names, the contents, the directories and the clock are as
    before. *)
Theorem When_only_reads m w :
  let w' := snd (When m w) in
  log w' = EvReadFile (LockPath m) :: log w
  /\ files w' = files w /\ inodes w' = inodes w
  /\ dirs w' = dirs w /\ clock w' = clock w.
Proof.
  unfold When, readTimestamp, ReadFile, contents. unfold_m. cbn.
  destruct (oracle w) as [|[] o]; cbn;
    try (destruct (files w !! LockPath m); cbn;
         try destruct (ParseInt _) as [z|]; cbn;
         try destruct (negb (z =? 0)); cbn);
    repeat split.
Qed.





(** X15. [Lock] waits without a deadline: when it returns the lock file is
    in place; it never panics with ["expired"], only with a failure to
    create or to write the candidate file. *)
Theorem Lock_outcome fuel m w o w' :
  Lock fuel m w = (Some o, w') ->
  (o = Returned -> is_Some (files w' !! LockPath m))
  /\ (forall e, o = Panicked e ->
        (exists e0, e = ErrWrap ("cannot create candidate lock " +:+ id m) e0)
        \/ (exists e0, e = ErrWrap
                             ("cannot write current timestamp for candidate lock "
                                +:+ id m) e0)).
Proof.
  unfold Lock, TryLock. change (0 >? 0) with false. cbv iota.
  unfold bind at 1. unfold bind at 1. unfold ret at 1.
  destruct (LockWithContext fuel m Background w) as [[[e|]|] w1] eqn:E;
    unfold ret; intros [= <- <-].
  - split; [discriminate|]. intros e' [= <-].
    revert E. unfold LockWithContext. unfold bind at 1.
    destruct (TempFile _ _ w) as [[c|e1] w2].
    + unfold bind at 1.
      destruct (lockLoop fuel m Background c (LockPath m) 0 w2) as [[r|] w3] eqn:EL;
        [|unfold ret; discriminate].
      unfold bind. destruct (Remove c w3). unfold ret. intros [= -> <-].
      apply lockLoop_errors in EL as [[_ [d Hd]]|H]; [discriminate | now right].
    + unfold ret. intros [= <- <-]. left. now exists e1.
  - split; [|discriminate]. intros _. eapply LockWithContext_success; eassumption.
Qed.

Lemma Lock_outcome_witness :
  let r := Lock 1 sampleMutex sampleWorld in
  fst r = Some Returned /\ is_Some (files (snd r) !! LockPath sampleMutex).
Proof.
  cbv zeta.
  set (w' := snd (Lock 1 sampleMutex sampleWorld)).
  assert (Lock 1 sampleMutex sampleWorld = (Some Returned, w')) as E
      by (vm_compute; reflexivity).
  split; [rewrite E; reflexivity|].
  exact (proj1 (Lock_outcome 1 sampleMutex sampleWorld Returned w' E) eq_refl).
Defined.

(** *** A lock file without a timestamp *)

Lemma unstamped_lock_stays_witness :
  let w := heldWorld "" [] in
  let r := LockWithContext 4 sampleMutex (Some (clock w + Second)) w in
  fst r <> Some None
  /\ files (snd r) !! LockPath sampleMutex = Some 1%nat
  /\ contents (snd r) (LockPath sampleMutex) = contents w (LockPath sampleMutex).
Proof.
  cbv zeta.
  set (w := heldWorld "" []).
  set (ctx := Some (clock w + Second)).
  assert (files w !! LockPath sampleMutex = Some 1%nat) as Ht
      by (vm_compute; reflexivity).
  assert (unstamped (storedTimestamp w (LockPath sampleMutex))) as Hu
      by (vm_compute; exact I).
  exact (unstamped_lock_stays sampleMutex 4 ctx w 1%nat
           (fst (LockWithContext 4 sampleMutex ctx w))
           (snd (LockWithContext 4 sampleMutex ctx w))
           Ht Hu (surjective_pairing _)).
Defined.

(** *** Milliseconds *)

(** X16. [nano2Millis], and so [millis] and [now], truncate toward zero: a
    duration of less than a millisecond, of either sign, counts as 0,
    and on clocks that an [int64] holds [now] does not go back when
    the clock does not. *)
Theorem millis_truncates d :
  (0 <= d -> millis d * 1000000 <= d < (millis d + 1) * 1000000)
  /\ (d <= 0 -> (millis d - 1) * 1000000 < d <= millis d * 1000000)
  /\ (-1000000 < d < 1000000 -> millis d = 0)
  /\ (forall w w', Int64.in_range (clock w) -> Int64.in_range (clock w') ->
                   clock w <= clock w' -> fst (now w) <= fst (now w')).
Proof.
  unfold millis, nano2Millis, Int64.div.
  pose proof (Z.quot_rem' d 1000000) as E.
  split; [|split; [|split]].
  - intros Hd. pose proof (Z.rem_bound_pos d 1000000 Hd ltac:(lia)). lia.
  - intros Hd. pose proof (Z.rem_bound_pos_neg d 1000000 ltac:(lia) Hd). lia.
  - intros Hd. apply Z.quot_small_iff; lia.
  - intros w w' Hr Hr' Hle. rewrite !now_eq. cbn [fst].
    rewrite !Int64Facts.wrap_small by assumption.
    unfold nano2Millis, Int64.div. apply Z.quot_le_mono; lia.
Qed.

Lemma millis_truncates_witness :
  millis (999 * 1000) = 0 /\ millis (-999999) = 0
  /\ millis 1500000 * 1000000 <= 1500000 < (millis 1500000 + 1) * 1000000.
Proof.
  destruct (millis_truncates (999 * 1000)) as (_ & _ & H1 & _).
  destruct (millis_truncates (-999999)) as (_ & _ & H2 & _).
  destruct (millis_truncates 1500000) as (H3 & _).
  split; [apply H1; lia|]. split; [apply H2; lia | apply H3; lia].
Defined.

(** X17. [writeCurrentTimestamp] returns the millisecond it read from the
    clock whether or not the write succeeds; a successful write appends
    the line of that millisecond to the file, a failed one leaves the
    file as it was. One write is attempted, and no name changes. *)
Theorem writeCurrentTimestamp_outcome f w ts err w' :
  writeCurrentTimestamp f w = ((ts, err), w') ->
  ts = nowOf w
  /\ log w' = EvWrite f (Sprintf_d_nl ts) :: log w
  /\ files w' = files w /\ clock w' = clock w
  /\ (err = None ->
      inodes w' = <[f := default "" (inodes w !! f) +:+ Sprintf_d_nl ts]> (inodes w))
  /\ (err <> None -> err = Some ErrIO /\ inodes w' = inodes w).
Proof.
  unfold writeCurrentTimestamp, Write, now, UnixNano, nowOf. unfold_m. cbn.
  destruct (oracle w) as [|[] o]; cbn; intros [= <- <- <-]; cbn;
    repeat split; auto; try congruence.
Qed.

Lemma writeCurrentTimestamp_outcome_witness :
  let w := heldWorld "1000" [true] in
  let r := writeCurrentTimestamp 1 w in
  fst r = (nowOf w, Some ErrIO) /\ inodes (snd r) = inodes w.
Proof.
  cbv zeta.
  set (w := heldWorld "1000" [true]).
  set (w' := snd (writeCurrentTimestamp 1 w)).
  assert (writeCurrentTimestamp 1 w = ((nowOf w, Some ErrIO), w')) as E
      by (vm_compute; reflexivity).
  destruct (writeCurrentTimestamp_outcome _ _ _ _ _ E) as (_ & _ & _ & _ & _ & H).
  rewrite E. split; [reflexivity|]. apply H. discriminate.
Defined.

(* ===================================================================== *)
(** ** Further properties: the construction of an engine *)
(* ===================================================================== *)

(** X18. An engine constructed under an absolute root, or under a relative
    one in an absolute working directory, has an absolute lock
    directory; the directory exists afterwards, no directory is lost,
    and files and clock are untouched. *)
Theorem NewMutexExt_creates_directory root lockId p r d w m w' :
  NewMutexExt root lockId p r d w = (Ok m, w') ->
  anchored root w ->
  IsAbs (directory m) = true
  /\ directory m ∈ dirs w'
  /\ dirs w ⊆ dirs w'
  /\ files w' = files w /\ inodes w' = inodes w /\ clock w' = clock w.
Proof.
  intros E Ha. destruct (NewMutexExt_directory _ _ _ _ _ _ _ _ E Ha) as (l & _ & Hd).
  split; [rewrite Hd; apply Ascii.eqb_refl|].
  split; [eapply NewMutexExt_directory_made; eassumption|].
  apply NewMutexExt_Ok in E as (root' & _ & _ & Hdirs & Hf & Hi & Hc & _).
  split; [intros x Hx; rewrite Hdirs; now apply elem_of_union_r | auto].
Qed.

Lemma NewMutexExt_creates_directory_witness :
  let r := NewMutexExt "locks" "Job" 0 0 0 sampleWorld in
  exists m, fst r = Ok m
    /\ directory m = "/home/user/locks/Job"
    /\ IsAbs (directory m) = true
    /\ directory m ∈ dirs (snd r)
    /\ dirs sampleWorld ⊆ dirs (snd r)
    /\ files (snd r) = files sampleWorld.
Proof.
  cbv zeta.
  set (m := mkMutex "job" "/home/user/locks/Job" 0 DefaultPulse DefaultRefresh).
  set (w' := snd (NewMutexExt "locks" "Job" 0 0 0 sampleWorld)).
  assert (NewMutexExt "locks" "Job" 0 0 0 sampleWorld = (Ok m, w')) as E
      by (vm_compute; reflexivity).
  assert (anchored "locks" sampleWorld) as Ha
      by (right; exists "/home/user"; split; reflexivity).
  destruct (NewMutexExt_creates_directory _ _ _ _ _ _ _ _ E Ha)
    as (H1 & H2 & H3 & H4 & _).
  exists m. rewrite E. split; [reflexivity|]. split; [reflexivity|].
  split; [exact H1|]. split; [exact H2|]. split; [exact H3 | exact H4].
Defined.

(** X19. The lock file of an engine constructed under an absolute root, for
    an identifier without a slash, lies directly in the lock directory,
    where [ioutil.TempFile] puts the candidate files; its path is
    absolute and is none of the directories [MkdirAll] goes through. *)
Theorem NewMutexExt_lock_file_place root lockId p r d w m w' :
  NewMutexExt root lockId p r d w = (Ok m, w') ->
  anchored root w ->
  hasByte slash lockId = false ->
  LockPath m = joinPath (directory m) (ToLower lockId +:+ "-mutex.lck")
  /\ IsAbs (LockPath m) = true
  /\ ~ In (LockPath m) (lineage (directory m)).
Proof.
  intros E Ha Hs.
  destruct (NewMutexExt_directory _ _ _ _ _ _ _ _ E Ha) as (l & Hl & Hd).
  apply NewMutexExt_Ok in E as (root' & _ & Hm & _).
  assert (id m = ToLower lockId) as Hid by (now subst m).
  assert (hasByte slash (id m) = false) as Hs'
      by now rewrite Hid, hasByte_ToLower.
  destruct (LockPath_child m l Hl Hd Hs') as [HL Hn].
  rewrite Hid in HL. split; [exact HL|]. split; [|exact Hn].
  unfold LockPath, IsAbs. rewrite Hd.
  destruct (Join_rooted (String slash (joinSlash l))
              (Sprintf_s lockTemplate (id m)) (Ascii.eqb_refl _))
    as (l' & _ & ->).
  apply Ascii.eqb_refl.
Qed.

Lemma NewMutexExt_lock_file_place_witness :
  let r := NewMutexExt "/tmp" "Lock" 0 0 0 sampleWorld in
  exists m, fst r = Ok m
    /\ LockPath m = joinPath (directory m) (ToLower "Lock" +:+ "-mutex.lck")
    /\ IsAbs (LockPath m) = true
    /\ ~ In (LockPath m) (lineage (directory m)).
Proof.
  cbv zeta.
  set (m := mkMutex "lock" "/tmp/Lock" 0 DefaultPulse DefaultRefresh).
  set (w' := snd (NewMutexExt "/tmp" "Lock" 0 0 0 sampleWorld)).
  assert (NewMutexExt "/tmp" "Lock" 0 0 0 sampleWorld = (Ok m, w')) as E
      by (vm_compute; reflexivity).
  exists m. rewrite E. split; [reflexivity|].
  exact (NewMutexExt_lock_file_place _ _ _ _ _ _ _ _ E
           (or_introl eq_refl) eq_refl).
Defined.

(** X20. The identifier of an engine constructed from an identifier of
    ASCII bytes is the given one with its upper-case letters lowered:
    it is made of ASCII bytes, none of them an upper-case letter,
    lowering it again changes nothing, no byte is added or lost, and it
    has a slash exactly when the given one has. *)
Theorem NewMutexExt_Id root lockId p r d w m w' :
  isASCII lockId = true ->
  NewMutexExt root lockId p r d w = (Ok m, w') ->
  Id m = ToLower lockId
  /\ isASCII (Id m) = true
  /\ hasUpper (Id m) = false
  /\ ToLower (Id m) = Id m
  /\ String.length (Id m) = String.length lockId
  /\ hasByte slash (Id m) = hasByte slash lockId.
Proof.
  intros Ha (root' & _ & -> & _)%NewMutexExt_Ok. unfold Id. cbn [id].
  split; [reflexivity|].
  split; [now rewrite ToLower_isASCII|].
  split; [apply ToLower_no_upper|].
  split; [apply ToLower_idem|].
  split; [apply ToLower_length | apply hasByte_ToLower].
Qed.

Lemma NewMutexExt_Id_witness :
  let r := NewMutexExt "/tmp" "Lock" 0 0 0 sampleWorld in
  exists m, fst r = Ok m
    /\ Id m = "lock"
    /\ isASCII (Id m) = true
    /\ hasUpper (Id m) = false
    /\ ToLower (Id m) = Id m
    /\ String.length (Id m) = String.length "Lock"
    /\ hasByte slash (Id m) = hasByte slash "Lock".
Proof.
  cbv zeta.
  set (m := mkMutex "lock" "/tmp/Lock" 0 DefaultPulse DefaultRefresh).
  set (w' := snd (NewMutexExt "/tmp" "Lock" 0 0 0 sampleWorld)).
  assert (NewMutexExt "/tmp" "Lock" 0 0 0 sampleWorld = (Ok m, w')) as E
      by (vm_compute; reflexivity).
  exists m. rewrite E. split; [reflexivity|].
  exact (NewMutexExt_Id "/tmp" "Lock" 0 0 0 sampleWorld m w' eq_refl E).
Defined.

(** X21. A failed [NewMutexExt] changes no file and loses no directory.
    Its error is that of [os.Getwd], unwrapped and only for a relative
    root, and then the directories are as they were; or it is that of
    [os.MkdirAll], wrapped in a message that names the root, not the
    directory, and then the directories made before the failure remain:
    all of them lie on the way to the lock directory. *)
Theorem NewMutexExt_failure root lockId p r d w e w' :
  NewMutexExt root lockId p r d w = (Err e, w') ->
  files w' = files w /\ inodes w' = inodes w /\ dirs w ⊆ dirs w'
  /\ ((IsAbs root = false /\ (e = ErrIO \/ e = ErrNotExist) /\ dirs w' = dirs w)
      \/ exists root' e0,
           absoluteRoot root w = Some root'
           /\ e = ErrWrap ("cannot create directory (" +:+ root' +:+ ")") e0
           /\ (e0 = ErrIO \/ e0 = ErrNotDir)
           /\ dirs w' ⊆ list_to_set (lineage (Join [root'; lockId])) ∪ dirs w).
Proof.
  intros E. unfold NewMutexExt in E. unfold bind at 1 in E.
  pose proof (root_step root w) as R. cbv zeta in R.
  destruct ((if negb (IsAbs root) then Abs root else ret (Ok root)) w)
    as [[root'|e0] w1]; cbn [fst snd] in R;
    destruct R as (Rf & Ri & _ & _ & _ & Rd & _ & Rr).
  - unfold bind at 1 in E.
    pose proof (MkdirAll_spec (Join [root'; lockId]) w1) as S. cbv zeta in S.
    destruct (MkdirAll (Join [root'; lockId]) w1) as [[e1|] w2];
      cbn [fst snd] in S; [|discriminate E].
    destruct S as (Sf & Si & _ & _ & _ & Sd1 & Sd2 & _ & Se).
    unfold ret in E. injection E as <- <-.
    rewrite Rd in Sd1, Sd2.
    split; [congruence|]. split; [congruence|]. split; [exact Sd1|].
    right. exists root', e1. auto.
  - unfold ret in E. injection E as <- <-.
    split; [exact Rf|]. split; [exact Ri|]. split; [now rewrite Rd|].
    left. destruct Rr as [Hr He]. auto.
Qed.

Lemma NewMutexExt_failure_witness :
  let w := bareWorld [false; true] in
  let r := NewMutexExt "/tmp" "lock" 0 0 0 w in
  fst r = Err (ErrWrap "cannot create directory (/tmp)" ErrIO)
  /\ files (snd r) = files w /\ dirs w ⊆ dirs (snd r)
  /\ "/tmp" ∈ dirs (snd r) /\ ("/tmp" ∉ dirs w)
  /\ ("/tmp/lock" ∉ dirs (snd r)).
Proof.
  cbv zeta.
  set (w := bareWorld [false; true]).
  set (e := ErrWrap "cannot create directory (/tmp)" ErrIO).
  set (w' := snd (NewMutexExt "/tmp" "lock" 0 0 0 w)).
  assert (NewMutexExt "/tmp" "lock" 0 0 0 w = (Err e, w')) as E
      by (vm_compute; reflexivity).
  destruct (NewMutexExt_failure _ _ _ _ _ _ _ _ E) as (H1 & _ & H2 & _).
  rewrite E. split; [reflexivity|]. split; [exact H1|]. split; [exact H2|].
  split; [apply (bool_decide_eq_true (_ ∈ _)); vm_compute; reflexivity|].
  split; apply (bool_decide_eq_false (_ ∈ _)); vm_compute; reflexivity.
Defined.

(** X22. With no failing system call, [NewMutexExt] fails exactly when a
    regular file is in the way of the lock directory, and then with
    the not-a-directory error wrapped in a message about the root. *)
Theorem NewMutexExt_file_in_the_way root lockId p r d w root' :
  oracle w = [] -> absoluteRoot root w = Some root' ->
  (Exists (fun x => is_Some (files w !! x)) (lineage (Join [root'; lockId])) ->
   fst (NewMutexExt root lockId p r d w)
   = Err (ErrWrap ("cannot create directory (" +:+ root' +:+ ")") ErrNotDir))
  /\ (Forall (fun x => files w !! x = None) (lineage (Join [root'; lockId])) ->
      exists m, fst (NewMutexExt root lockId p r d w) = Ok m
                /\ directory m = Join [root'; lockId]).
Proof.
  intros Ho Hr.
  destruct (NewMutexExt_run root lockId p r d w root' Ho Hr) as (w' & -> & _).
  cbn [fst]. split.
  - intros H. replace (existsb _ _) with true; [reflexivity|].
    symmetry. apply existsb_Exists. eapply Exists_impl; [exact H|].
    intros x Hx. now apply bool_decide_eq_true.
  - intros H. replace (existsb _ _) with false; [eexists; split; reflexivity|].
    symmetry. apply not_true_is_false. intros Hx%existsb_Exists.
    apply List.Exists_exists in Hx as (x & Hin & Hx).
    rewrite List.Forall_forall in H. apply bool_decide_eq_true in Hx as [i Hi].
    rewrite (H x Hin) in Hi. discriminate.
Qed.

Lemma NewMutexExt_file_in_the_way_witness :
  fst (NewMutexExt "/tmp" "lock" 0 0 0 obstructedWorld)
  = Err (ErrWrap ("cannot create directory (" +:+ "/tmp" +:+ ")") ErrNotDir).
Proof.
  assert (Exists (fun x => is_Some (files obstructedWorld !! x))
                 (lineage (Join ["/tmp"; "lock"]))) as H.
  { change (lineage (Join ["/tmp"; "lock"])) with ["/"; "/tmp"; "/tmp/lock"].
    apply Exists_cons_tl, Exists_cons_tl, Exists_cons_hd.
    exists 1%nat. vm_compute. reflexivity. }
  exact (proj1 (NewMutexExt_file_in_the_way "/tmp" "lock" 0 0 0 obstructedWorld
                  "/tmp" eq_refl eq_refl) H).
Defined.



(** X24. [NewMutex] is [NewMutexExt] with the default pulse, refresh and
    dead-age threshold, which are the values [NewMutexExt] itself puts
    in for a pulse and a refresh of 0: 500 ms, 10 s, and one hour, so
    that reclaim is enabled. *)
Theorem NewMutex_defaults root lockId w :
  NewMutex root lockId w = NewMutexExt root lockId 0 0 (60 * Minute) w
  /\ forall m w', NewMutex root lockId w = (Ok m, w') ->
       pulse m = 500 * Millisecond /\ refresh m = 10 * Second
       /\ deadAgeRecovery m = 60 * Minute
       /\ millis (deadAgeRecovery m) = 3600000.
Proof.
  split.
  - unfold NewMutex, NewMutexExt, bind.
    destruct ((if negb (IsAbs root) then Abs root else ret (Ok root)) w)
      as [[root'|e] w1]; [|reflexivity].
    destruct (MkdirAll _ w1) as [[e|] w2]; reflexivity.
  - intros m w' (root' & _ & -> & _)%NewMutexExt_Ok.
    cbn [pulse refresh deadAgeRecovery]. repeat split.
Qed.

Lemma NewMutex_defaults_witness :
  exists m, fst (NewMutex "/tmp" "lock" sampleWorld) = Ok m
    /\ pulse m = 500 * Millisecond /\ refresh m = 10 * Second
    /\ deadAgeRecovery m = 60 * Minute
    /\ millis (deadAgeRecovery m) = 3600000.
Proof.
  set (w' := snd (NewMutex "/tmp" "lock" sampleWorld)).
  assert (NewMutex "/tmp" "lock" sampleWorld = (Ok sampleMutex, w')) as E
      by (vm_compute; reflexivity).
  exists sampleMutex. rewrite E. split; [reflexivity|].
  exact (proj2 (NewMutex_defaults "/tmp" "lock" sampleWorld) sampleMutex w' E).
Defined.

(* ===================================================================== *)
(** ** Further properties: the command line *)
(* ===================================================================== *)

(** X25. [ifEmptyStr] returns one of its arguments: the default for a
    string of ASCII white space, the string itself when it begins and
    ends with bytes that no white space contains; the result is blank
    only if both arguments are. *)
Theorem ifEmptyStr_choice str defaultStr :
  (Forall (fun c => isSpace1 c = true) (list_ascii_of_string str) ->
   ifEmptyStr str defaultStr = defaultStr)
  /\ (forall a z, firstByte str = Some a -> plain a = true ->
                  lastByte str = Some z -> plain z = true ->
                  ifEmptyStr str defaultStr = str)
  /\ isEmptyStr (ifEmptyStr str defaultStr)
     = isEmptyStr str && isEmptyStr defaultStr.
Proof.
  unfold ifEmptyStr. split; [|split].
  - intros H. now rewrite isEmptyStr_spaces.
  - intros a z Ha Pa Hz Pz. now rewrite (isEmptyStr_plain str a z).
  - destruct (isEmptyStr str) eqn:E; [reflexivity | exact E].
Qed.

Lemma ifEmptyStr_choice_witness :
  ifEmptyStr (String "009" " ") "/tmp" = "/tmp"
  /\ ifEmptyStr "/var/lock" "/tmp" = "/var/lock".
Proof.
  destruct (ifEmptyStr_choice (String "009" " ") "/tmp") as (H1 & _).
  destruct (ifEmptyStr_choice "/var/lock" "/tmp") as (_ & H2 & _).
  split.
  - apply H1. repeat constructor.
  - apply (H2 "/"%char "k"%char); reflexivity.
Defined.

(** X26. [getProg] drops the directories and the last extension of the
    program path: [dir/name.ext] gives [name] when [ext] has no dot,
    even if [name] is empty; [dir/name] gives [name] when [name] has no
    dot. On an empty argument list it panics. *)
Theorem getProg_name dir name ext rest :
  hasByte slash name = false -> hasByte slash ext = false ->
  hasByte "." ext = false ->
  getProg ((dir +:+ String slash (name +:+ String "." ext)) :: rest) = Some name
  /\ getProg ((name +:+ String "." ext) :: rest) = Some name
  /\ (nonEmpty name = true -> hasByte "." name = false ->
      getProg ((dir +:+ String slash name) :: rest) = Some name
      /\ getProg (name :: rest) = Some name)
  /\ getProg [] = None.
Proof.
  intros Hn He Hd.
  assert (hasByte slash (name +:+ String "." ext) = false) as Hs
      by (rewrite hasByte_append, Hn; cbn [hasByte orb]; now rewrite He).
  assert (nonEmpty (name +:+ String "." ext) = true) as Hne
      by (destruct name; reflexivity).
  destruct (Base_last dir _ Hs Hne) as [B1 B2].
  unfold getProg. rewrite B1, B2, cutLast_at by assumption.
  split; [reflexivity|]. split; [reflexivity|]. split; [|reflexivity].
  intros Hn1 Hn2. destruct (Base_last dir name Hn Hn1) as [B3 B4].
  now rewrite B3, B4, cutLast_none.
Qed.

Lemma getProg_name_witness :
  getProg ["/usr/local/bin/fmutex.exe"; "-id"; "job"] = Some "fmutex"
  /\ getProg ["./.profile"] = Some "".
Proof.
  split.
  - exact (proj1 (getProg_name "/usr/local/bin" "fmutex" "exe" ["-id"; "job"]
                    eq_refl eq_refl eq_refl)).
  - exact (proj1 (getProg_name "." "" "profile" [] eq_refl eq_refl eq_refl)).
Defined.



(** X28. [doTest] exits with 0 for a lock file that holds a timestamp other
    than 0 and with 1 otherwise; when the engine cannot be built the
    process ends with status 1 as well. It changes no file, but it
    may create the lock directory. *)
Theorem doTest_outcome flags w r w' :
  doTest flags w = (r, w') ->
  files w' = files w /\ inodes w' = inodes w /\ clock w' = clock w
  /\ dirs w ⊆ dirs w'
  /\ match r with
     | Done (msg, code) =>
         exists m w0,
           NewMutexExt (cmn_Root flags) (cmn_Id flags) (lck_Pulse flags)
                       (lck_Refresh flags) (lck_Limit flags) w = (Ok m, w0)
           /\ ((code = 1 /\ msg = MsgUnlocked (Id m) (LockPath m)
                /\ fst (When m w0) = zeroTime)
               \/ (code = 0
                   /\ msg = MsgLocked (Id m) (LockPath m) (fst (When m w0))
                   /\ fst (When m w0) <> zeroTime))
     | Fatal msg => exists e, msg = MsgCannotCreate (cmn_Id flags) e
     end.
Proof.
  unfold doTest, newMutex. unfold bind at 1. unfold bind at 1.
  pose proof (NewMutexExt_effects (cmn_Root flags) (cmn_Id flags)
                (lck_Pulse flags) (lck_Refresh flags) (lck_Limit flags) w) as N.
  destruct (NewMutexExt _ _ _ _ _ w) as [[m|e] w0] eqn:E; cbv zeta in N;
    cbn [snd] in N; destruct N as (F0 & I0 & C0 & D0).
  - unfold ret at 1. unfold bind.
    pose proof (When_effects m w0) as W. cbv zeta in W.
    destruct (When m w0) as [tm w1] eqn:EW. cbn [snd fst] in *.
    destruct W as (F1 & I1 & C1 & D1).
    unfold IsZero. destruct (Z.eqb_spec tm zeroTime) as [->|Hnz];
      unfold ret; intros [= <- <-];
      (split; [congruence|]); (split; [congruence|]); (split; [congruence|]);
      (split; [now rewrite D1|]); exists m, w0; (split; [reflexivity|]).
    + left. rewrite EW. repeat split.
    + right. rewrite EW. repeat split. exact Hnz.
  - unfold ret. intros [= <- <-]. repeat split; auto. now exists e.
Qed.

Lemma doTest_outcome_witness :
  let r := doTest sampleFlags (staleWorld []) in
  fst r = Done (MsgLocked "lock" targetPath (Unix 1 0), 0)
  /\ files (snd r) = files (staleWorld [])
  /\ dirs (staleWorld []) ⊆ dirs (snd r).
Proof.
  cbv zeta.
  set (w' := snd (doTest sampleFlags (staleWorld []))).
  assert (doTest sampleFlags (staleWorld [])
          = (Done (MsgLocked "lock" targetPath (Unix 1 0), 0), w')) as E
      by (vm_compute; reflexivity).
  destruct (doTest_outcome _ _ _ _ E) as (H1 & _ & _ & H2 & _).
  rewrite E. split; [reflexivity|]. split; [exact H1 | exact H2].
Defined.

(** X29. [doLock] returns only with the lock file in place. It ends the
    process when the engine cannot be built or [TryLock] fails, and
    with the error [expired] only under a positive timeout. *)
Theorem doLock_outcome fuel flags w r w' :
  doLock fuel flags w = (Some r, w') ->
  match r with
  | Done _ =>
      exists m w0,
        NewMutexExt (cmn_Root flags) (cmn_Id flags) (lck_Pulse flags)
                    (lck_Refresh flags) (lck_Limit flags) w = (Ok m, w0)
        /\ is_Some (files w' !! LockPath m)
  | Fatal msg =>
      (exists e, msg = MsgCannotCreate (cmn_Id flags) e)
      \/ (exists e, msg = MsgCannotLock (ToLower (cmn_Id flags)) e
                    /\ (e = expired -> 0 < lck_Timeout flags))
  end.
Proof.
  unfold doLock, newMutex. unfold bind at 1. unfold bind at 1.
  destruct (NewMutexExt _ _ _ _ _ w) as [[m|e] w0] eqn:E.
  - unfold ret at 1. unfold bind.
    destruct (TryLock fuel m (lck_Timeout flags) w0) as [[[e|]|] w1] eqn:ET;
      unfold ret; intros [= <- <-].
    + right. exists e. split.
      * apply NewMutexExt_Ok in E as (root' & _ & -> & _). reflexivity.
      * intros ->. destruct (Z.gtb_spec (lck_Timeout flags) 0) as [H|H]; [lia|].
        exfalso. revert ET. unfold TryLock.
        destruct (Z.gtb_spec (lck_Timeout flags) 0) as [|_]; [lia|].
        unfold bind, ret. intros ET.
        apply (LockWithContext_background_not_expired fuel m w0).
        now rewrite ET.
    + exists m, w0. split; [reflexivity|].
      revert ET. unfold TryLock. unfold bind.
      destruct ((if lck_Timeout flags >? 0
                 then WithTimeout (lck_Timeout flags) else ret Background) w0)
        as [ctx w0'].
      apply LockWithContext_success.
  - unfold ret. intros [= <- <-]. left. now exists e.
Qed.

Lemma doLock_outcome_witness :
  let r := doLock 1 sampleFlags sampleWorld in
  fst r = Some (Done tt)
  /\ exists m w0,
       NewMutexExt "/tmp" "lock" DefaultPulse DefaultRefresh DefaultDeadTimeout
                   sampleWorld = (Ok m, w0)
       /\ is_Some (files (snd r) !! LockPath m).
Proof.
  cbv zeta.
  set (w' := snd (doLock 1 sampleFlags sampleWorld)).
  assert (doLock 1 sampleFlags sampleWorld = (Some (Done tt), w')) as E
      by (vm_compute; reflexivity).
  rewrite E. split; [reflexivity|].
  exact (doLock_outcome 1 sampleFlags sampleWorld (Done tt) w' E).
Defined.


